(** * pyliterate: the Markdown rewriter of [pyliterate/run_markdown.py]

    A shallow embedding of [run_markdown.py] and the properties of its
    block scanner, source accumulator, executor wrapper, error
    normaliser and emitter.

    Conventions of the embedding.
    - A Python [str] is a [list ascii]; the documents considered are
      ASCII texts, and [lower] acts on the ASCII letters only.
    - [__main__.__dict__] is a [gmap string pyobj].
    - Running Python source ([ast.parse], [compile], [exec]) is not
      defined here: it is a parameter, the [runtime], which receives the
      namespace and returns the namespace it leaves behind, the text
      written to the capture buffer and how the run ended.
    - Exceptions are explicit: every fallible function returns a
      [result].  A generator is a function that returns the fragments it
      yielded before it stopped, together with how it stopped.
    - The [stdout], [stderr] and [files] of a [world] are what the
      module itself prints and the files it opens.  What executed code
      or a child process writes by itself, to a file or to a stream it
      inherits, is outside the embedding, and so is the order in which
      such writes would mix with those of the module.
    - The file system is a map from paths to texts: [open] fails when
      the path is not in the map, with [FileNotFoundError], and in no
      other way.
    - [signal.alarm], [random.seed] and the time zone are outside the
      embedding. *)

From Stdlib Require Import ZArith Ascii String List Lia.
From stdpp Require Import gmap strings list relations.

Abbreviation str := (list ascii).

(** A string literal as a Python [str]. *)
Definition lit (s : string) : str := list_ascii_of_string s.

(** * Python's [str] methods used by the program *)

Module Py.

Definition nl : ascii := "010"%char.

(** [t.count(c)] for a one-character [c]. *)
Fixpoint count (c : ascii) (t : str) : nat :=
  match t with
  | [] => 0
  | x :: t' => (if Ascii.eqb x c then 1 else 0) + count c t'
  end.

(** [t[a:b]] for [0 <= a] and [0 <= b]. *)
Definition slice (a b : nat) (t : str) : str := take (b - a) (drop a t).

(** [t[a:b]] where [a] may be [None]. *)
Definition slice_from (a : option nat) (b : nat) (t : str) : str :=
  match a with
  | Some a => slice a b t
  | None => take b t
  end.

(** [t[:b]] where [b] may be [None]. *)
Definition slice_to (b : option nat) (t : str) : str :=
  match b with
  | Some b => take b t
  | None => t
  end.

(** Offset of the first [c] in [t], if any. *)
Fixpoint index (c : ascii) (t : str) : option nat :=
  match t with
  | [] => None
  | x :: t' => if Ascii.eqb x c then Some 0 else S <$> index c t'
  end.

(** [t.find(c, from)]: the offset of the first [c] at or after [from],
    [-1] when there is none. *)
Definition find (c : ascii) (from : nat) (t : str) : Z :=
  match index c (drop from t) with
  | Some i => Z.of_nat (from + i)
  | None => (-1)%Z
  end.

Definition lower_char (c : ascii) : ascii :=
  let n := nat_of_ascii c in
  if (65 <=? n) && (n <=? 90) then ascii_of_nat (n + 32) else c.

(** [t.lower()]. *)
Definition lower (t : str) : str := map lower_char t.

(** [t.startswith(p)]. *)
Fixpoint startswith (p t : str) : bool :=
  match p, t with
  | [], _ => true
  | _ :: _, [] => false
  | a :: p', b :: t' => Ascii.eqb a b && startswith p' t'
  end.

Fixpoint lstrip (f : ascii -> bool) (t : str) : str :=
  match t with
  | [] => []
  | x :: t' => if f x then lstrip f t' else t
  end.

Definition rstrip (f : ascii -> bool) (t : str) : str :=
  rev (lstrip f (rev t)).

Definition strip_by (f : ascii -> bool) (t : str) : str :=
  rstrip f (lstrip f t).

(** [t.strip('\n')]. *)
Definition strip_nl (t : str) : str := strip_by (fun x => Ascii.eqb x nl) t.

Definition is_space (c : ascii) : bool :=
  let n := nat_of_ascii c in
  ((9 <=? n) && (n <=? 13)) || ((28 <=? n) && (n <=? 32)).

(** [t.strip()]. *)
Definition strip (t : str) : str := strip_by is_space t.

(** [t.split('\n')[-1]]: what follows the last line break. *)
Fixpoint last_line (acc t : str) : str :=
  match t with
  | [] => acc
  | x :: t' => if Ascii.eqb x nl then last_line [] t' else last_line (acc ++ [x]) t'
  end.

(** [p in t]. *)
Fixpoint contains (p t : str) : bool :=
  startswith p t ||
  match t with
  | [] => false
  | _ :: t' => contains p t'
  end.

(** The start offsets of [re.finditer(pat, t)] for a literal, non-empty
    [pat]: leftmost matches that do not overlap.  [pos] is the offset
    of [t] in the whole text and [skip] the number of characters of
    [t] still covered by the previous match. *)
Fixpoint finditer_from (pat : str) (pos skip : nat) (t : str) : list nat :=
  match t with
  | [] => []
  | _ :: t' =>
      match skip with
      | S k => finditer_from pat (S pos) k t'
      | O =>
          if startswith pat t
          then pos :: finditer_from pat (S pos) (length pat - 1) t'
          else finditer_from pat (S pos) 0 t'
      end
  end.

Definition finditer (pat t : str) : list nat := finditer_from pat 0 0 t.

(** [os.path.basename(p)]. *)
Fixpoint basename (acc p : str) : str :=
  match p with
  | [] => acc
  | x :: p' => if Ascii.eqb x "/" then basename [] p' else basename (acc ++ [x]) p'
  end.

(** [os.path.join(a, b)] of [posixpath]. *)
Definition path_join (a b : str) : str :=
  if startswith ["/"%char] b then b
  else match a with
       | [] => b
       | _ => if Ascii.eqb (List.last a " "%char) "/" then a ++ b
              else a ++ "/"%char :: b
       end.

End Py.

(** * The regular expressions of Python's [re] that [filename_re] uses *)

Module Re.

Inductive regex :=
| Chr (c : ascii)
| Set_ (p : ascii -> bool)
| Seq (r1 r2 : regex)
| Alt (r1 r2 : regex)
| Rep (r : regex) (lo : nat) (hi : option nat).

Definition cont := str -> option str.

(** Greedy repetition [{lo,hi}] of the matcher [m], by backtracking: one
    more iteration is tried first, the continuation after it. *)
Fixpoint rep (m : str -> cont -> option str) (n lo : nat) (s : str) (k : cont)
  : option str :=
  match n with
  | O => if lo =? 0 then k s else None
  | S n' =>
      match m s (fun s' => rep m n' (pred lo) s' k) with
      | Some r => Some r
      | None => if lo =? 0 then k s else None
      end
  end.

(** The backtracking matcher: [run r s k] matches [r] at the start of
    [s] and passes what is left to [k].  An unbounded repetition can
    iterate at most [length s] times. *)
Fixpoint run (r : regex) (s : str) (k : cont) : option str :=
  match r with
  | Chr c =>
      match s with
      | x :: s' => if Ascii.eqb x c then k s' else None
      | [] => None
      end
  | Set_ p =>
      match s with
      | x :: s' => if p x then k s' else None
      | [] => None
      end
  | Seq r1 r2 => run r1 s (fun s' => run r2 s' k)
  | Alt r1 r2 =>
      match run r1 s k with
      | Some r => Some r
      | None => run r2 s k
      end
  | Rep r1 lo hi =>
      rep (run r1) (match hi with Some h => h | None => length s end) lo s k
  end.

(** Length of the match of [r] at the start of [s]. *)
Definition match_len (r : regex) (s : str) : option nat :=
  (fun rest => length s - length rest) <$> run r s Some.

(** [r.sub(repl, s)] for an [r] that matches no empty string: [skip]
    counts the characters still covered by the previous match. *)
Fixpoint sub_from (r : regex) (repl : str) (skip : nat) (s : str) : str :=
  match s with
  | [] => []
  | c :: s' =>
      match skip with
      | S k => sub_from r repl k s'
      | O =>
          match match_len r s with
          | Some (S k) => repl ++ sub_from r repl k s'
          | _ => c :: sub_from r repl 0 s'
          end
      end
  end.

Definition sub (r : regex) (repl s : str) : str := sub_from r repl 0 s.

Fixpoint word (w : str) : regex :=
  match w with
  | [] => Rep (Chr " ") 0 (Some 0)
  | [c] => Chr c
  | c :: w' => Seq (Chr c) (word w')
  end.

End Re.

Definition is_dot (c : ascii) : bool := Ascii.eqb c ".".

(** The set [[-a-zA-Z0-9_/]]. *)
Definition is_path_char (c : ascii) : bool :=
  let n := nat_of_ascii c in
  Ascii.eqb c "-" || ((97 <=? n) && (n <=? 122)) || ((65 <=? n) && (n <=? 90))
  || ((48 <=? n) && (n <=? 57)) || Ascii.eqb c "_" || Ascii.eqb c "/".

(** [filename_re = re.compile('[\\.]{0,2}/[-a-zA-Z0-9_/]+(\\.py|\\.md)')] *)
(** [/[-a-zA-Z0-9_/]+(\\.py|\\.md)], what follows the dots. *)
Definition path_re : Re.regex :=
  Re.Seq (Re.Chr "/")
    (Re.Seq (Re.Rep (Re.Set_ is_path_char) 1 None)
       (Re.Alt (Re.word (lit ".py")) (Re.word (lit ".md")))).

Definition filename_re : Re.regex :=
  Re.Seq (Re.Rep (Re.Set_ is_dot) 0 (Some 2)) path_re.

(** [filename_re.sub('my_code.py', msg)] *)
Definition redact (msg : str) : str := Re.sub filename_re (lit "my_code.py") msg.

(** * The process state *)

(** The values [run_markdown.py] itself binds in a namespace, and any
    other Python value by its [repr]. *)
Inductive pyobj :=
| REAL_PRINT                        (* the builtin [print] *)
| REAL_PPRINT                       (* [pprint.pprint] *)
| my_print | my_pprint | my_debug | my_help | my_pdb
                                    (* the closures of one [exec_source] call *)
| StringIO                          (* the capture buffer [output] *)
| PyModule (name : string)
| PyValue (repr : str).

#[global] Instance pyobj_eq_dec : EqDecision pyobj.
Proof. solve_decision. Defined.

(** The exceptions that travel through the program. *)
Inductive exn :=
| MarkdownExecError (kind msg : str)
| WrappedException (output kind msg : str)  (* [__context__] is [kind(msg)] *)
| AssertionError (msg : str)
| CalledProcessError
| FileNotFoundError (path : str)
| BaseException (kind : str).       (* [SystemExit], [KeyboardInterrupt] *)

Inductive result (A : Type) :=
| Ok (a : A)
| Raise (e : exn).
Arguments Ok {A} a.
Arguments Raise {A} e.

(** How [subprocess.check_output(['python2.7'], input=...)] ends: it
    returns what the child wrote to its standard output when the child
    exits with status 0, raises [CalledProcessError] when it exits with
    another status, and [FileNotFoundError] when there is no
    [python2.7] to start. *)
Inductive child :=
| Exited0 (output : str)
| ExitedNonzero
| Missing.

(** How [exec(code, context, context)] (after [ast.parse] and [compile])
    ended. *)
Inductive outcome :=
| Completed
| Raised (kind msg : str) (format_list : list str)
    (* an [Exception]: class name, [str(e)], [traceback.format_exception] *)
| Escaped (kind : str).
    (* a [BaseException] that is no [Exception] *)

Record execution := {
  left_context : gmap string pyobj;  (* the namespace after the run *)
  captured : str;                    (* [output.getvalue()] *)
  ended : outcome
}.

(** The Python interpreter: path, source and namespace to an execution. *)
Definition runtime := str -> str -> gmap string pyobj -> execution.

Record world := {
  context : gmap string pyobj;       (* [__main__.__dict__] *)
  stdout : str;
  stderr : str;
  files : gmap str str;
  executed : list (bool * str)
    (* history of the [exec_source] calls: [raise_exceptions] and source;
       kept for the statements only, the program never reads it *)
}.

Definition set_context (c : gmap string pyobj) (w : world) : world :=
  {| context := c; stdout := stdout w; stderr := stderr w;
     files := files w; executed := executed w |}.

Definition to_stdout (t : str) (w : world) : world :=
  {| context := context w; stdout := stdout w ++ t; stderr := stderr w;
     files := files w; executed := executed w |}.

Definition to_stderr (t : str) (w : world) : world :=
  {| context := context w; stdout := stdout w; stderr := stderr w ++ t;
     files := files w; executed := executed w |}.

Definition write_file (path t : str) (w : world) : world :=
  {| context := context w; stdout := stdout w; stderr := stderr w;
     files := <[path := t]> (files w); executed := executed w |}.

Definition record_call (mode : bool) (source : str) (w : world) : world :=
  {| context := context w; stdout := stdout w; stderr := stderr w;
     files := files w; executed := executed w ++ [(mode, source)] |}.

(** The names of [__main__] that matter here, when [run_markdown.py] is
    the script being run (lines 51 to 70). *)
Definition module_globals : gmap string pyobj :=
  <["REAL_PPRINT" := REAL_PPRINT]> (<["REAL_PRINT" := REAL_PRINT]>
  (<["pydoc" := PyModule "pydoc"]> (<["pprint" := PyModule "pprint"]>
  (<["pdb" := PyModule "pdb"]> ∅)))).

Definition initial_world (fs : gmap str str) : world :=
  {| context := module_globals; stdout := []; stderr := [];
     files := fs; executed := [] |}.

(** * [exec_source] *)

(** Lines 151 to 156. *)
Definition install_overrides (c : gmap string pyobj) : gmap string pyobj :=
  let c := <["print" := my_print]> c in
  let c := <["pprint" := my_pprint]> c in
  let c := <["debug" := my_debug]> c in
  let c := <["help" := my_help]> c in
  let c := <["Pdb" := my_pdb]> c in
  <["STDOUT" := StringIO]> c.

(** Lines 179 to 182: the index of the first line that names [path], the
    last index when there is none. *)
Fixpoint cutoff_loop (path : str) (cutoff i : nat) (lines : list str) : nat :=
  match lines with
  | [] => cutoff
  | line :: rest =>
      if Py.contains path line then i else cutoff_loop path i (S i) rest
  end.

Section Program.

Variable run : runtime.
(** [subprocess.check_output(['python2.7'], input=...)]. *)
Variable python2_7 : str -> child.
(** The standard error of a [python3] child fed the source, [None] when
    there is no [python3] to start; its exit status is not looked at. *)
Variable python3 : str -> option str.
(** [FLAGS.root_dir]. *)
Variable root_dir : str.

Definition exec_source (path source : str) (raise_exceptions : bool)
    (w : world) : world * result str :=
  let w := set_context (install_overrides (context w)) w in
  let w := record_call raise_exceptions source w in
  let e := run path source (context w) in
  let w := set_context (left_context e) w in
  let restore w := set_context (<["print" := REAL_PRINT]> (context w)) w in
  match ended e with
  | Completed =>
      (* finally *)
      let w := restore w in
      (w, Ok (captured e))
  | Raised kind msg format_list =>
      (* except Exception as e *)
      let w := restore w in
      let output_so_far := captured e in
      let w := match output_so_far with
               | [] => w
               | _ => to_stderr output_so_far w
               end in
      if raise_exceptions then
        (* finally *)
        let w := restore w in
        (w, Raise (WrappedException output_so_far kind msg))
      else
        let cutoff := cutoff_loop path 0 0 format_list in
        let formatted := concat (drop cutoff format_list) in
        let w := to_stderr (lit "Traceback (most recent call last):" ++ [Py.nl]) w in
        let w := to_stderr formatted w in
        (* finally *)
        let w := restore w in
        (w, Raise (MarkdownExecError kind msg))
  | Escaped kind =>
      (* finally *)
      let w := restore w in
      (w, Raise (BaseException kind))
  end.

(** Lines 197 to 200.  The child inherits the standard error of the
    process. *)
Definition exec_python2 (source : str) (w : world) : world * result str :=
  match python2_7 source with
  | Exited0 output => (w, Ok output)
  | ExitedNonzero => (w, Raise CalledProcessError)
  | Missing => (w, Raise (FileNotFoundError (lit "python2.7")))
  end.

(** Lines 203 to 213.  The child inherits the standard output of the
    process; only its standard error is read. *)
Definition exec_syntax_error (source : str) (w : world) : world * result str :=
  match python3 source with
  | Some output => (w, Ok (Py.last_line [] (Py.strip_nl output)))
  | None => (w, Raise (FileNotFoundError (lit "python3")))
  end.

Definition exec_exception (path source : str) (w : world) : world * result str :=
  match exec_source path source true w with
  | (w, Raise (WrappedException output kind msg)) =>
      let pretty_exception := msg in
      let pretty_exception := redact pretty_exception in
      let exception_line := kind ++ lit ": " ++ pretty_exception in
      match output with
      | _ :: _ => (w, Ok (output ++ lit "Traceback ..." ++ [Py.nl] ++ exception_line))
      | [] => (w, Ok exception_line)
      end
  | (w, Raise e) => (w, Raise e)
  | (w, Ok _) => (w, Raise (AssertionError (lit "Exception not raised")))
  end.

(** ** The generator [iterate_blocks] *)

(** A running generator: the process state and the fragments yielded
    so far. *)
Record machine := { host : world; yielded : list str }.

Definition gen (A : Type) : Type := machine -> machine * result A.

Definition ret {A} (a : A) : gen A := fun m => (m, Ok a).

Definition bind {A B} (c : gen A) (k : A -> gen B) : gen B :=
  fun m =>
    match c m with
    | (m', Ok a) => k a m'
    | (m', Raise e) => (m', Raise e)
    end.

Notation "x <- c ;; k" := (bind c (fun x => k))
  (at level 100, c at next level, right associativity).
Notation "c ;;; k" := (bind c (fun _ => k))
  (at level 100, right associativity).

Definition yield (t : str) : gen unit :=
  fun m => ({| host := host m; yielded := yielded m ++ [t] |}, Ok tt).

(** A call of a function of the module from inside the generator. *)
Definition call {A} (f : world -> world * result A) : gen A :=
  fun m =>
    let '(w, r) := f (host m) in
    ({| host := w; yielded := yielded m |}, r).

(** The local variables of [iterate_blocks] (lines 240 to 244). *)
Record scan := {
  text_start : nat;
  source_start : option nat;
  block_suffix : str;
  pending_source : str;
  pending_output : str
}.

Definition scan0 : scan :=
  {| text_start := 0; source_start := None; block_suffix := [];
     pending_source := []; pending_output := [] |}.

Definition set_text_start (n : nat) (st : scan) : scan :=
  {| text_start := n; source_start := source_start st;
     block_suffix := block_suffix st; pending_source := pending_source st;
     pending_output := pending_output st |}.

Definition set_suffix (suffix : str) (start : option nat) (st : scan) : scan :=
  {| text_start := text_start st; source_start := start;
     block_suffix := suffix; pending_source := pending_source st;
     pending_output := pending_output st |}.

Definition set_pending_source (t : str) (st : scan) : scan :=
  {| text_start := text_start st; source_start := source_start st;
     block_suffix := block_suffix st; pending_source := t;
     pending_output := pending_output st |}.

Definition set_pending_output (t : str) (st : scan) : scan :=
  {| text_start := text_start st; source_start := source_start st;
     block_suffix := block_suffix st; pending_source := pending_source st;
     pending_output := t |}.

Definition fence : str := lit "```".

(** Lines 257 to 265: an opening fence that starts at [start]. *)
Definition opening (text : str) (start : nat) (st : scan) : gen scan :=
  let end_ := start + length fence in
  let suffix_end := Py.find Py.nl end_ text in
  let st :=
    if (0 <? suffix_end)%Z then
      let suffix := Py.lower (Py.slice end_ (Z.to_nat suffix_end) text) in
      set_suffix suffix (Some (end_ + length suffix)) st
    else st in
  yield (Py.slice (text_start st) start text) ;;;
  ret st.

(** Lines 276 to 279 and 327 to 330: run the pending source and add
    what it printed to the pending output. *)
Definition flush (path : str) (st : scan) : gen scan :=
  out <- call (exec_source path (pending_source st) false) ;;
  ret (set_pending_source [] (set_pending_output (pending_output st ++ out) st)).

(** Lines 286 to 292. *)
Definition accumulate (text source : str) (st : scan) : scan :=
  let line_offset := Z.of_nat (Py.count Py.nl (Py.slice_to (source_start st) text)) in
  let delta_offset := (line_offset - Z.of_nat (Py.count Py.nl (pending_source st)))%Z in
  let st := set_pending_source
              (pending_source st ++ repeat Py.nl (Z.to_nat delta_offset)) st in
  set_pending_source (pending_source st ++ source) st.

Definition is_python (suffix : str) : bool :=
  bool_decide (suffix = lit "python").
Definition is_python_exception (suffix : str) : bool :=
  bool_decide (suffix = lit "python-exception").
Definition is_python2 (suffix : str) : bool :=
  bool_decide (suffix = lit "python2").
Definition is_python_syntax_error (suffix : str) : bool :=
  bool_decide (suffix = lit "python-syntax-error").
Definition is_python_include (suffix : str) : bool :=
  Py.startswith (lit "python-include:") suffix.

(** Lines 327 to 343: the [else] branch, an output block. *)
Definition output_block (path source : str) (st : scan) : gen scan :=
  st <- match pending_source st with
        | _ :: _ => flush path st
        | [] =>
            match pending_output st with
            | [] => ret (set_pending_output source st)
            | _ :: _ => ret st
            end
        end ;;
  yield (fence ++ block_suffix st ++ [Py.nl]) ;;;
  yield (Py.strip_nl (pending_output st)) ;;;
  yield (Py.nl :: fence) ;;;
  ret (set_pending_output [] st).

(** Lines 272 to 301: the body of a [python] or [python-exception]
    block. *)
Definition python_block (path text source : str) (st : scan) : gen scan :=
  let suffix := block_suffix st in
  st <- (if is_python_exception suffix then
           match pending_source st with
           | _ :: _ => flush path st
           | [] => ret st
           end
         else ret st) ;;
  let st := accumulate text source st in
  yield (fence ++ suffix) ;;;
  yield source ;;;
  yield fence ;;;
  if is_python_exception suffix then
    out <- call (exec_exception path (pending_source st)) ;;
    ret (set_pending_source [] (set_pending_output (pending_output st ++ out) st))
  else ret st.

(** Lines 303 to 309. *)
Definition python2_block (source : str) (st : scan) : gen scan :=
  yield (fence ++ lit "python2") ;;;
  (if negb (Py.startswith (Py.nl :: lit "# Python 2") source)
   then yield (Py.nl :: lit "# Python 2") else ret tt) ;;;
  yield source ;;;
  yield fence ;;;
  out <- call (exec_python2 source) ;;
  ret (set_pending_output (pending_output st ++ out) st).

(** Lines 311 to 315. *)
Definition syntax_error_block (source : str) (st : scan) : gen scan :=
  yield (fence ++ lit "python-syntax-error") ;;;
  yield source ;;;
  yield fence ;;;
  out <- call (exec_syntax_error source) ;;
  ret (set_pending_output (pending_output st ++ out) st).

(** Lines 317 to 325. *)
Definition include_block (st : scan) : gen scan :=
  let suffix := block_suffix st in
  let include_path := drop (length (lit "python-include:")) suffix in
  let file_basename := Py.basename [] include_path in
  let full_path := Py.path_join root_dir include_path in
  data <- call (fun w => match files w !! full_path with
                         | Some data => (w, Ok data)
                         | None => (w, Raise (FileNotFoundError full_path))
                         end) ;;
  yield (fence ++ suffix ++ [Py.nl]) ;;;
  yield (lit "# " ++ file_basename ++ [Py.nl]) ;;;
  yield (Py.strip data) ;;;
  yield (Py.nl :: fence) ;;;
  ret st.

(** Lines 267 to 343: a closing fence that starts at [start]. *)
Definition closing (path text : str) (start : nat) (st : scan) : gen scan :=
  let end_ := start + length fence in
  let st := set_text_start end_ st in
  let source := Py.slice_from (source_start st) start text in
  let suffix := block_suffix st in
  if is_python suffix || is_python_exception suffix then
    python_block path text source st
  else if is_python2 suffix then python2_block source st
  else if is_python_syntax_error suffix then syntax_error_block source st
  else if is_python_include suffix then include_block st
  else output_block path source st.

(** Lines 253 to 343: the loop over the fences, [blocks_seen] counting
    them. *)
Fixpoint blocks (path text : str) (blocks_seen : nat) (starts : list nat)
    (st : scan) : gen scan :=
  match starts with
  | [] => ret st
  | start :: rest =>
      st <- (if blocks_seen mod 2 =? 0
             then opening text start st
             else closing path text start st) ;;
      blocks path text (S blocks_seen) rest st
  end.

(** Lines 345 to 350. *)
Definition finish (path text : str) (st : scan) : gen unit :=
  yield (drop (text_start st) text) ;;;
  match pending_source st with
  | _ :: _ => call (exec_source path (pending_source st) false) ;;; ret tt
  | [] => ret tt
  end.

Definition iterate_blocks (path text : str) : gen unit :=
  st <- blocks path text 0 (Py.finditer fence text) scan0 ;;
  finish path text st.

(** The generator started in [w] and run until it stops. *)
Definition consume (it : gen unit) (w : world) : machine * result unit :=
  it {| host := w; yielded := [] |}.

(** ** [print_iter] and [main] *)

(** [print_iter(it, path, overwrite)]: every fragment is printed as it
    is yielded, to [sys.stdout] or to a buffer that replaces the file
    when the generator ends without an exception. *)
Definition print_iter (it : gen unit) (path : str) (overwrite : bool)
    (w : world) : world * result unit :=
  let '(m, r) := consume it w in
  let output := concat (yielded m) in
  if overwrite then
    match r with
    | Ok _ => (write_file path output (host m), Ok tt)
    | Raise e => (host m, Raise e)
    end
  else (to_stdout output (host m), r).

(** [main], for [FLAGS.path = paths] and [FLAGS.overwrite = overwrite].
    [Ok n] is [return n]; [Raise e] is an exception that leaves [main]. *)
Fixpoint main (paths : list str) (overwrite : bool) (w : world)
  : world * result Z :=
  match paths with
  | [] => (w, Ok 0%Z)
  | path :: rest =>
      match files w !! path with
      | None => (w, Raise (FileNotFoundError path))
      | Some text =>
          let it := iterate_blocks path text in
          match print_iter it path overwrite w with
          | (w, Ok _) => main rest overwrite w
          | (w, Raise (MarkdownExecError _ _)) => (w, Ok 1%Z)
          | (w, Raise e) => (w, Raise e)
          end
      end
  end.

End Program.

(** * A small interpreter to run the program on examples

    [Toy.run] stands for Python in the examples: it runs, line by line,
    the statements [NAME = VALUE], [print('TEXT')], [print(NAME)] and
    [raise KIND('MESSAGE')].  It is no part of the repository. *)

Module Toy.

Fixpoint strip_prefix (p s : str) : option str :=
  match p, s with
  | [], _ => Some s
  | a :: p', b :: s' => if Ascii.eqb a b then strip_prefix p' s' else None
  | _ :: _, [] => None
  end.

Definition strip_suffix (p s : str) : option str :=
  @rev ascii <$> strip_prefix (rev p) (rev s).

Fixpoint split_on (sep acc s : str) : option (str * str) :=
  match strip_prefix sep s with
  | Some rest => Some (acc, rest)
  | None =>
      match s with
      | [] => None
      | c :: s' => split_on sep (acc ++ [c]) s'
      end
  end.

Fixpoint lines (acc s : str) : list str :=
  match s with
  | [] => [acc]
  | c :: s' => if Ascii.eqb c Py.nl then acc :: lines [] s' else lines (acc ++ [c]) s'
  end.

Inductive stmt :=
| Pass
| Assign (name value : str)
| PrintText (t : str)
| PrintName (name : str)
| RaiseStmt (kind msg : str)
| Invalid.

Definition parse (line : str) : stmt :=
  match line with
  | [] => Pass
  | _ =>
  match strip_prefix (lit "raise ") line with
  | Some r =>
      match split_on (lit "('") [] r with
      | Some (kind, r) =>
          match strip_suffix (lit "')") r with
          | Some msg => RaiseStmt kind msg
          | None => Invalid
          end
      | None => Invalid
      end
  | None =>
  match strip_prefix (lit "print('") line with
  | Some r =>
      match strip_suffix (lit "')") r with
      | Some t => PrintText t
      | None => Invalid
      end
  | None =>
  match strip_prefix (lit "print(") line with
  | Some r =>
      match strip_suffix (lit ")") r with
      | Some name => PrintName name
      | None => Invalid
      end
  | None =>
  match split_on (lit " = ") [] line with
  | Some (name, value) => Assign name value
  | None => Invalid
  end end end end end.

Definition is_exit (kind : str) : bool :=
  bool_decide (kind = lit "SystemExit") || bool_decide (kind = lit "KeyboardInterrupt").

Definition trace (path kind msg : str) : list str :=
  [lit "Traceback (most recent call last):" ++ [Py.nl];
   lit "  File " ++ path ++ lit ", in <module>" ++ [Py.nl];
   kind ++ lit ": " ++ msg ++ [Py.nl]].

Fixpoint exec (path : str) (todo : list str) (c : gmap string pyobj) (out : str)
  : execution :=
  match todo with
  | [] => {| left_context := c; captured := out; ended := Completed |}
  | line :: todo' =>
      let stop o := {| left_context := c; captured := out; ended := o |} in
      match parse line with
      | Pass => exec path todo' c out
      | Assign name value =>
          exec path todo' (<[string_of_list_ascii name := PyValue value]> c) out
      | PrintText t => exec path todo' c (out ++ t ++ [Py.nl])
      | PrintName name =>
          match c !! string_of_list_ascii name with
          | Some (PyValue v) => exec path todo' c (out ++ v ++ [Py.nl])
          | Some _ => exec path todo' c (out ++ lit "<object>" ++ [Py.nl])
          | None =>
              let msg := lit "name '" ++ name ++ lit "' is not defined" in
              stop (Raised (lit "NameError") msg (trace path (lit "NameError") msg))
          end
      | RaiseStmt kind msg =>
          if is_exit kind then stop (Escaped kind)
          else stop (Raised kind msg (trace path kind msg))
      | Invalid =>
          let msg := lit "invalid syntax" in
          stop (Raised (lit "SyntaxError") msg (trace path (lit "SyntaxError") msg))
      end
  end.

Definition run : runtime := fun path source c => exec path (lines [] source) c [].

(** The [python2.7] child: the same interpreter, its output. *)
Definition python2_7 : str -> child :=
  fun source =>
    let e := run (lit "<stdin>") source ∅ in
    match ended e with
    | Completed => Exited0 (captured e)
    | _ => ExitedNonzero
    end.

(** The [python3] child: what it writes to its standard error. *)
Definition python3 : str -> option str :=
  fun source =>
    Some (lit "  File <stdin>, line 1" ++ [Py.nl] ++ lit "    " ++ source
          ++ [Py.nl] ++ lit "SyntaxError: invalid syntax" ++ [Py.nl]).

Definition root_dir : str := lit ".".

(** The rewritten text of [text], or the exception. *)
Definition rewrite (text : str) : result str :=
  let '(m, r) :=
    consume (iterate_blocks run python2_7 python3 root_dir (lit "doc.md") text)
      (initial_world ∅) in
  match r with
  | Ok _ => Ok (concat (yielded m))
  | Raise e => Raise e
  end.

End Toy.

(** * The notions the properties are stated with *)

Definition capabilities : list string := ["print"; "pprint"; "debug"; "help"; "Pdb"].

Definition is_override (o : pyobj) : bool :=
  match o with
  | my_print | my_pprint | my_debug | my_help | my_pdb => true
  | _ => false
  end.

(** No capability name is bound to a closure of [exec_source]. *)
Definition reverted (c : gmap string pyobj) : Prop :=
  ∀ name o, name ∈ capabilities → c !! name = Some o → is_override o = false.

(** What [exec_source] hands to the interpreter. *)
Definition handed (w : world) : gmap string pyobj := install_overrides (context w).

(** The namespace when [exec_source] is left, by return or by raise. *)
Definition after_run (run : runtime) (path source : str) (w : world)
  : gmap string pyobj :=
  <["print" := REAL_PRINT]> (left_context (run path source (handed w))).

(** The texts [filename_re] matches: no dot, one or two, a slash, path
    characters, and [.py] or [.md]. *)
Definition is_dots (dots : str) : Prop :=
  dots = [] ∨ dots = lit "." ∨ dots = lit "..".

Definition is_ext (ext : str) : Prop := ext = lit ".py" ∨ ext = lit ".md".

(** A tag that selects the [else] branch of the closing fence. *)
Definition is_output_tag (suffix : str) : bool :=
  negb (is_python suffix || is_python_exception suffix || is_python2 suffix
        || is_python_syntax_error suffix || is_python_include suffix).

(** The text [exec_exception] returns for an exception [kind(msg)]
    raised after [output] was captured. *)
Definition exception_text (output kind msg : str) : str :=
  match output with
  | [] => kind ++ lit ": " ++ redact msg
  | _ :: _ => output ++ lit "Traceback ..." ++ [Py.nl] ++ kind ++ lit ": " ++ redact msg
  end.

(** The pending unit of a block accumulated on an empty pending source:
    as many line breaks as precede the body in the document, then the
    body. *)
Definition padded (text : str) (st : scan) (source : str) : str :=
  repeat Py.nl (Py.count Py.nl (Py.slice_to (source_start st) text)) ++ source.

(** The state a closing fence at [start] leaves, with the pending source
    emptied. *)
Definition closed (start : nat) (output : str) (st : scan) : scan :=
  {| text_start := start + 3; source_start := source_start st;
     block_suffix := block_suffix st; pending_source := [];
     pending_output := output |}.

(** The run of the pending source that precedes the body of a
    [python-exception] block (lines 275 to 279). *)
Definition flushed (run : runtime) (path : str) (st : scan) (w : world)
  : world * result str :=
  match pending_source st with
  | [] => (w, Ok [])
  | _ :: _ => exec_source run path (pending_source st) false w
  end.

(** A block as the rewriter emits output blocks: the tag up to the line
    break, the text between that line break and the closing fence, and
    the prose that follows the closing fence. *)
Record block := { tag : str; body : str; after : str }.

(** The block as it is written in the document. *)
Definition written (b : block) : str :=
  fence ++ tag b ++ Py.nl :: body b ++ fence ++ after b.

(** The block as an output block is emitted: the tag in lower case, the
    body without the line breaks around it, the closing fence on a line
    of its own. *)
Definition rewritten (b : block) : str :=
  fence ++ Py.lower (tag b) ++ Py.nl :: Py.strip_nl (Py.nl :: body b)
  ++ Py.nl :: fence ++ after b.

Definition document (prose : str) (bs : list block) : str :=
  prose ++ flat_map written bs.

(** No fence starts in [t], also when a fence follows [t]. *)
Definition fence_free (t : str) : bool :=
  negb (Py.contains fence (t ++ lit "``")).

(** An output block: no line break in the tag, no fence inside, and a
    tag that selects the [else] branch. *)
Definition plain_block (b : block) : bool :=
  forallb (λ c, negb (Ascii.eqb c Py.nl)) (tag b)
  && fence_free (tag b ++ Py.nl :: body b)
  && fence_free (after b)
  && is_output_tag (Py.lower (tag b)).

(** An output block already in the form in which it is emitted. *)
Definition emitted_form (b : block) : Prop :=
  Py.lower (tag b) = tag b ∧ Py.strip_nl (Py.nl :: body b) ++ [Py.nl] = body b.

(** One execution: the namespace [exec_source] leaves when it is entered
    with the namespace [c]. *)
Definition ran (run : runtime) (c c' : gmap string pyobj) : Prop :=
  ∃ path source,
    c' = <["print" := REAL_PRINT]> (left_context (run path source (install_overrides c))).

(** Nothing is written to a file, and the namespace changes by
    executions only. *)
Definition steady (run : runtime) (w w' : world) : Prop :=
  files w' = files w ∧ rtc (ran run) (context w) (context w').

Definition steady_gen (run : runtime) {A} (c : gen A) : Prop :=
  ∀ m, steady run (host m) (host (c m).1).

(** The files of the examples. *)
Definition a_md : str := lit "```python
x = 5
```
".

Definition b_md : str := lit "```python
print(x)
```
```
```
".

Definition c_md : str := lit "```python
print('c')
```
```
```
".

Definition shelf : gmap str str :=
  <[lit "a.md" := a_md]> (<[lit "b.md" := b_md]> (<[lit "c.md" := c_md]> ∅)).

Definition toy_main (paths : list str) (overwrite : bool) (w : world)
  : world * result Z :=
  main Toy.run Toy.python2_7 Toy.python3 Toy.root_dir paths overwrite w.

(** A document whose last two fences are on its last line, which no
    line break ends. *)
Definition stale_md : str := lit "```python
x = 1
```
``` ```".

(** A document with two [python] blocks. *)
Definition two_md : str := lit "Intro

```python
x = 1
```
text
```python
print(x)
```
".

(** The fences in [starts] are fences of [text], the first at or after
    [b], each at or after the end of the one before. *)
Fixpoint spaced (text : str) (b : nat) (starts : list nat) : Prop :=
  match starts with
  | [] => True
  | s :: rest =>
      b ≤ s ∧ Py.startswith fence (drop s text) = true ∧ spaced text (s + 3) rest
  end.

(** A line break follows every opening fence of [starts], [k] being the
    number of fences before them. *)
Fixpoint opened (text : str) (k : nat) (starts : list nat) : bool :=
  match starts with
  | [] => true
  | s :: rest =>
      ((negb (k mod 2 =? 0)) || (0 <? Py.find Py.nl (s + 3) text)%Z)
      && opened text (S k) rest
  end.

(** Between two blocks: the pending source has no more line breaks than
    the text before [text_start], and the next fence is at or after [b]. *)
Definition outside (text : str) (b : nat) (st : scan) : Prop :=
  text_start st ≤ b ∧
  Py.count Py.nl (pending_source st) ≤ Py.count Py.nl (take (text_start st) text).

(** Inside a block whose opening fence ends at [e]: the tag and the
    start of the body are those of that fence. *)
Definition inside (text : str) (b : nat) (st : scan) : Prop :=
  ∃ e ss, e ≤ b ∧ e ≤ ss ∧ source_start st = Some ss ∧
          block_suffix st = Py.lower (Py.slice e ss text) ∧
          Py.count Py.nl (pending_source st) ≤ Py.count Py.nl (take e text).

Definition invariant (text : str) (k b : nat) (st : scan) : Prop :=
  if k mod 2 =? 0 then outside text b st else inside text b st.

(** Every exception the generator raises satisfies [P]. *)
Definition raises (P : exn → Prop) {A} (c : gen A) : Prop :=
  ∀ m e, (c m).2 = Raise e → P e.

(** The exceptions that can leave a pass: no [WrappedException], and
    the only assertion is the one of [exec_exception]. *)
Definition leaves_pass (e : exn) : Prop :=
  match e with
  | WrappedException _ _ _ => False
  | AssertionError msg => msg = lit "Exception not raised"
  | _ => True
  end.

(** The exceptions that can leave [main]. *)
Definition leaves_main (e : exn) : Prop :=
  match e with
  | MarkdownExecError _ _ => False
  | _ => leaves_pass e
  end.

(** A block of code: a tag that reads [python] in lower case, no fence
    inside and none in the prose after it. *)
Definition python_code (b : block) : bool :=
  bool_decide (Py.lower (tag b) = lit "python")
  && fence_free (tag b ++ Py.nl :: body b)
  && fence_free (after b).

(** The block as a [python] block is emitted. *)
Definition echoed (b : block) : str :=
  fence ++ lit "python" ++ Py.nl :: body b ++ fence ++ after b.

(** The line breaks of [t] alone. *)
Definition blank (t : str) : str := repeat Py.nl (Py.count Py.nl t).

(** The bodies of the blocks, each on the lines it has in the document:
    what is outside the bodies is reduced to its line breaks.  [gap] is
    the prose before the first block. *)
Fixpoint python_source (gap : str) (bs : list block) : str :=
  match bs with
  | [] => []
  | b :: bs' => blank gap ++ Py.nl :: body b ++ python_source (after b) bs'
  end.

(** The prose before the fence that follows the blocks [bs], [gap]
    being the prose before the first of them. *)
Definition last_gap (gap : str) (bs : list block) : str :=
  from_option after gap (last bs).

(** The block an output block is rewritten to. *)
Definition normal (b : block) : block :=
  {| tag := Py.lower (tag b);
     body := Py.strip_nl (Py.nl :: body b) ++ [Py.nl];
     after := after b |}.

(** An interpreter whose code always fails outside the document: no
    line of the traceback names the path. *)
Definition frozen_run : runtime := λ _ _ c,
  {| left_context := c; captured := lit "a
";
     ended := Raised (lit "SyntaxError") (lit "invalid syntax")
                [lit "Traceback (most recent call last):
"; lit "  File <frozen>, line 1
"; lit "SyntaxError: invalid syntax
"] |}.

(** A book with a file to include. *)
Definition book : gmap str str := <[lit "./ch1/a.py" := lit "
x = 1

"]> ∅.

(** A text that starts with a path as [filename_re] reads one: no dot,
    one or two, a slash, one or more path characters, and [.py] or
    [.md]. *)
Definition starts_path (t : str) : Prop :=
  ∃ dots body ext rest,
    t = dots ++ "/"%char :: body ++ ext ++ rest ∧ is_dots dots ∧ body ≠ [] ∧
    Forall (λ c, is_path_char c = true) body ∧ is_ext ext.

(** The message with its paths replaced, read from the left: where a
    path starts, [my_code.py] stands for it and the reading goes on
    after it; every other character is kept. *)
Inductive redacted : str → str → Prop :=
| redacted_nil : redacted [] []
| redacted_keep c s s' :
    ¬ starts_path (c :: s) → redacted s s' → redacted (c :: s) (c :: s')
| redacted_path dots body ext post post' :
    is_dots dots → body ≠ [] → Forall (λ c, is_path_char c = true) body →
    is_ext ext → redacted post post' →
    redacted (dots ++ "/"%char :: body ++ ext ++ post) (lit "my_code.py" ++ post').

(** A block of code that is to raise: a tag that reads
    [python-exception] in lower case, no fence inside and none in the
    prose after it. *)
Definition exception_code (b : block) : bool :=
  bool_decide (Py.lower (tag b) = lit "python-exception")
  && fence_free (tag b ++ Py.nl :: body b)
  && fence_free (after b).

(** * Properties *)

(** ** Examples *)

Example filename_re_absolute :
  Re.sub filename_re (lit "my_code.py")
    (lit "can't open '/home/me/book/ch_1/item-2.md': missing")
  = lit "can't open 'my_code.py': missing".
Proof. vm_compute. reflexivity. Qed.

Example filename_re_relative :
  Re.sub filename_re (lit "my_code.py") (lit "see ../lib/a.py and ./b.md, not .../c.txt")
  = lit "see my_code.py and my_code.py, not .../c.txt".
Proof. vm_compute. reflexivity. Qed.

Example finditer_fences :
  Py.finditer (lit "```") (lit "a```b``````` c") = [1; 5; 8].
Proof. vm_compute. reflexivity. Qed.

Example rewrite_print :
  Toy.rewrite (lit "Sum:
```python
x = 4
print(x)
```
gives
```
old
```
.") = Ok (lit "Sum:
```python
x = 4
print(x)
```
gives
```
4
```
.").
Proof. vm_compute. reflexivity. Qed.

(** ** The executor wrapper *)

Section Executor.

Variable run : runtime.

Lemma exec_source_context path source mode w :
  context (exec_source run path source mode w).1 = after_run run path source w.
Proof.
  unfold exec_source, after_run, handed.
  destruct (ended _) as [|kind msg fl|kind]; simpl.
  - reflexivity.
  - destruct (captured _), mode; simpl; by rewrite ?insert_insert_eq.
  - reflexivity.
Qed.

Lemma exec_source_executed path source mode w :
  executed (exec_source run path source mode w).1 = executed w ++ [(mode, source)].
Proof.
  unfold exec_source.
  destruct (ended _) as [|kind msg fl|kind]; simpl; try reflexivity.
  destruct (captured _), mode; reflexivity.
Qed.

Lemma exec_source_files path source mode w :
  files (exec_source run path source mode w).1 = files w.
Proof.
  unfold exec_source.
  destruct (ended _) as [|kind msg fl|kind]; simpl; try reflexivity.
  destruct (captured _), mode; reflexivity.
Qed.

Lemma exec_source_stdout path source mode w :
  stdout (exec_source run path source mode w).1 = stdout w.
Proof.
  unfold exec_source.
  destruct (ended _) as [|kind msg fl|kind]; simpl; try reflexivity.
  destruct (captured _), mode; reflexivity.
Qed.

(** How a call ends, from how the interpreter ended. *)
Lemma exec_source_result path source mode w :
  (exec_source run path source mode w).2 =
  let e := run path source (handed w) in
  match ended e with
  | Completed => Ok (captured e)
  | Raised kind msg _ =>
      if mode then Raise (WrappedException (captured e) kind msg)
      else Raise (MarkdownExecError kind msg)
  | Escaped kind => Raise (BaseException kind)
  end.
Proof.
  unfold exec_source, handed. simpl.
  destruct (ended _) as [|kind msg fl|kind]; simpl; try reflexivity.
  destruct (captured _), mode; reflexivity.
Qed.

End Executor.

Lemma handed_overrides w :
  handed w !! "print" = Some my_print ∧ handed w !! "pprint" = Some my_pprint ∧
  handed w !! "debug" = Some my_debug ∧ handed w !! "help" = Some my_help ∧
  handed w !! "Pdb" = Some my_pdb ∧ handed w !! "STDOUT" = Some StringIO.
Proof. unfold handed, install_overrides. repeat split; by simplify_map_eq. Qed.

Lemma handed_other w name :
  name ∉ ["print"; "pprint"; "debug"; "help"; "Pdb"; "STDOUT"] →
  handed w !! name = context w !! name.
Proof.
  intros Hn. unfold handed, install_overrides.
  rewrite !lookup_insert_ne; [done | intros E; apply Hn; rewrite <- E; set_solver ..].
Qed.

(** C7, as the specification states it, fails: after a call that ran
    [x = 1] to completion, [pprint] is still bound to the closure
    [my_pprint] of that call. *)
Lemma C7_overrides_left_installed :
  let w' := (exec_source Toy.run (lit "doc.md") (lit "x = 1") false (initial_world ∅)).1 in
  context w' !! "pprint" = Some my_pprint ∧ ¬ reverted (context w').
Proof.
  assert (Hp : context (exec_source Toy.run (lit "doc.md") (lit "x = 1") false
                          (initial_world ∅)).1 !! "pprint" = Some my_pprint)
    by (vm_compute; reflexivity).
  split; [exact Hp |].
  intros Hrev. specialize (Hrev "pprint" my_pprint).
  discriminate Hrev; [set_solver | exact Hp].
Qed.

(** C7 (amended): of the names bound at the start of [exec_source], it
    is [print] that every exit path rebinds to the real [print]: the
    call returns, raises [WrappedException], raises [MarkdownExecError]
    or lets a [BaseException] through, and in each case the namespace it
    leaves binds [print] to [REAL_PRINT].  Every other name, [pprint],
    [debug], [help], [Pdb] and [STDOUT] among them, is left as the
    executed code left it: still the closure of this call unless the
    code itself rebound it. *)
Theorem C7_print_restored_on_every_exit (run : runtime) (path source : str)
    (mode : bool) (w : world) :
  let e := run path source (handed w) in
  let w' := (exec_source run path source mode w).1 in
  context w' !! "print" = Some REAL_PRINT ∧
  (∀ name, name ≠ "print" → context w' !! name = left_context e !! name) ∧
  (∀ name, name ∈ ["pprint"; "debug"; "help"; "Pdb"] →
     left_context e !! name = handed w !! name →
     ∃ o, context w' !! name = Some o ∧ is_override o = true) ∧
  ((exec_source run path source mode w).2 =
     match ended e with
     | Completed => Ok (captured e)
     | Raised kind msg _ =>
         if mode then Raise (WrappedException (captured e) kind msg)
         else Raise (MarkdownExecError kind msg)
     | Escaped kind => Raise (BaseException kind)
     end).
Proof.
  intros e w'. subst w'. rewrite exec_source_context. unfold after_run. fold e.
  split; [by rewrite lookup_insert_eq |].
  split; [intros name Hn; by rewrite lookup_insert_ne |].
  split; [| apply exec_source_result].
  intros name Hin Hleft.
  destruct (handed_overrides w) as (_ & Hpp & Hd & Hh & Hpdb & _).
  apply list_elem_of_In in Hin. simpl in Hin.
  destruct Hin as [<- | [<- | [<- | [<- | []]]]];
    rewrite lookup_insert_ne by done; rewrite Hleft; eauto.
Qed.

(** The amended C7 on a call whose code raises [KeyError]. *)
Lemma C7_print_restored_witness :
  let w := initial_world ∅ in
  let source := lit "print('a')
raise KeyError('k')" in
  context (exec_source Toy.run (lit "doc.md") source false w).1 !! "print"
    = Some REAL_PRINT ∧
  context (exec_source Toy.run (lit "doc.md") source false w).1 !! "pprint"
    = Some my_pprint ∧
  (exec_source Toy.run (lit "doc.md") source false w).2
    = Raise (MarkdownExecError (lit "KeyError") (lit "k")).
Proof.
  intros w source.
  destruct (C7_print_restored_on_every_exit Toy.run (lit "doc.md") source false w)
    as (Hprint & _ & _ & Hres).
  split; [exact Hprint |].
  split; [vm_compute; reflexivity |].
  rewrite Hres. vm_compute. reflexivity.
Defined.

(** ** The error normaliser *)

Lemma rep_set_greedy (p : ascii → bool) (k : Re.cont) body rest r n lo :
  Forall (λ c, p c = true) body →
  match rest with [] => True | c :: _ => p c = false end →
  k rest = Some r →
  length body ≤ n → lo ≤ length body →
  Re.rep (Re.run (Re.Set_ p)) n lo (body ++ rest) k = Some r.
Proof.
  intros Hbody Hrest Hk. revert n lo.
  induction Hbody as [|c body Hc Hbody IH]; intros n lo Hn Hlo; simpl in *.
  - assert (lo = 0) as -> by lia.
    destruct n as [|n]; simpl; [exact Hk |].
    destruct rest as [|c rest]; simpl; [exact Hk |].
    rewrite Hrest. exact Hk.
  - destruct n as [|n]; [lia |]. simpl. rewrite Hc.
    rewrite IH by lia. reflexivity.
Qed.

Lemma path_re_head s k :
  head s ≠ Some "/"%char → Re.run path_re s k = None.
Proof.
  destruct s as [|c s]; [reflexivity |]. intros Hc.
  unfold path_re. cbn [Re.run].
  destruct (Ascii.eqb_spec c "/") as [-> | Hne]; [done | reflexivity].
Qed.

Lemma path_re_match body ext post k r :
  body ≠ [] → Forall (λ c, is_path_char c = true) body → is_ext ext →
  k post = Some r →
  Re.run path_re ("/"%char :: body ++ ext ++ post) k = Some r.
Proof.
  intros Hne Hbody Hext Hk. unfold path_re. cbn [Re.run]. 
  change (("/" =? "/")%char) with true. cbv iota.
  apply rep_set_greedy; try assumption.
  - destruct Hext as [-> | ->]; reflexivity.
  - destruct Hext as [-> | ->]; cbn; by rewrite Hk.
  - rewrite length_app. lia.
  - destruct body; [done | simpl; lia].
Qed.

Lemma filename_re_run s k :
  Re.run filename_re s k =
  Re.rep (Re.run (Re.Set_ is_dot)) 2 0 s (λ s', Re.run path_re s' k).
Proof. reflexivity. Qed.

Lemma filename_re_plain c s k :
  c ≠ "."%char → c ≠ "/"%char → Re.run filename_re (c :: s) k = None.
Proof.
  intros Hd Hs. rewrite filename_re_run.
  assert (Hp : Re.run path_re (c :: s) k = None)
    by (apply path_re_head; simpl; congruence).
  cbn [Re.rep Re.run]. unfold is_dot.
  destruct (Ascii.eqb_spec c ".") as [-> | _]; [done |].
  simpl. exact Hp.
Qed.

Lemma filename_re_nil k : Re.run filename_re [] k = None.
Proof. reflexivity. Qed.

Lemma filename_re_match dots body ext post k r :
  is_dots dots → body ≠ [] → Forall (λ c, is_path_char c = true) body →
  is_ext ext → k post = Some r →
  Re.run filename_re (dots ++ "/"%char :: body ++ ext ++ post) k = Some r.
Proof.
  intros Hdots Hne Hbody Hext Hk. rewrite filename_re_run.
  assert (Hm := path_re_match body ext post k r Hne Hbody Hext Hk).
  destruct Hdots as [-> | [-> | ->]]; cbn [Re.rep Re.run app lit list_ascii_of_string];
    unfold is_dot; cbn [Ascii.eqb Bool.eqb]; simpl Nat.eqb; cbv iota.
  - by rewrite Hm.
  - by rewrite Hm.
  - by rewrite Hm.
Qed.

Lemma match_len_path dots body ext post :
  is_dots dots → body ≠ [] → Forall (λ c, is_path_char c = true) body →
  is_ext ext →
  Re.match_len filename_re (dots ++ "/"%char :: body ++ ext ++ post)
  = Some (length dots + S (length body + 3)).
Proof.
  intros Hdots Hne Hbody Hext. unfold Re.match_len.
  rewrite (filename_re_match dots body ext post Some post) by done.
  simpl. f_equal. rewrite !length_app. simpl. rewrite !length_app.
  assert (length ext = 3) by (destruct Hext as [-> | ->]; reflexivity). lia.
Qed.

Lemma sub_from_skip r repl a b :
  Re.sub_from r repl (length a) (a ++ b) = Re.sub_from r repl 0 b.
Proof.
  induction a as [|c a IH]; simpl; [by destruct b | exact IH].
Qed.

Lemma sub_from_plain r repl pre s :
  (∀ c t, c ∈ pre → Re.match_len r (c :: t) = None) →
  Re.sub_from r repl 0 (pre ++ s) = pre ++ Re.sub_from r repl 0 s.
Proof.
  intros Hpre. induction pre as [|c pre IH]; [reflexivity |].
  simpl. rewrite Hpre by set_solver. f_equal. apply IH.
  intros c' t Hc'. apply Hpre. set_solver.
Qed.

Lemma match_len_plain c t :
  c ≠ "."%char → c ≠ "/"%char → Re.match_len filename_re (c :: t) = None.
Proof.
  intros Hd Hs. unfold Re.match_len. by rewrite filename_re_plain.
Qed.

Lemma redact_path pre dots body ext post :
  "."%char ∉ pre → "/"%char ∉ pre →
  is_dots dots → body ≠ [] → Forall (λ c, is_path_char c = true) body →
  is_ext ext →
  redact (pre ++ dots ++ "/"%char :: body ++ ext ++ post)
  = pre ++ lit "my_code.py" ++ redact post.
Proof.
  intros Hd Hs Hdots Hne Hbody Hext. unfold redact, Re.sub.
  rewrite sub_from_plain.
  2:{ intros c t Hc. apply match_len_plain; intros ->; contradiction. }
  f_equal.
  assert (Hlen := match_len_path dots body ext post Hdots Hne Hbody Hext).
  destruct dots as [|d dots].
  - simpl in *. rewrite Hlen.
    replace (length body + 3) with (length (body ++ ext)).
    2:{ rewrite length_app. destruct Hext as [-> | ->]; reflexivity. }
    rewrite (app_assoc body ext post). by rewrite sub_from_skip.
  - simpl in *. rewrite Hlen.
    replace (length dots + S (length body + 3))
      with (length (dots ++ "/"%char :: body ++ ext)).
    2:{ rewrite length_app. simpl. rewrite length_app.
        destruct Hext as [-> | ->]; simpl; lia. }
    replace (dots ++ "/"%char :: body ++ ext ++ post)
      with ((dots ++ "/"%char :: body ++ ext) ++ post).
    2:{ rewrite <- !app_assoc. simpl. by rewrite <- app_assoc. }
    by rewrite sub_from_skip.
Qed.

(** What the matcher accepts has the shape of a path. *)
Lemma rep_set_sound (p : ascii → bool) n : ∀ lo s (k : Re.cont) res,
  Re.rep (Re.run (Re.Set_ p)) n lo s k = Some res →
  ∃ a s', s = a ++ s' ∧ Forall (λ c, p c = true) a ∧
          lo ≤ length a ∧ length a ≤ n ∧ k s' = Some res.
Proof.
  induction n as [|n IH]; intros lo s k res; cbn [Re.rep].
  - destruct (Nat.eqb_spec lo 0) as [-> | _]; [| discriminate].
    intros Hk. exists [], s. repeat split; [constructor | reflexivity | reflexivity | exact Hk].
  - destruct (Re.run (Re.Set_ p) s _) as [r|] eqn:E.
    + intros [= ->]. destruct s as [|x s]; [discriminate |]. cbn [Re.run] in E.
      destruct (p x) eqn:Hx; [| discriminate].
      destruct (IH _ _ _ _ E) as (a & s' & -> & Ha & Hlo & Hn & Hk).
      exists (x :: a), s'. cbn [length app].
      repeat split; [by constructor | lia | lia | exact Hk].
    + destruct (Nat.eqb_spec lo 0) as [-> | _]; [| discriminate].
      intros Hk. exists [], s. cbn [length app].
      repeat split; [constructor | lia | lia | exact Hk].
Qed.

Lemma path_re_sound s (k : Re.cont) res :
  Re.run path_re s k = Some res →
  ∃ body ext rest,
    s = "/"%char :: body ++ ext ++ rest ∧ body ≠ [] ∧
    Forall (λ c, is_path_char c = true) body ∧ is_ext ext ∧ k rest = Some res.
Proof.
  unfold path_re. cbn [Re.run]. destruct s as [|c s]; [discriminate |].
  destruct (Ascii.eqb_spec c "/") as [-> | _]; [| discriminate].
  intros H. apply rep_set_sound in H as (body & s' & -> & Hbody & Hlo & _ & Hk).
  assert (Hext : ∃ ext rest, s' = ext ++ rest ∧ is_ext ext ∧ k rest = Some res).
  { change (Re.word (lit ".py"))
      with (Re.Seq (Re.Chr ".") (Re.Seq (Re.Chr "p") (Re.Chr "y"))) in Hk.
    change (Re.word (lit ".md"))
      with (Re.Seq (Re.Chr ".") (Re.Seq (Re.Chr "m") (Re.Chr "d"))) in Hk.
    cbn [Re.run] in Hk.
    destruct s' as [|x [|y [|z rest]]];
      repeat match type of Hk with
             | context [Ascii.eqb ?a ?b] => destruct (Ascii.eqb_spec a b); subst
             end; try discriminate.
    - exists (lit ".py"), rest. split; [reflexivity |]. split; [by left | by destruct (k rest)].
    - exists (lit ".md"), rest. split; [reflexivity |]. split; [by right | by destruct (k rest)]. }
  destruct Hext as (ext & rest & -> & Hext & Hrest).
  exists body, ext, rest. split; [reflexivity |].
  split; [intros ->; cbn in Hlo; lia |]. done.
Qed.

Lemma filename_re_sound s (k : Re.cont) res :
  Re.run filename_re s k = Some res →
  ∃ dots body ext rest,
    s = dots ++ "/"%char :: body ++ ext ++ rest ∧ is_dots dots ∧ body ≠ [] ∧
    Forall (λ c, is_path_char c = true) body ∧ is_ext ext ∧ k rest = Some res.
Proof.
  rewrite filename_re_run. intros H.
  apply rep_set_sound in H as (dots & s' & -> & Hdots & _ & Hn & Hk).
  apply path_re_sound in Hk as (body & ext & rest & -> & Hne & Hbody & Hext & Hk).
  exists dots, body, ext, rest. split; [reflexivity |].
  split; [| done].
  assert (Hd : ∀ c, c ∈ dots → c = "."%char).
  { intros c Hc. rewrite Forall_forall in Hdots. apply Hdots in Hc.
    unfold is_dot in Hc. by apply Ascii.eqb_eq in Hc. }
  unfold is_dots. destruct dots as [|a [|b [|c dots]]]; cbn [length] in Hn; [| | | lia].
  - by left.
  - right; left. rewrite (Hd a) by set_solver. reflexivity.
  - right; right. rewrite (Hd a), (Hd b) by set_solver. reflexivity.
Qed.

(** [filename_re] matches at the start of a text exactly when a path
    starts there. *)
Lemma match_len_starts_path s :
  starts_path s ↔ ∃ n, Re.match_len filename_re s = Some n.
Proof.
  split.
  - intros (dots & body & ext & rest & -> & Hd & Hne & Hb & He).
    eexists. by apply match_len_path.
  - intros [n Hn]. unfold Re.match_len in Hn.
    destruct (Re.run filename_re s Some) as [rest|] eqn:E; [| discriminate].
    apply filename_re_sound in E as (dots & body & ext & post & -> & Hd & Hne & Hb & He & _).
    by exists dots, body, ext, post.
Qed.

Lemma sub_from_path dots body ext post :
  is_dots dots → body ≠ [] → Forall (λ c, is_path_char c = true) body → is_ext ext →
  Re.sub_from filename_re (lit "my_code.py") 0 (dots ++ "/"%char :: body ++ ext ++ post)
  = lit "my_code.py" ++ Re.sub_from filename_re (lit "my_code.py") 0 post.
Proof.
  intros Hd Hne Hb He.
  apply (redact_path [] dots body ext post); try done; apply not_elem_of_nil.
Qed.

(** [filename_re.sub] computes the relation [redacted], and nothing
    else satisfies it. *)
Lemma redacted_redact msg out : redacted msg out → out = redact msg.
Proof.
  unfold redact, Re.sub.
  induction 1 as [|c s s' Hno _ IH|dots body ext post post' Hd Hne Hb He _ IH].
  - reflexivity.
  - cbn [Re.sub_from].
    destruct (Re.match_len filename_re (c :: s)) as [n|] eqn:E.
    + destruct Hno. apply match_len_starts_path. by exists n.
    + by rewrite IH.
  - rewrite sub_from_path by done. by rewrite IH.
Qed.

Lemma redact_redacted_le n : ∀ msg, length msg ≤ n → redacted msg (redact msg).
Proof.
  unfold redact, Re.sub.
  induction n as [|n IH]; intros msg Hn.
  - destruct msg; [constructor | simpl in Hn; lia].
  - destruct msg as [|c s]; [constructor |].
    destruct (Re.match_len filename_re (c :: s)) as [k|] eqn:E.
    + unfold Re.match_len in E.
      destruct (Re.run filename_re (c :: s) Some) as [rest|] eqn:Er; [| discriminate].
      apply filename_re_sound in Er
        as (dots & body & ext & post & Hs & Hd & Hne & Hb & He & [= ->]).
      rewrite Hs. rewrite sub_from_path by done.
      apply redacted_path; try done. apply IH.
      apply (f_equal length) in Hs. rewrite !length_app in Hs. cbn [length] in Hs.
      rewrite !length_app in Hs. cbn [length] in Hn. lia.
    + cbn [Re.sub_from]. rewrite E. apply redacted_keep.
      * intros Hp. apply match_len_starts_path in Hp as [k Hk]. congruence.
      * apply IH. simpl in Hn. lia.
Qed.

Lemma redact_redacted msg : redacted msg (redact msg).
Proof. by apply (redact_redacted_le (length msg)). Qed.

(** The whole pass on a block that raises [ValueError('boom')]: no
    exception leaves it. *)
Example rewrite_exception_block :
  Toy.rewrite (lit "```python-exception
raise ValueError('boom')
```
```
```
") = Ok (lit "```python-exception
raise ValueError('boom')
```
```
ValueError: boom
```
").
Proof. vm_compute. reflexivity. Qed.

(** ** The blocks *)

(** ** The generator monad *)

Lemma bind_ret {A B} (a : A) (k : A → gen B) m : bind (ret a) k m = k a m.
Proof. reflexivity. Qed.

Lemma bind_yield {B} t (k : unit → gen B) m :
  bind (yield t) k m = k tt {| host := host m; yielded := yielded m ++ [t] |}.
Proof. reflexivity. Qed.

Lemma bind_call {A B} (f : world → world * result A) (k : A → gen B) m :
  bind (call f) k m =
  match f (host m) with
  | (w, Ok a) => k a {| host := w; yielded := yielded m |}
  | (w, Raise e) => ({| host := w; yielded := yielded m |}, Raise e)
  end.
Proof. unfold bind, call. by destruct (f (host m)) as [w [a | e]]. Qed.

Lemma machine_eta m : {| host := host m; yielded := yielded m |} = m.
Proof. by destruct m. Qed.

Section Blocks.
Variable run : runtime.
Variable python2_7 : str → child.
Variable python3 : str → option str.
Variable root_dir : str.

Lemma exec_exception_result path source w :
  exec_exception run path source w =
  ((exec_source run path source true w).1,
   match (exec_source run path source true w).2 with
   | Raise (WrappedException output kind msg) => Ok (exception_text output kind msg)
   | Raise e => Raise e
   | Ok _ => Raise (AssertionError (lit "Exception not raised"))
   end).
Proof.
  unfold exec_exception, exception_text.
  destruct (exec_source run path source true w) as [w' [out | e]]; [reflexivity |].
  destruct e; try reflexivity. by destruct output.
Qed.

Lemma accumulate_empty text source st :
  pending_source st = [] →
  pending_source (accumulate text source st) = padded text st source.
Proof.
  intros Hp. unfold accumulate, padded. simpl. rewrite Hp. simpl.
  rewrite Z.sub_0_r, Nat2Z.id. reflexivity.
Qed.

Lemma flush_run path st m :
  flush run path st m =
  match exec_source run path (pending_source st) false (host m) with
  | (w, Ok out) =>
      ({| host := w; yielded := yielded m |},
       Ok (set_pending_source [] (set_pending_output (pending_output st ++ out) st)))
  | (w, Raise e) => ({| host := w; yielded := yielded m |}, Raise e)
  end.
Proof. unfold flush. rewrite bind_call. by destruct (exec_source _ _ _ _ _) as [w [o | e]]. Qed.

Lemma tag_python_exception :
  is_python (lit "python-exception") = false ∧
  is_python_exception (lit "python-exception") = true.
Proof. split; vm_compute; reflexivity. Qed.

Lemma python_exception_block path text source st m :
  block_suffix st = lit "python-exception" →
  python_block run path text source st m =
  match flushed run path st (host m) with
  | (w1, Raise e) => ({| host := w1; yielded := yielded m |}, Raise e)
  | (w1, Ok out1) =>
      let ys := yielded m ++ [fence ++ lit "python-exception"; source; fence] in
      match exec_exception run path (padded text st source) w1 with
      | (w2, Ok out) =>
          ({| host := w2; yielded := ys |},
           Ok (set_pending_source []
                 (set_pending_output (pending_output st ++ out1 ++ out) st)))
      | (w2, Raise e) => ({| host := w2; yielded := ys |}, Raise e)
      end
  end.
Proof.
  destruct tag_python_exception as [_ Hex].
  destruct st as [ts ss bs ps po]. cbn [block_suffix]. intros ->.
  unfold python_block, flushed. cbn [block_suffix pending_source]. rewrite Hex.
  destruct ps as [|ch ps].
  - rewrite bind_ret, !bind_yield, bind_call. cbn [host yielded].
    rewrite accumulate_empty by reflexivity.
    destruct (exec_exception _ _ _ _) as [w2 [out | e]];
      unfold ret, accumulate; simpl; rewrite <- ?app_assoc; reflexivity.
  - unfold bind at 1. rewrite flush_run. cbn [pending_source pending_output].
    destruct (exec_source _ _ _ _ _) as [w1 [out1 | e]]; [| reflexivity].
    rewrite !bind_yield, bind_call. cbn [host yielded].
    rewrite accumulate_empty by reflexivity.
    unfold padded. cbn [source_start set_pending_source set_pending_output].
    destruct (exec_exception _ _ _ _) as [w2 [out | e]];
      unfold ret, accumulate; simpl; rewrite <- ?app_assoc; reflexivity.
Qed.

(** C3 (amended): at the closing fence of a [python-exception] block
    the pending source, if there is any, is run first, in the mode in
    which an exception ends the pass; if that run raises, the block
    yields nothing and the exception leaves the generator.  Otherwise
    the block is yielded as it was and its body, after as many line
    breaks as precede it in the document, is run at once with
    [raise_exceptions=True].  When that run raises an exception, the
    text [exec_exception] makes of it is appended to the pending
    output and the pending source is empty; when it raises nothing,
    the pass ends with [AssertionError('Exception not raised')]. *)
Theorem C3_python_exception_block path text start st m w1 :
  block_suffix st = lit "python-exception" →
  let source := Py.slice_from (source_start st) start text in
  let unit := padded text st source in
  let c := closing run python2_7 python3 root_dir path text start st m in
  (∀ e, flushed run path st (host m) = (w1, Raise e) →
        c = ({| host := w1; yielded := yielded m |}, Raise e)) ∧
  (∀ out1, flushed run path st (host m) = (w1, Ok out1) →
     let e := run path unit (handed w1) in
     yielded c.1 = yielded m ++ [fence ++ lit "python-exception"; source; fence] ∧
     executed (host c.1)
     = executed (host m)
       ++ match pending_source st with
          | [] => []
          | _ :: _ => [(false, pending_source st)]
          end
       ++ [(true, unit)] ∧
     c.2 = match ended e with
           | Raised kind msg _ =>
               Ok (closed start
                     (pending_output st ++ out1 ++ exception_text (captured e) kind msg) st)
           | Completed => Raise (AssertionError (lit "Exception not raised"))
           | Escaped kind => Raise (BaseException kind)
           end).
Proof.
  intros Htag source unit c.
  destruct tag_python_exception as [Hpy Hex].
  assert (Hc : c = python_block run path text source (set_text_start (start + 3) st) m).
  { subst c. unfold closing. cbn [block_suffix set_text_start]. by rewrite Htag, Hpy, Hex. }
  rewrite Hc. clear Hc c.
  rewrite python_exception_block by exact Htag.
  change (flushed run path (set_text_start (start + 3) st) (host m))
    with (flushed run path st (host m)).
  change (padded text (set_text_start (start + 3) st) source) with unit.
  split.
  - intros e He. by rewrite He.
  - intros out1 Hf e. rewrite Hf. cbn zeta.
    rewrite exec_exception_result.
    pose proof (exec_source_result run path unit true w1) as Hr. cbn zeta in Hr. fold e in Hr.
    pose proof (exec_source_executed run path unit true w1) as Hlog.
    destruct (exec_source run path unit true w1) as [w2 r]. cbn [fst snd] in *. subst r.
    assert (Hex1 : executed w1 = executed (host m)
              ++ match pending_source st with [] => [] | _ :: _ => [(false, pending_source st)] end).
    { unfold flushed in Hf. destruct (pending_source st) as [|ch ps].
      - injection Hf as <- _. by rewrite app_nil_r.
      - rewrite <- (exec_source_executed run path (ch :: ps) false (host m)).
        by rewrite Hf. }
    destruct (ended e) as [|kind msg fl|kind]; cbn [fst snd host yielded];
      (split; [reflexivity |]); (split; [rewrite Hlog, Hex1; by rewrite <- app_assoc |]);
      reflexivity.
Qed.

End Blocks.

(** ** Output blocks and documents made of them *)

Lemma startswith_app p x y :
  length p ≤ length x → Py.startswith p (x ++ y) = Py.startswith p x.
Proof.
  revert x. induction p as [|a p IH]; intros x Hl; [by destruct x |].
  destruct x as [|b x]; simpl in *; [lia |]. rewrite IH by lia. reflexivity.
Qed.

Lemma startswith_mono p x y :
  Py.startswith p x = true → Py.startswith p (x ++ y) = true.
Proof.
  revert x. induction p as [|a p IH]; intros x; [by destruct x |].
  destruct x as [|b x]; simpl; [done |].
  intros H. apply andb_true_iff in H as [-> H]. simpl. by apply IH.
Qed.

Lemma fence_free_cons c a :
  fence_free (c :: a) = true →
  (∀ b, Py.startswith fence (c :: a ++ fence ++ b) = false) ∧ fence_free a = true.
Proof.
  unfold fence_free. intros H. apply negb_true_iff in H.
  cbn [app Py.contains] in H. apply orb_false_iff in H as [Hs Hc].
  split; [| by rewrite Hc].
  intros b.
  change (c :: a ++ fence ++ b) with ((c :: a) ++ fence ++ b).
  replace ((c :: a) ++ fence ++ b) with (((c :: a) ++ lit "``") ++ "`"%char :: b)
    by (rewrite <- app_assoc; reflexivity).
  rewrite startswith_app; [exact Hs |].
  rewrite length_app. simpl. lia.
Qed.

Lemma fence_free_start c a :
  fence_free (c :: a) = true → Py.startswith fence (c :: a) = false.
Proof.
  unfold fence_free. intros H. apply negb_true_iff in H.
  cbn [app Py.contains] in H. apply orb_false_iff in H as [Hs _].
  destruct (Py.startswith fence (c :: a)) eqn:E; [| done].
  apply (startswith_mono _ _ (lit "``")) in E. simpl in *. congruence.
Qed.

Lemma finditer_from_fence a b pos :
  fence_free a = true →
  Py.finditer_from fence pos 0 (a ++ fence ++ b)
  = (pos + length a) :: Py.finditer_from fence (pos + length a + 3) 0 b.
Proof.
  revert pos. induction a as [|c a IH]; intros pos Hf.
  - simpl. rewrite Nat.add_0_r. repeat f_equal; lia.
  - destruct (fence_free_cons c a Hf) as [Hs Hf'].
    cbn [app Py.finditer_from]. rewrite Hs. rewrite IH by exact Hf'.
    simpl. repeat f_equal; lia.
Qed.

Lemma finditer_from_free a pos :
  fence_free a = true → Py.finditer_from fence pos 0 a = [].
Proof.
  revert pos. induction a as [|c a IH]; intros pos Hf; [reflexivity |].
  cbn [Py.finditer_from]. rewrite (fence_free_start c a Hf).
  apply IH. by destruct (fence_free_cons c a Hf).
Qed.

Lemma index_app_nl t rest :
  forallb (λ c, negb (Ascii.eqb c Py.nl)) t = true →
  Py.index Py.nl (t ++ Py.nl :: rest) = Some (length t).
Proof.
  induction t as [|c t IH]; simpl; [reflexivity |].
  intros H. apply andb_true_iff in H as [Hc Ht]. apply negb_true_iff in Hc.
  rewrite Hc, IH by exact Ht. reflexivity.
Qed.

Lemma find_nl x t rest :
  forallb (λ c, negb (Ascii.eqb c Py.nl)) t = true →
  Py.find Py.nl (length x) (x ++ t ++ Py.nl :: rest) = Z.of_nat (length x + length t).
Proof.
  intros H. unfold Py.find. rewrite drop_app_length, index_app_nl by exact H. reflexivity.
Qed.

Lemma slice_mid x y z :
  Py.slice (length x) (length x + length y) (x ++ y ++ z) = y.
Proof.
  unfold Py.slice. rewrite drop_app_length.
  replace (length x + length y - length x) with (length y) by lia.
  apply take_app_length.
Qed.

Section OutputBlock.
Variable run : runtime.
Variable python2_7 : str → child.
Variable python3 : str → option str.
Variable root_dir : str.

Lemma output_block_run path source st m :
  output_block run path source st m =
  let shown content :=
    yielded m ++ [fence ++ block_suffix st ++ [Py.nl]; Py.strip_nl content; Py.nl :: fence] in
  let st' := set_pending_output [] (set_pending_source [] st) in
  match pending_source st with
  | _ :: _ =>
      match exec_source run path (pending_source st) false (host m) with
      | (w, Ok out) =>
          ({| host := w; yielded := shown (pending_output st ++ out) |}, Ok st')
      | (w, Raise e) => ({| host := w; yielded := yielded m |}, Raise e)
      end
  | [] =>
      match pending_output st with
      | [] => ({| host := host m; yielded := shown source |}, Ok st')
      | _ :: _ => ({| host := host m; yielded := shown (pending_output st) |}, Ok st')
      end
  end.
Proof.
  destruct st as [ts ss bs ps po]. unfold output_block.
  cbn [pending_source pending_output block_suffix].
  destruct ps as [|ch ps].
  - destruct po as [|co po]; rewrite bind_ret, !bind_yield; unfold ret;
      cbn; rewrite <- ?app_assoc; reflexivity.
  - unfold bind at 1. rewrite flush_run. cbn [pending_source pending_output].
    destruct (exec_source _ _ _ _ _) as [w [out | e]]; [| reflexivity].
    rewrite !bind_yield. unfold ret. cbn. rewrite <- ?app_assoc. reflexivity.
Qed.

Lemma closing_output path text start st m :
  is_output_tag (block_suffix st) = true →
  closing run python2_7 python3 root_dir path text start st m =
  output_block run path (Py.slice_from (source_start st) start text)
    (set_text_start (start + 3) st) m.
Proof.
  unfold is_output_tag, closing. cbn [block_suffix set_text_start source_start].
  intros H. apply negb_true_iff in H.
  destruct (is_python _), (is_python_exception _), (is_python2 _),
    (is_python_syntax_error _), (is_python_include _); try discriminate H.
  reflexivity.
Qed.
End OutputBlock.

Lemma opening_run text start st m :
  opening text start st m =
  let suffix_end := Py.find Py.nl (start + 3) text in
  let st' :=
    if (0 <? suffix_end)%Z then
      let suffix := Py.lower (Py.slice (start + 3) (Z.to_nat suffix_end) text) in
      set_suffix suffix (Some (start + 3 + length suffix)) st
    else st in
  ({| host := host m; yielded := yielded m ++ [Py.slice (text_start st') start text] |},
   Ok st').
Proof. reflexivity. Qed.

Lemma blocks_cons run p2 p3 root path text k start rest st m :
  blocks run p2 p3 root path text k (start :: rest) st m =
  match (if k mod 2 =? 0 then opening text start st
         else closing run p2 p3 root path text start st) m with
  | (m', Ok st') => blocks run p2 p3 root path text (S k) rest st' m'
  | (m', Raise e) => (m', Raise e)
  end.
Proof. reflexivity. Qed.

Lemma parity k :
  k mod 2 = 0 → (k mod 2 =? 0) = true ∧ (S k mod 2 =? 0) = false ∧ S (S k) mod 2 = 0.
Proof.
  intros H. split; [by rewrite H |].
  assert (H1 : S k mod 2 = 1).
  { replace (S k) with (1 + k) by lia. rewrite <- Nat.Div0.add_mod_idemp_r, H. reflexivity. }
  split; [by rewrite H1 |].
  replace (S (S k)) with (1 + S k) by lia. rewrite <- Nat.Div0.add_mod_idemp_r, H1. reflexivity.
Qed.

Section Plain.
Variable run : runtime.
Variable python2_7 : str → child.
Variable python3 : str → option str.
Variable root_dir : str.

Lemma blocks_plain path text bs : ∀ pre prose st m k,
  text = pre ++ prose ++ flat_map written bs →
  k mod 2 = 0 →
  fence_free prose = true → forallb plain_block bs = true →
  text_start st = length pre → pending_source st = [] → pending_output st = [] →
  ∃ ys st',
    blocks run python2_7 python3 root_dir path text k
      (Py.finditer_from fence (length pre) 0 (prose ++ flat_map written bs)) st m
    = ({| host := host m; yielded := yielded m ++ ys |}, Ok st') ∧
    pending_source st' = [] ∧
    concat ys ++ drop (text_start st') text = prose ++ flat_map rewritten bs.
Proof.
  induction bs as [|b bs IH]; intros pre prose st m k Htext Hk Hprose Hbs Hts Hps Hpo.
  - exists [], st. cbn [flat_map] in *. rewrite app_nil_r in *.
    rewrite finditer_from_free by exact Hprose. cbn [blocks]. unfold ret.
    rewrite app_nil_r, machine_eta. split; [reflexivity |]. split; [exact Hps |].
    rewrite Hts, Htext, drop_app_length. reflexivity.
  - cbn [forallb] in Hbs. apply andb_true_iff in Hbs as [Hb Hbs].
    unfold plain_block in Hb.
    apply andb_true_iff in Hb as [Hb Htag]. apply andb_true_iff in Hb as [Hb Hafter].
    apply andb_true_iff in Hb as [Hnl Hinner].
    destruct (parity k Hk) as (Hk0 & Hk1 & Hk2).
    set (rest := flat_map written bs) in *.
    set (s1 := length pre + length prose).
    set (inner := tag b ++ Py.nl :: body b).
    set (s2 := s1 + 3 + length inner).
    assert (Hdoc : prose ++ flat_map written (b :: bs)
                   = prose ++ fence ++ inner ++ fence ++ after b ++ rest).
    { cbn [flat_map]. unfold written, inner. fold rest.
      rewrite <- ?app_assoc. simpl. rewrite <- ?app_assoc. reflexivity. }
    rewrite Hdoc in *.
    rewrite finditer_from_fence by exact Hprose.
    rewrite finditer_from_fence by exact Hinner.
    fold s1. fold s2.
    (* the opening fence *)
    rewrite blocks_cons, Hk0, opening_run.
    assert (Hfind : Py.find Py.nl (s1 + 3) text = Z.of_nat (s1 + 3 + length (tag b))).
    { rewrite Htext. unfold inner.
      replace (pre ++ prose ++ fence ++ (tag b ++ Py.nl :: body b) ++ fence ++ after b ++ rest)
        with ((pre ++ prose ++ fence) ++ tag b ++ Py.nl :: (body b ++ fence ++ after b ++ rest))
        by (rewrite <- ?app_assoc; simpl; rewrite <- ?app_assoc; reflexivity).
      replace (s1 + 3) with (length (pre ++ prose ++ fence))
        by (rewrite !length_app; simpl; unfold s1; lia).
      apply find_nl. exact Hnl. }
    cbn zeta. rewrite Hfind.
    assert (Hpos : (0 <? Z.of_nat (s1 + 3 + length (tag b)))%Z = true)
      by (apply Z.ltb_lt; lia).
    rewrite Hpos, Nat2Z.id.
    assert (Htag_slice : Py.slice (s1 + 3) (s1 + 3 + length (tag b)) text = tag b).
    { rewrite Htext. unfold inner.
      replace (pre ++ prose ++ fence ++ (tag b ++ Py.nl :: body b) ++ fence ++ after b ++ rest)
        with ((pre ++ prose ++ fence) ++ tag b ++ Py.nl :: (body b ++ fence ++ after b ++ rest))
        by (rewrite <- ?app_assoc; simpl; rewrite <- ?app_assoc; reflexivity).
      replace (s1 + 3) with (length (pre ++ prose ++ fence))
        by (rewrite !length_app; simpl; unfold s1; lia).
      apply slice_mid. }
    rewrite Htag_slice.
    assert (Hll : length (Py.lower (tag b)) = length (tag b))
      by (unfold Py.lower; apply length_map).
    rewrite Hll. cbn [text_start set_suffix].
    assert (Hprose_slice : Py.slice (text_start st) s1 text = prose).
    { rewrite Hts, Htext. unfold s1. apply slice_mid. }
    rewrite Hprose_slice.
    (* the closing fence *)
    rewrite blocks_cons, Hk1.
    rewrite (closing_output run python2_7 python3 root_dir) by exact Htag.
    rewrite output_block_run.
    cbn [pending_source pending_output set_text_start set_suffix block_suffix
         source_start host yielded].
    rewrite Hps, Hpo. cbn zeta iota.
    assert (Hsrc : Py.slice_from (Some (s1 + 3 + length (tag b))) s2 text
                   = Py.nl :: body b).
    { cbn [Py.slice_from]. rewrite Htext. unfold s2. unfold inner.
      replace (pre ++ prose ++ fence ++ (tag b ++ Py.nl :: body b) ++ fence ++ after b ++ rest)
        with ((pre ++ prose ++ fence ++ tag b) ++ (Py.nl :: body b) ++ (fence ++ after b ++ rest))
        by (rewrite <- ?app_assoc; simpl; rewrite <- ?app_assoc; reflexivity).
      replace (s1 + 3 + length (tag b)) with (length (pre ++ prose ++ fence ++ tag b))
        by (rewrite !length_app; simpl; unfold s1; lia).
      replace (s1 + 3 + length (tag b ++ Py.nl :: body b))
        with (length (pre ++ prose ++ fence ++ tag b) + length (Py.nl :: body b))
        by (rewrite !length_app; simpl; unfold s1; lia).
      apply slice_mid. }
    rewrite Hsrc.
    (* the rest of the document *)
    set (st2 := set_pending_output [] (set_pending_source [] _)).
    set (m2 := {| host := host m; yielded := _ |}).
    destruct (IH (pre ++ prose ++ fence ++ inner ++ fence) (after b) st2 m2 (S (S k)))
      as (ys & st' & Hrun & Hps' & Hout).
    + rewrite Htext. rewrite <- ?app_assoc. reflexivity.
    + exact Hk2.
    + exact Hafter.
    + exact Hbs.
    + subst st2. cbn [text_start set_pending_output set_pending_source set_text_start].
      rewrite !length_app. simpl. unfold s2, s1. lia.
    + reflexivity.
    + reflexivity.
    + replace (length (pre ++ prose ++ fence ++ inner ++ fence)) with (s2 + 3) in Hrun
        by (rewrite !length_app; simpl; unfold s2, s1; lia).
      fold rest in Hrun. rewrite Hrun. subst m2. cbn [host yielded].
      eexists (_ :: _ :: _ :: _ :: ys), st'.
      split; [rewrite <- ?app_assoc; reflexivity |].
      split; [exact Hps' |].
      cbn [concat]. rewrite <- ?app_assoc. rewrite Hout.
      cbn [flat_map]. unfold rewritten. fold rest.
      simpl. rewrite <- ?app_assoc. simpl. rewrite <- ?app_assoc. reflexivity.
Qed.
End Plain.

Lemma iterate_document run python2_7 python3 root_dir path prose bs w :
  fence_free prose = true → forallb plain_block bs = true →
  let c := consume (iterate_blocks run python2_7 python3 root_dir path
                      (document prose bs)) w in
  c.2 = Ok tt ∧ host c.1 = w ∧
  concat (yielded c.1) = prose ++ flat_map rewritten bs.
Proof.
  intros Hprose Hbs c.
  destruct (blocks_plain run python2_7 python3 root_dir path (document prose bs) bs
              [] prose scan0 {| host := w; yielded := [] |} 0)
    as (ys & st' & Hrun & Hps & Hout); try done.
  cbn [length app host yielded] in Hrun.
  change (prose ++ flat_map written bs) with (document prose bs) in Hrun.
  assert (Hc : c = ({| host := w;
                       yielded := ys ++ [drop (text_start st') (document prose bs)] |},
                    Ok tt)).
  { subst c. unfold consume, iterate_blocks, Py.finditer.
    unfold bind at 1. rewrite Hrun.
    unfold finish. rewrite bind_yield, Hps. reflexivity. }
  rewrite Hc. cbn [fst snd host yielded].
  split; [reflexivity |]. split; [reflexivity |].
  rewrite concat_app. cbn [concat]. rewrite app_nil_r. exact Hout.
Qed.

Lemma rewritten_emitted_form bs :
  Forall emitted_form bs → flat_map rewritten bs = flat_map written bs.
Proof.
  induction 1 as [|b bs [Htag Hbody] _ IH]; [reflexivity |].
  cbn [flat_map]. rewrite IH. f_equal. unfold rewritten, written.
  rewrite Htag. rewrite <- Hbody at 2. rewrite <- ?app_assoc. reflexivity.
Qed.

(** C1, as the specification states it, fails: the empty output block is
    not kept verbatim, a line break is added to it. *)
Lemma C1_empty_block_not_verbatim :
  Toy.rewrite (lit "```
```") = Ok (lit "```

```") ∧
  Toy.rewrite (lit "```
```") ≠ Ok (lit "```
```").
Proof. split; [vm_compute; reflexivity | vm_compute; discriminate]. Qed.

(** C1 (amended): a closing fence whose tag is none of [python],
    [python-exception], [python2], [python-syntax-error] and
    [python-include:...] is an output block.  With pending source, the
    source is run and emptied, and the pending output followed by what
    the run printed is the content; a run that raises ends the pass
    before the block is yielded.  With no pending source and no pending
    output, the content is the text the block had.  Otherwise the
    content is the pending output.  The block is yielded as its tag
    line, the content without the line breaks around it, and the closing
    fence on a new line, and the pending output is emptied.  For a
    document made of prose and output blocks only, the pass runs nothing
    and the rewritten text is the prose with every block in that emitted
    form, the tag in lower case; it is the input itself when every
    block already has that form. *)
Theorem C1_output_block (run : runtime) (python2_7 : str → child)
    (python3 : str → option str) (root_dir path : str) :
  (∀ text start st m,
     is_output_tag (block_suffix st) = true →
     let source := Py.slice_from (source_start st) start text in
     let shown content :=
       yielded m ++ [fence ++ block_suffix st ++ [Py.nl]; Py.strip_nl content;
                     Py.nl :: fence] in
     closing run python2_7 python3 root_dir path text start st m =
     match pending_source st with
     | _ :: _ =>
         match exec_source run path (pending_source st) false (host m) with
         | (w, Ok out) =>
             ({| host := w; yielded := shown (pending_output st ++ out) |},
              Ok (closed start [] st))
         | (w, Raise e) => ({| host := w; yielded := yielded m |}, Raise e)
         end
     | [] =>
         match pending_output st with
         | [] => ({| host := host m; yielded := shown source |}, Ok (closed start [] st))
         | _ :: _ =>
             ({| host := host m; yielded := shown (pending_output st) |},
              Ok (closed start [] st))
         end
     end) ∧
  (∀ prose bs w,
     fence_free prose = true → forallb plain_block bs = true →
     let c := consume (iterate_blocks run python2_7 python3 root_dir path
                         (document prose bs)) w in
     c.2 = Ok tt ∧ host c.1 = w ∧
     concat (yielded c.1) = prose ++ flat_map rewritten bs ∧
     (Forall emitted_form bs → concat (yielded c.1) = document prose bs)).
Proof.
  split.
  - intros text start st m Htag source shown.
    rewrite closing_output by exact Htag. rewrite output_block_run.
    cbn [pending_source pending_output set_text_start block_suffix source_start].
    reflexivity.
  - intros prose bs w Hprose Hbs c.
    destruct (iterate_document run python2_7 python3 root_dir path prose bs w Hprose Hbs)
      as (Hok & Hw & Hout).
    fold c in Hok, Hw, Hout. repeat split; try assumption.
    intros Hform. rewrite Hout. unfold document.
    by rewrite rewritten_emitted_form.
Qed.

(** The amended C1 on an output block that follows printed output, and
    on a draft whose output block is kept as it is. *)
Lemma C1_output_block_witness :
  let text := lit "```
old
```" in
  let st := {| text_start := 0; source_start := Some 3; block_suffix := [];
               pending_source := lit "print('4')"; pending_output := [] |} in
  let prose := lit "Draft:
" in
  let bs := [{| tag := lit "text"; body := lit "to be written
"; after := lit "
Done.
" |}] in
  yielded (closing Toy.run Toy.python2_7 Toy.python3 Toy.root_dir (lit "doc.md")
             text 8 st {| host := initial_world ∅; yielded := [] |}).1
  = [lit "```
"; lit "4"; lit "
```"] ∧
  concat (yielded (consume (iterate_blocks Toy.run Toy.python2_7 Toy.python3
                              Toy.root_dir (lit "doc.md") (document prose bs))
                     (initial_world ∅)).1)
  = document prose bs.
Proof.
  intros text st prose bs.
  destruct (C1_output_block Toy.run Toy.python2_7 Toy.python3 Toy.root_dir (lit "doc.md"))
    as [Hblock Hdoc].
  split.
  - rewrite (Hblock text 8 st); [vm_compute; reflexivity | vm_compute; reflexivity].
  - destruct (Hdoc prose bs (initial_world ∅)) as (_ & _ & _ & Hsame);
      [vm_compute; reflexivity | vm_compute; reflexivity |].
    apply Hsame. repeat constructor; vm_compute; reflexivity.
Defined.

(** C3, as the specification states it, fails: a [python-exception]
    block whose code raises nothing does not hand its output to the next
    output block, the pass ends with an [AssertionError]. *)
Lemma C3_no_exception_is_an_error :
  Toy.rewrite (lit "```python-exception
print('fine')
```
```
```
") = Raise (AssertionError (lit "Exception not raised")).
Proof. vm_compute. reflexivity. Qed.

(** The amended C3 on a block that follows pending source. *)
Lemma C3_python_exception_block_witness :
  let text := lit "```python-exception
raise ValueError('bad')
```" in
  let st := {| text_start := 0; source_start := Some 19;
               block_suffix := lit "python-exception";
               pending_source := lit "print('a')"; pending_output := [] |} in
  let m := {| host := initial_world ∅; yielded := [] |} in
  let c := closing Toy.run Toy.python2_7 Toy.python3 Toy.root_dir (lit "doc.md")
             text 44 st m in
  executed (host c.1)
  = [(false, lit "print('a')"); (true, lit "
raise ValueError('bad')
")] ∧
  c.2 = Ok (closed 44 (lit "a
ValueError: bad") st).
Proof.
  intros text st m c.
  destruct (C3_python_exception_block Toy.run Toy.python2_7 Toy.python3 Toy.root_dir
              (lit "doc.md") text 44 st m
              (exec_source Toy.run (lit "doc.md") (lit "print('a')") false
                 (initial_world ∅)).1 eq_refl) as [_ Hrun].
  destruct (Hrun (lit "a" ++ [Py.nl])) as (_ & Hlog & Hres); [vm_compute; reflexivity |].
  subst c. split.
  - rewrite Hlog. vm_compute. reflexivity.
  - rewrite Hres. vm_compute. reflexivity.
Defined.

(** ** The blocks that produce output, and the end of the document *)

Section Generators.
Variable run : runtime.
Variable python2_7 : str → child.
Variable python3 : str → option str.
Variable root_dir : str.

Lemma python2_block_run source st m :
  python2_block python2_7 source st m =
  let ys := yielded m ++ [fence ++ lit "python2"]
            ++ (if negb (Py.startswith (Py.nl :: lit "# Python 2") source)
                then [Py.nl :: lit "# Python 2"] else [])
            ++ [source; fence] in
  ({| host := host m; yielded := ys |},
   match python2_7 source with
   | Exited0 out => Ok (set_pending_output (pending_output st ++ out) st)
   | ExitedNonzero => Raise CalledProcessError
   | Missing => Raise (FileNotFoundError (lit "python2.7"))
   end).
Proof.
  unfold python2_block. rewrite bind_yield.
  destruct (negb _); rewrite ?bind_yield, ?bind_ret, ?bind_yield, bind_call;
    unfold exec_python2; cbn [host yielded];
    destruct (python2_7 source); unfold ret; cbn; rewrite <- ?app_assoc; reflexivity.
Qed.

Lemma syntax_error_block_run source st m :
  syntax_error_block python3 source st m =
  ({| host := host m;
      yielded := yielded m ++ [fence ++ lit "python-syntax-error"; source; fence] |},
   match python3 source with
   | Some out =>
       Ok (set_pending_output
             (pending_output st ++ Py.last_line [] (Py.strip_nl out)) st)
   | None => Raise (FileNotFoundError (lit "python3"))
   end).
Proof.
  unfold syntax_error_block. rewrite !bind_yield, bind_call.
  unfold exec_syntax_error. cbn [host yielded].
  destruct (python3 source); unfold ret; cbn; rewrite <- ?app_assoc; reflexivity.
Qed.

Lemma python_block_run path text source st m :
  block_suffix st = lit "python" →
  python_block run path text source st m =
  ({| host := host m; yielded := yielded m ++ [fence ++ lit "python"; source; fence] |},
   Ok (accumulate text source st)).
Proof.
  intros Htag. unfold python_block. rewrite Htag.
  change (is_python_exception (lit "python")) with false. cbv iota.
  rewrite bind_ret, !bind_yield. unfold ret. cbn. rewrite <- ?app_assoc. reflexivity.
Qed.

Lemma closing_python path text start st m :
  is_python (block_suffix st) || is_python_exception (block_suffix st) = true →
  closing run python2_7 python3 root_dir path text start st m =
  python_block run path text (Py.slice_from (source_start st) start text)
    (set_text_start (start + 3) st) m.
Proof.
  unfold closing. cbn [block_suffix set_text_start source_start]. by intros ->.
Qed.

Lemma closing_python2 path text start st m :
  block_suffix st = lit "python2" →
  closing run python2_7 python3 root_dir path text start st m =
  python2_block python2_7 (Py.slice_from (source_start st) start text)
    (set_text_start (start + 3) st) m.
Proof.
  unfold closing. cbn [block_suffix set_text_start source_start]. by intros ->.
Qed.

Lemma closing_syntax_error path text start st m :
  block_suffix st = lit "python-syntax-error" →
  closing run python2_7 python3 root_dir path text start st m =
  syntax_error_block python3 (Py.slice_from (source_start st) start text)
    (set_text_start (start + 3) st) m.
Proof.
  unfold closing. cbn [block_suffix set_text_start source_start]. by intros ->.
Qed.

(** What the blocks between two output blocks produce is appended to
    the pending output, nothing replaces it: a [python] block leaves the
    pending output as it is, a [python2] block appends the output of
    the child, a [python-syntax-error] block the last line of what the
    child wrote, a [python-exception] block the output of the pending
    source it ran first and then the text of the exception.  An output
    block reached with source pending, or with a pending output that is
    not empty, appends the output of the pending source and is yielded
    with that concatenation, without the line breaks around it, as its
    content.  An output block reached with no source pending and an
    empty pending output is yielded with the text it had. *)
Lemma results_accumulate path text start st m :
  let source := Py.slice_from (source_start st) start text in
  let c := closing run python2_7 python3 root_dir path text start st m in
  let st0 := set_text_start (start + 3) st in
  (block_suffix st = lit "python" → c.2 = Ok (accumulate text source st0)) ∧
  (block_suffix st = lit "python2" → ∀ out, python2_7 source = Exited0 out →
     c.2 = Ok (set_pending_output (pending_output st ++ out) st0)) ∧
  (block_suffix st = lit "python-syntax-error" → ∀ out, python3 source = Some out →
     c.2 = Ok (set_pending_output
                 (pending_output st ++ Py.last_line [] (Py.strip_nl out)) st0)) ∧
  (block_suffix st = lit "python-exception" →
     ∀ w1 out1 kind msg format_list,
       flushed run path st (host m) = (w1, Ok out1) →
       let e := run path (padded text st source) (handed w1) in
       ended e = Raised kind msg format_list →
       c.2 = Ok (closed start
                   (pending_output st ++ out1 ++ exception_text (captured e) kind msg)
                   st)) ∧
  (is_output_tag (block_suffix st) = true →
     ∀ w1 out1, flushed run path st (host m) = (w1, Ok out1) →
       pending_source st ≠ [] ∨ pending_output st ≠ [] →
       c = ({| host := w1;
               yielded := yielded m ++ [fence ++ block_suffix st ++ [Py.nl];
                                        Py.strip_nl (pending_output st ++ out1);
                                        Py.nl :: fence] |},
            Ok (closed start [] st))) ∧
  (is_output_tag (block_suffix st) = true →
     pending_source st = [] → pending_output st = [] →
     c = ({| host := host m;
             yielded := yielded m ++ [fence ++ block_suffix st ++ [Py.nl];
                                      Py.strip_nl source; Py.nl :: fence] |},
          Ok (closed start [] st))).
Proof.
  intros source c st0. subst c. repeat split.
  - intros Htag. rewrite closing_python by (rewrite Htag; reflexivity).
    by rewrite python_block_run.
  - intros Htag out Hout. rewrite closing_python2 by exact Htag.
    rewrite python2_block_run. cbn [snd]. fold source. by rewrite Hout.
  - intros Htag out Hout. rewrite closing_syntax_error by exact Htag.
    rewrite syntax_error_block_run. cbn [snd]. fold source. by rewrite Hout.
  - intros Htag w1 out1 kind msg fl Hf e He.
    rewrite closing_python by (rewrite Htag; reflexivity).
    rewrite python_exception_block by exact Htag.
    change (flushed run path (set_text_start (start + 3) st) (host m))
      with (flushed run path st (host m)).
    rewrite Hf. cbn zeta. fold source.
    change (padded text (set_text_start (start + 3) st) source)
      with (padded text st source).
    rewrite exec_exception_result.
    rewrite exec_source_result. cbn zeta. fold e. rewrite He. reflexivity.
  - intros Htag w1 out1 Hf Hne.
    rewrite closing_output by exact Htag. rewrite output_block_run.
    cbn [pending_source pending_output set_text_start block_suffix source_start].
    unfold flushed in Hf.
    destruct (pending_source st) as [|ch ps].
    + injection Hf as <- <-. rewrite app_nil_r.
      destruct Hne as [Hne | Hne]; [done |].
      destruct (pending_output st); [done | reflexivity].
    + rewrite Hf. reflexivity.
  - intros Htag Hps Hpo.
    rewrite closing_output by exact Htag. rewrite output_block_run.
    cbn [pending_source pending_output set_text_start block_suffix source_start].
    rewrite Hps, Hpo. reflexivity.
Qed.

(** C9: when the loop over the fences ends with pending source, the
    generator yields the text after the last block and then runs that
    source, once; what the run printed goes nowhere, neither into the
    fragments nor to the standard output or a file.  The generator
    ends normally when the run does, and with the exception of the
    run otherwise. *)
Theorem C9_trailing_source_is_run path text w m1 st :
  blocks run python2_7 python3 root_dir path text 0 (Py.finditer fence text) scan0
    {| host := w; yielded := [] |} = (m1, Ok st) →
  pending_source st ≠ [] →
  let e := run path (pending_source st) (handed (host m1)) in
  let c := consume (iterate_blocks run python2_7 python3 root_dir path text) w in
  yielded c.1 = yielded m1 ++ [drop (text_start st) text] ∧
  executed (host c.1) = executed (host m1) ++ [(false, pending_source st)] ∧
  stdout (host c.1) = stdout (host m1) ∧
  files (host c.1) = files (host m1) ∧
  c.2 = match ended e with
        | Completed => Ok tt
        | Raised kind msg _ => Raise (MarkdownExecError kind msg)
        | Escaped kind => Raise (BaseException kind)
        end.
Proof.
  intros Hblocks Hps e c.
  assert (Hc : c = finish run path text st m1).
  { subst c. unfold consume, iterate_blocks. unfold bind at 1. by rewrite Hblocks. }
  rewrite Hc. unfold finish. rewrite bind_yield.
  destruct (pending_source st) as [|ch ps] eqn:E; [done |].
  rewrite bind_call. cbn [host yielded].
  pose proof (exec_source_result run path (ch :: ps) false (host m1)) as Hr.
  pose proof (exec_source_executed run path (ch :: ps) false (host m1)) as Hlog.
  pose proof (exec_source_stdout run path (ch :: ps) false (host m1)) as Hso.
  pose proof (exec_source_files run path (ch :: ps) false (host m1)) as Hfs.
  cbn zeta in Hr. fold e in Hr.
  destruct (exec_source run path (ch :: ps) false (host m1)) as [w' r].
  cbn [fst snd] in *. subst r.
  destruct (ended e) as [|kind msg fl|kind]; cbn [fst snd host yielded ret]; done.
Qed.
End Generators.

(** The history of a pass that ends with a block never followed by an
    output block: its source is run once, and what it prints is in no
    fragment. *)
Lemma C9_trailing_source_is_run_witness :
  let text := lit "```python
print('unseen')
```
" in
  let c := consume (iterate_blocks Toy.run Toy.python2_7 Toy.python3 Toy.root_dir
                      (lit "doc.md") text) (initial_world ∅) in
  executed (host c.1) = [(false, lit "
print('unseen')
")] ∧
  concat (yielded c.1) = text ∧ stdout (host c.1) = [] ∧ c.2 = Ok tt.
Proof.
  intros text c.
  pose (st := {| text_start := 29; source_start := Some 9;
                 block_suffix := lit "python";
                 pending_source := lit "
print('unseen')
"; pending_output := [] |}).
  pose (m1 := (blocks Toy.run Toy.python2_7 Toy.python3 Toy.root_dir (lit "doc.md") text 0
                 (Py.finditer fence text) scan0
                 {| host := initial_world ∅; yielded := [] |}).1).
  destruct (C9_trailing_source_is_run Toy.run Toy.python2_7 Toy.python3 Toy.root_dir
              (lit "doc.md") text (initial_world ∅) m1 st)
    as (Hy & Hlog & Hso & _ & Hres);
    [vm_compute; reflexivity | discriminate |].
  fold c in Hy, Hlog, Hso, Hres.
  rewrite Hy, Hlog, Hso, Hres. repeat split; vm_compute; reflexivity.
Defined.

(** C10: a [python2] block whose child prints nothing is followed by an
    output block that holds an old text.  The results pending at the
    output block are those of one block of code that ran, and their
    concatenation is empty: the output block keeps the old text
    nevertheless, the guard [elif not pending_output] taking the empty
    result for no result.  After a [python] block that prints nothing,
    the same output block is emptied. *)
Theorem C10_silent_python2_keeps_stale_text :
  Toy.python2_7 (lit "
x = 1
") = Exited0 [] ∧
  Toy.rewrite (lit "```python2
x = 1
```
```
old
```
") = Ok (lit "```python2
# Python 2
x = 1
```
```
old
```
") ∧
  Toy.rewrite (lit "```python
x = 1
```
```
old
```
") = Ok (lit "```python
x = 1
```
```

```
").
Proof. repeat split; vm_compute; reflexivity. Qed.

(** An output block that finds the text of an exception and the output
    of a child pending, with source still to run. *)
Example results_accumulate_pending :
  let text := lit "```
```" in
  let st := {| text_start := 0; source_start := Some 3; block_suffix := [];
               pending_source := lit "print('three')";
               pending_output := lit "ValueError: boom" ++ lit "two
" |} in
  let m := {| host := initial_world ∅; yielded := [] |} in
  yielded (closing Toy.run Toy.python2_7 Toy.python3 Toy.root_dir (lit "doc.md")
             text 4 st m).1
  = [lit "```
"; lit "ValueError: boomtwo
three"; lit "
```"].
Proof.
  intros text st m.
  destruct (results_accumulate Toy.run Toy.python2_7 Toy.python3 Toy.root_dir
              (lit "doc.md") text 4 st m) as (_ & _ & _ & _ & Hout & _).
  rewrite (Hout eq_refl
             (exec_source Toy.run (lit "doc.md") (lit "print('three')") false
                (initial_world ∅)).1
             (lit "three" ++ [Py.nl]));
    [vm_compute; reflexivity | vm_compute; reflexivity | left; discriminate].
Qed.

Example rewrite_accumulates :
  Toy.rewrite (lit "```python-exception
raise ValueError('boom')
```
```python2
print('two')
```
```python-syntax-error
x = = 1
```
```python
print('three')
```
```
```
") = Ok (lit "```python-exception
raise ValueError('boom')
```
```python2
# Python 2
print('two')
```
```python-syntax-error
x = = 1
```
```python
print('three')
```
```
ValueError: boomtwo
SyntaxError: invalid syntaxthree
```
").
Proof. vm_compute. reflexivity. Qed.

(** ** The namespace and the files over a pass and a batch *)

Section Steady.
Variable run : runtime.
Variable python2_7 : str → child.
Variable python3 : str → option str.
Variable root_dir : str.

Lemma steady_refl w : steady run w w.
Proof. split; [reflexivity | apply rtc_refl]. Qed.

Lemma steady_trans w1 w2 w3 : steady run w1 w2 → steady run w2 w3 → steady run w1 w3.
Proof.
  intros [Hf1 Hc1] [Hf2 Hc2]. split; [congruence | by etrans].
Qed.

Lemma steady_ret {A} (a : A) : steady_gen run (ret a).
Proof. intros m. apply steady_refl. Qed.

Lemma steady_yield t : steady_gen run (yield t).
Proof. intros m. apply steady_refl. Qed.

Lemma steady_bind {A B} (c : gen A) (k : A → gen B) :
  steady_gen run c → (∀ a, steady_gen run (k a)) → steady_gen run (bind c k).
Proof.
  intros Hc Hk m. unfold bind. specialize (Hc m).
  destruct (c m) as [m' [a | e]]; cbn [fst] in *; [| exact Hc].
  eapply steady_trans; [exact Hc | apply Hk].
Qed.

Lemma steady_call {A} (f : world → world * result A) :
  (∀ w, steady run w (f w).1) → steady_gen run (call f).
Proof.
  intros Hf m. unfold call. specialize (Hf (host m)).
  by destruct (f (host m)) as [w r].
Qed.

Lemma steady_exec_source path source mode w :
  steady run w (exec_source run path source mode w).1.
Proof.
  split; [apply exec_source_files |].
  rewrite exec_source_context. apply rtc_once. by exists path, source.
Qed.

Lemma steady_exec_exception path source w :
  steady run w (exec_exception run path source w).1.
Proof. rewrite exec_exception_result. apply steady_exec_source. Qed.

Lemma steady_flush path st : steady_gen run (flush run path st).
Proof.
  unfold flush. apply steady_bind; [| intros; apply steady_ret].
  apply steady_call. intros w. apply steady_exec_source.
Qed.


Ltac steady :=
  repeat first
    [ apply steady_ret | apply steady_yield | apply steady_flush
    | apply steady_bind; [| intros ?] ].

Lemma steady_opening text start st : steady_gen run (opening text start st).
Proof. unfold opening. steady. Qed.

Lemma steady_closing path text start st :
  steady_gen run (closing run python2_7 python3 root_dir path text start st).
Proof.
  unfold closing.
  destruct (_ || _).
  { unfold python_block.
    apply steady_bind.
    - destruct (is_python_exception _); [destruct (pending_source _) |]; steady.
    - intros st'. steady. destruct (is_python_exception _); steady.
      apply steady_call. intros w. apply steady_exec_exception. }
  destruct (is_python2 _).
  { unfold python2_block. steady.
    - destruct (negb _); steady.
    - apply steady_call. intros w. unfold exec_python2.
      destruct (python2_7 _); apply steady_refl. }
  destruct (is_python_syntax_error _).
  { unfold syntax_error_block. steady.
    apply steady_call. intros w. unfold exec_syntax_error.
    destruct (python3 _); apply steady_refl. }
  destruct (is_python_include _).
  { unfold include_block. steady.
    apply steady_call. intros w. destruct (files w !! _); apply steady_refl. }
  unfold output_block. apply steady_bind; [| intros st'; steady].
  destruct (pending_source _); [destruct (pending_output _) |]; steady.
Qed.

Lemma steady_blocks path text starts : ∀ k st,
  steady_gen run (blocks run python2_7 python3 root_dir path text k starts st).
Proof.
  induction starts as [|start rest IH]; intros k st; cbn [blocks]; [apply steady_ret |].
  apply steady_bind; [| intros st'; apply IH].
  destruct (_ =? _); [apply steady_opening | apply steady_closing].
Qed.

Lemma steady_iterate_blocks path text :
  steady_gen run (iterate_blocks run python2_7 python3 root_dir path text).
Proof.
  unfold iterate_blocks. apply steady_bind; [apply steady_blocks |].
  intros st. unfold finish. steady. destruct (pending_source st); steady.
  apply steady_call. intros w. apply steady_exec_source.
Qed.
End Steady.

Section Main.
Variable run : runtime.
Variable python2_7 : str → child.
Variable python3 : str → option str.
Variable root_dir : str.

Lemma main_app before rest overwrite w w1 :
  main run python2_7 python3 root_dir before overwrite w = (w1, Ok 0%Z) →
  main run python2_7 python3 root_dir (before ++ rest) overwrite w
  = main run python2_7 python3 root_dir rest overwrite w1.
Proof.
  revert w. induction before as [|path before IH]; intros w; cbn [main app].
  - by intros [= ->].
  - destruct (files w !! path) as [text|]; [| discriminate].
    destruct (print_iter _ _ _ _) as [w' [[] | e]]; [apply IH |].
    destruct e; discriminate.
Qed.

Lemma main_context paths overwrite : ∀ w,
  rtc (ran run) (context w)
    (context (main run python2_7 python3 root_dir paths overwrite w).1).
Proof.
  induction paths as [|path rest IH]; intros w; cbn [main]; [apply rtc_refl |].
  destruct (files w !! path) as [text|]; [| apply rtc_refl].
  assert (Hp : rtc (ran run) (context w)
                 (context (print_iter (iterate_blocks run python2_7 python3 root_dir path text) path overwrite w).1)).
  { unfold print_iter.
    pose proof (steady_iterate_blocks run python2_7 python3 root_dir path text
                  {| host := w; yielded := [] |}) as [_ Hc].
    fold (iterate_blocks run python2_7 python3 root_dir path text) in Hc. unfold consume.
    destruct (iterate_blocks run python2_7 python3 root_dir path text _) as [m r]. cbn [fst host] in Hc.
    destruct overwrite; [destruct r |]; exact Hc. }
  fold (iterate_blocks run python2_7 python3 root_dir path text).
  destruct (print_iter _ _ _ _) as [w' [[] | e]]; cbn [fst] in Hp.
  - etrans; [exact Hp | apply IH].
  - destruct e; exact Hp.
Qed.

(** C5: in overwrite mode, when the documents [before] have been
    processed and the pass over the next one yields all its fragments
    and ends without an exception, the file is written, once, with
    the concatenation of them all, and the batch goes on.  When the
    pass raises, no file is written: every file is as it was before
    the pass, [main] returns 1 for a [MarkdownExecError] (any other
    exception leaves [main]), and the documents that remain are not
    processed: the process state is the one the failed pass left. *)
Theorem C5_overwrite_after_complete_pass before path rest text w w1 m r :
  main run python2_7 python3 root_dir before true w = (w1, Ok 0%Z) →
  files w1 !! path = Some text →
  consume (iterate_blocks run python2_7 python3 root_dir path text) w1 = (m, r) →
  let batch := main run python2_7 python3 root_dir (before ++ path :: rest) true w in
  match r with
  | Ok _ =>
      batch = main run python2_7 python3 root_dir rest true
                (write_file path (concat (yielded m)) (host m))
  | Raise e =>
      files (host m) = files w1 ∧
      batch = (host m, match e with
                       | MarkdownExecError _ _ => Ok 1%Z
                       | _ => Raise e
                       end)
  end.
Proof.
  intros Hbefore Htext Hpass batch. subst batch.
  rewrite (main_app before (path :: rest) true w w1 Hbefore).
  cbn [main]. rewrite Htext. fold (iterate_blocks run python2_7 python3 root_dir path text).
  unfold print_iter. rewrite Hpass.
  destruct r as [[] | e]; [reflexivity |].
  split.
  - pose proof (steady_iterate_blocks run python2_7 python3 root_dir path text
                  {| host := w1; yielded := [] |}) as [Hf _].
    fold (iterate_blocks run python2_7 python3 root_dir path text) in Hf. unfold consume in Hpass. rewrite Hpass in Hf.
    exact Hf.
  - by destruct e.
Qed.
(** C6 (amended): the namespace is one mapping for the whole process.
    Every execution receives the namespace the previous one left, with
    the capture closures bound again, and leaves it with [print]
    restored; between two executions nothing changes it, neither a
    fence nor the end of a document: the pass over the next path
    starts with the namespace the pass over the previous path left. *)
Theorem C6_namespace_is_shared :
  (∀ w name,
     name ∉ ["print"; "pprint"; "debug"; "help"; "Pdb"; "STDOUT"] →
     handed w !! name = context w !! name) ∧
  (∀ path source mode w,
     context (exec_source run path source mode w).1
     = <["print" := REAL_PRINT]> (left_context (run path source (handed w)))) ∧
  (∀ path text w,
     rtc (ran run) (context w) (context (host (consume (iterate_blocks run python2_7 python3 root_dir path text) w).1))) ∧
  (∀ paths overwrite w,
     rtc (ran run) (context w)
       (context (main run python2_7 python3 root_dir paths overwrite w).1)) ∧
  (∀ path rest overwrite w text m,
     files w !! path = Some text →
     consume (iterate_blocks run python2_7 python3 root_dir path text) w = (m, Ok tt) →
     ∃ w1, context w1 = context (host m) ∧
           main run python2_7 python3 root_dir (path :: rest) overwrite w
           = main run python2_7 python3 root_dir rest overwrite w1).
Proof.
  split; [intros w name; apply handed_other |].
  split; [intros path source mode w; apply exec_source_context |].
  split.
  { intros path text w.
    apply (steady_iterate_blocks run python2_7 python3 root_dir path text
             {| host := w; yielded := [] |}). }
  split; [intros paths overwrite w; apply main_context |].
  intros path rest overwrite w text m Htext Hpass.
  cbn [main]. rewrite Htext. fold (iterate_blocks run python2_7 python3 root_dir path text).
  unfold print_iter. rewrite Hpass.
  destruct overwrite; eexists; (split; [| reflexivity]); reflexivity.
Qed.

End Main.

(** C5 on a batch of three documents, the second of which fails: the
    first is rewritten, the second is as it was, [main] returns 1 and
    the third is not processed. *)
Lemma C5_overwrite_after_complete_pass_witness :
  let w := initial_world shelf in
  let batch := toy_main [lit "c.md"; lit "b.md"; lit "a.md"] true w in
  batch.2 = Ok 1%Z ∧
  files batch.1 !! lit "b.md" = Some b_md ∧
  files batch.1 !! lit "c.md" = Some (lit "```python
print('c')
```
```
c
```
") ∧
  executed batch.1 = [(false, lit "
print('c')
"); (false, lit "
print(x)
")].
Proof.
  intros w batch.
  pose (w1 := (toy_main [lit "c.md"] true w).1).
  pose (m := (consume (iterate_blocks Toy.run Toy.python2_7 Toy.python3 Toy.root_dir
                         (lit "b.md") b_md) w1).1).
  pose proof (C5_overwrite_after_complete_pass Toy.run Toy.python2_7 Toy.python3
                Toy.root_dir [lit "c.md"] (lit "b.md") [lit "a.md"] b_md w w1 m
                (Raise (MarkdownExecError (lit "NameError")
                          (lit "name 'x' is not defined")))) as H.
  destruct H as [Hfiles Hbatch];
    [vm_compute; reflexivity | vm_compute; reflexivity | vm_compute; reflexivity |].
  subst batch. unfold toy_main.
  change [lit "c.md"; lit "b.md"; lit "a.md"] with ([lit "c.md"] ++ [lit "b.md"; lit "a.md"]).
  rewrite Hbatch. cbn [fst snd]. rewrite Hfiles.
  repeat split; vm_compute; reflexivity.
Defined.

(** C6, as the specification states it, fails: the pass over [b.md]
    starts with the namespace the pass over [a.md] left, in which [x] is
    bound.  Alone, [b.md] fails on [print(x)]; after [a.md] in the same
    batch it prints 5. *)
Lemma C6_second_document_sees_first :
  let w := initial_world shelf in
  context w !! "x" = None ∧
  context (toy_main [lit "a.md"] true w).1 !! "x" = Some (PyValue (lit "5")) ∧
  (toy_main [lit "b.md"] true w).2 = Ok 1%Z ∧
  (toy_main [lit "a.md"; lit "b.md"] true w).2 = Ok 0%Z ∧
  files (toy_main [lit "a.md"; lit "b.md"] true w).1 !! lit "b.md"
  = Some (lit "```python
print(x)
```
```
5
```
").
Proof. repeat split; vm_compute; reflexivity. Qed.

(** The amended C6 on that batch. *)
Lemma C6_namespace_is_shared_witness :
  let w := initial_world shelf in
  ∃ w1, context w1 !! "x" = Some (PyValue (lit "5")) ∧
        toy_main [lit "a.md"; lit "b.md"] true w = toy_main [lit "b.md"] true w1.
Proof.
  intros w.
  destruct (C6_namespace_is_shared Toy.run Toy.python2_7 Toy.python3 Toy.root_dir)
    as (_ & _ & _ & _ & Hnext).
  destruct (Hnext (lit "a.md") [lit "b.md"] true w a_md
              (consume (iterate_blocks Toy.run Toy.python2_7 Toy.python3 Toy.root_dir
                          (lit "a.md") a_md) w).1)
    as (w1 & Hctx & Hmain); [vm_compute; reflexivity | vm_compute; reflexivity |].
  exists w1. split; [| exact Hmain].
  rewrite Hctx. vm_compute. reflexivity.
Defined.

(** ** The scanner and the line aligner *)

Lemma index_spec c t :
  match Py.index c t with
  | Some i => t !! i = Some c ∧ c ∉ take i t
  | None => c ∉ t
  end.
Proof.
  induction t as [|x t IH]; simpl; [apply not_elem_of_nil |].
  destruct (Ascii.eqb_spec x c) as [-> | Hne].
  - split; [reflexivity | apply not_elem_of_nil].
  - destruct (Py.index c t) as [i|]; simpl.
    + destruct IH as [Hi Hn]. split; [exact Hi |].
      intros H. apply elem_of_cons in H as [-> | H]; [done | by apply Hn].
    + intros H. apply elem_of_cons in H as [-> | H]; [done | by apply IH].
Qed.

Lemma find_cases c from t :
  (Py.find c from t = (-1)%Z ∧ c ∉ drop from t) ∨
  (∃ i, Py.find c from t = Z.of_nat (from + i) ∧ t !! (from + i) = Some c
        ∧ c ∉ Py.slice from (from + i) t).
Proof.
  unfold Py.find. pose proof (index_spec c (drop from t)) as H.
  destruct (Py.index c (drop from t)) as [i|]; [right | by left].
  destruct H as [Hi Hn]. rewrite lookup_drop in Hi.
  exists i. split; [reflexivity |]. split; [exact Hi |].
  unfold Py.slice. by replace (from + i - from) with i by lia.
Qed.

Lemma opening_state text start st m :
  (opening text start st m).2 =
  Ok (if (0 <? Py.find Py.nl (start + 3) text)%Z
      then set_suffix
             (Py.lower (Py.slice (start + 3) (Z.to_nat (Py.find Py.nl (start + 3) text)) text))
             (Some (start + 3
                    + length (Py.lower (Py.slice (start + 3)
                                          (Z.to_nat (Py.find Py.nl (start + 3) text)) text))))
             st
      else st).
Proof. reflexivity. Qed.

Lemma slice_length a b t : a ≤ b → b ≤ length t → length (Py.slice a b t) = b - a.
Proof. intros Hab Hb. unfold Py.slice. rewrite length_take, length_drop. lia. Qed.

Lemma opening_tag text start st m :
  let end_ := start + 3 in
  (∀ i, Py.find Py.nl end_ text = Z.of_nat (end_ + i) →
     text !! (end_ + i) = Some Py.nl ∧ (Py.nl ∉ Py.slice end_ (end_ + i) text) ∧
     (∃ st', (opening text start st m).2 = Ok st' ∧
             block_suffix st' = Py.lower (Py.slice end_ (end_ + i) text) ∧
             source_start st' = Some (end_ + i))) ∧
  (Py.nl ∉ drop end_ text →
     Py.find Py.nl end_ text = (-1)%Z ∧ (opening text start st m).2 = Ok st) ∧
  (Py.nl ∉ drop end_ text → block_suffix st = [] →
     ∃ st', (opening text start st m).2 = Ok st' ∧ block_suffix st' = []) ∧
  block_suffix scan0 = [].
Proof.
  intros end_.
  assert (Hnone : Py.nl ∉ drop end_ text →
                  Py.find Py.nl end_ text = (-1)%Z ∧ (opening text start st m).2 = Ok st).
  { intros Hn. destruct (find_cases Py.nl end_ text) as [[Hf _] | (i & Hf & Hi & _)].
    - split; [exact Hf |]. rewrite opening_state. fold end_. by rewrite Hf.
    - exfalso. apply Hn. rewrite <- (lookup_drop text end_ i) in Hi.
      by apply list_elem_of_lookup_2 in Hi. }
  split; [| split; [exact Hnone | split; [| reflexivity]]].
  - intros i Hf. destruct (find_cases Py.nl end_ text) as [[Hf' _] | (j & Hf' & Hj & Hn)].
    + rewrite Hf' in Hf. lia.
    + assert (j = i) as -> by (rewrite Hf' in Hf; lia).
      split; [exact Hj |]. split; [exact Hn |].
      eexists. split; [apply opening_state |].
      fold end_. rewrite Hf.
      assert (Hpos : (0 <? Z.of_nat (end_ + i))%Z = true) by (apply Z.ltb_lt; unfold end_; lia).
      rewrite Hpos, Nat2Z.id. cbn [block_suffix source_start set_suffix].
      split; [reflexivity |]. f_equal. unfold Py.lower. rewrite length_map.
      rewrite slice_length; [lia | lia |].
      apply lookup_lt_Some in Hj. lia.
  - intros Hn Hst. exists st. by destruct (Hnone Hn) as [_ ->].
Qed.

Lemma finditer_from_ge pat t : ∀ pos skip x,
  x ∈ Py.finditer_from pat pos skip t → pos ≤ x.
Proof.
  induction t as [|c t IH]; intros pos skip x; cbn [Py.finditer_from].
  - intros H. by apply elem_of_nil in H.
  - destruct skip as [|k].
    + destruct (Py.startswith pat (c :: t)).
      * intros H. apply elem_of_cons in H as [-> | H]; [lia |].
        apply IH in H. lia.
      * intros H. apply IH in H. lia.
    + intros H. apply IH in H. lia.
Qed.

Section Untagged.
Variable run : runtime.
Variable python2_7 : str → child.
Variable python3 : str → option str.
Variable root_dir : str.

Lemma blocks_untagged path text starts : ∀ k st m,
  (∀ s, s ∈ starts → Py.nl ∉ drop (s + 3) text) →
  block_suffix st = [] → pending_source st = [] →
  ∃ m' st',
    blocks run python2_7 python3 root_dir path text k starts st m = (m', Ok st') ∧
    block_suffix st' = [] ∧ pending_source st' = [] ∧ host m' = host m.
Proof.
  induction starts as [|s rest IH]; intros k st m Hnl Htag Hps.
  - exists m, st. done.
  - rewrite blocks_cons.
    assert (Hrest : ∀ s', s' ∈ rest → Py.nl ∉ drop (s' + 3) text)
      by (intros s' Hs'; apply Hnl; by right).
    destruct (k mod 2 =? 0).
    + assert (Hopen : opening text s st m
                      = ({| host := host m;
                            yielded := yielded m ++ [Py.slice (text_start st) s text] |},
                         Ok st)).
      { rewrite opening_run. cbn zeta.
        destruct (find_cases Py.nl (s + 3) text) as [[Hf _] | (i & _ & Hi & _)].
        - by rewrite Hf.
        - exfalso. apply (Hnl s); [by left |].
          rewrite <- (lookup_drop text (s + 3) i) in Hi.
          by apply list_elem_of_lookup_2 in Hi. }
      rewrite Hopen.
      destruct (IH (S k) st {| host := host m;
                               yielded := yielded m ++ [Py.slice (text_start st) s text] |}
                  Hrest Htag Hps) as (m' & st' & Hrun & Ht & Hp & Hh).
      exists m', st'. done.
    + rewrite (closing_output run python2_7 python3 root_dir)
        by (rewrite Htag; reflexivity).
      rewrite output_block_run.
      cbn [pending_source pending_output set_text_start block_suffix]. rewrite Hps.
      destruct (pending_output st);
        match goal with
        | |- context [blocks _ _ _ _ _ _ _ _ ?st2 ?m2] =>
            destruct (IH (S k) st2 m2 Hrest Htag eq_refl) as (m' & st' & Hrun & Ht & Hp & Hh)
        end; exists m', st'; done.
Qed.
End Untagged.

Lemma finditer_from_head pat t : ∀ pos skip x xs,
  Py.finditer_from pat pos skip t = x :: xs → ∀ y, y ∈ xs → x < y.
Proof.
  induction t as [|c t IH]; intros pos skip x xs; cbn [Py.finditer_from]; [done |].
  destruct skip as [|k]; [| apply IH].
  destruct (Py.startswith pat (c :: t)); [| apply IH].
  intros [= <- <-] y Hy. apply finditer_from_ge in Hy. lia.
Qed.

Lemma not_elem_of_drop_le {A} (x : A) (l : list A) (a b : nat) :
  a ≤ b → x ∉ drop a l → x ∉ drop b l.
Proof.
  intros Hab Hn Hx. apply Hn.
  apply list_elem_of_lookup in Hx as [i Hi]. rewrite lookup_drop in Hi.
  apply list_elem_of_lookup. exists (b - a + i). rewrite lookup_drop.
  by replace (a + (b - a + i)) with (b + i) by lia.
Qed.

Lemma iterate_untagged run python2_7 python3 root_dir path text first rest n m :
  Py.finditer fence text = first :: rest →
  Py.nl ∉ drop (first + 3) text →
  ∃ m' st',
    blocks run python2_7 python3 root_dir path text 0 (take n (first :: rest)) scan0 m
    = (m', Ok st') ∧ block_suffix st' = [].
Proof.
  intros Hstarts Hnl.
  destruct (blocks_untagged run python2_7 python3 root_dir path text
              (take n (first :: rest)) 0 scan0 m) as (m' & st' & Hrun & Htag & _);
    [| reflexivity | reflexivity | by exists m', st'].
  intros s Hs. apply (not_elem_of_drop_le _ _ (first + 3)); [| exact Hnl].
  apply subseteq_take in Hs. apply elem_of_cons in Hs as [-> | Hs]; [lia |].
  pose proof (finditer_from_head _ _ _ _ _ _ Hstarts s Hs). lia.
Qed.
Lemma count_app c a b : Py.count c (a ++ b) = Py.count c a + Py.count c b.
Proof. induction a as [|x a IH]; simpl; [reflexivity | rewrite IH; lia]. Qed.

Lemma count_repeat n : Py.count Py.nl (repeat Py.nl n) = n.
Proof. induction n as [|n IH]; simpl; [reflexivity | by rewrite IH]. Qed.

Lemma accumulate_aligned text start st ss :
  source_start st = Some ss → ss ≤ start → start ≤ length text →
  let source := Py.slice_from (source_start st) start text in
  let line_offset := Z.of_nat (Py.count Py.nl (Py.slice_to (source_start st) text)) in
  let delta := (line_offset - Z.of_nat (Py.count Py.nl (pending_source st)))%Z in
  let unit := pending_source (accumulate text source st) in
  unit = pending_source st ++ repeat Py.nl (Z.to_nat delta) ++ source ∧
  ((0 ≤ delta)%Z → ∀ i, i ≤ length source →
     Py.count Py.nl (take (length unit - length source + i) unit)
     = Py.count Py.nl (take (ss + i) text)).
Proof.
  intros Hss Hle Hlen source line_offset delta unit.
  assert (Hunit : unit = pending_source st ++ repeat Py.nl (Z.to_nat delta) ++ source).
  { subst unit. unfold accumulate. cbn [pending_source set_pending_source].
    by rewrite <- app_assoc. }
  split; [exact Hunit |].
  intros Hdelta i Hi. rewrite Hunit.
  set (pad := repeat Py.nl (Z.to_nat delta)).
  assert (Hsrc : source = take (start - ss) (drop ss text)).
  { subst source. rewrite Hss. reflexivity. }
  assert (Hsl : length source = start - ss).
  { rewrite Hsrc, length_take, length_drop. lia. }
  rewrite !length_app.
  replace (length (pending_source st) + (length pad + length source) - length source + i)
    with (length (pending_source st ++ pad) + i) by (rewrite length_app; lia).
  rewrite (app_assoc (pending_source st) pad source), take_app_add.
  rewrite !count_app. subst pad. rewrite count_repeat.
  rewrite <- (take_take_drop text ss i), count_app.
  assert (Htake : take i source = take i (drop ss text)).
  { rewrite Hsrc, take_take. f_equal. lia. }
  rewrite Htake.
  subst delta line_offset. rewrite Hss in *. cbn [Py.slice_to] in *. lia.
Qed.


(** C8, as the specification states it, fails: the third fence of
    [stale_md] opens a block and no line break follows it, and the tag
    after it is [python], the tag of the block before. *)
Lemma C8_stale_tag :
  Py.finditer fence stale_md = [0; 16; 20; 24] ∧
  Py.find Py.nl (20 + 3) stale_md = (-1)%Z ∧
  (blocks Toy.run Toy.python2_7 Toy.python3 Toy.root_dir (lit "doc.md") stale_md 0
     [0; 16; 20] scan0 {| host := initial_world ∅; yielded := [] |}).2
  = Ok {| text_start := 19; source_start := Some 9; block_suffix := lit "python";
          pending_source := lit "
x = 1
"; pending_output := [] |}.
Proof. repeat split; vm_compute; reflexivity. Qed.

(** C8 (amended): at an opening fence that a line break follows, the
    tag is the text between the fence and the first such line break, in
    lower case, and the body starts at that line break.  At an opening
    fence that no line break follows, the tag and the start of the body
    are left as they are; they are the empty tag and no start when the
    pass begins, so a document with no line break after its first fence
    has the empty tag at every fence. *)
Theorem C8_opening_tag (run : runtime) (python2_7 : str → child)
    (python3 : str → option str) (root_dir path text : str) :
  (∀ start st m i,
     Py.find Py.nl (start + 3) text = Z.of_nat (start + 3 + i) →
     text !! (start + 3 + i) = Some Py.nl ∧
     (Py.nl ∉ Py.slice (start + 3) (start + 3 + i) text) ∧
     (∃ st', (opening text start st m).2 = Ok st' ∧
             block_suffix st' = Py.lower (Py.slice (start + 3) (start + 3 + i) text) ∧
             source_start st' = Some (start + 3 + i))) ∧
  (∀ start st m,
     Py.nl ∉ drop (start + 3) text →
     Py.find Py.nl (start + 3) text = (-1)%Z ∧ (opening text start st m).2 = Ok st) ∧
  (∀ first rest n m,
     Py.finditer fence text = first :: rest →
     Py.nl ∉ drop (first + 3) text →
     ∃ m' st',
       blocks run python2_7 python3 root_dir path text 0 (take n (first :: rest)) scan0 m
       = (m', Ok st') ∧ block_suffix st' = []).
Proof.
  split; [| split].
  - intros start st m i. apply (opening_tag text start st m).
  - intros start st m. apply (opening_tag text start st m).
  - intros first rest n m. apply iterate_untagged.
Qed.

(** The amended C8 on a tag in upper case, and on fences that share the
    one line of a document. *)
Lemma C8_opening_tag_witness :
  let up_md := lit "intro ```Python
print(1)
```" in
  (∃ st', (opening up_md 6 scan0 {| host := initial_world ∅; yielded := [] |}).2 = Ok st' ∧
          block_suffix st' = lit "python" ∧ source_start st' = Some 15) ∧
  (∃ m' st',
     blocks Toy.run Toy.python2_7 Toy.python3 Toy.root_dir (lit "doc.md")
       (lit "a ``` b ``` c") 0 [2; 8] scan0 {| host := initial_world ∅; yielded := [] |}
     = (m', Ok st') ∧ block_suffix st' = []).
Proof.
  intros up_md. split.
  - destruct (C8_opening_tag Toy.run Toy.python2_7 Toy.python3 Toy.root_dir
                (lit "doc.md") up_md) as (Htag & _ & _).
    destruct (Htag 6 scan0 {| host := initial_world ∅; yielded := [] |} 6)
      as (_ & _ & st' & Hst & Hsuffix & Hstart); [vm_compute; reflexivity |].
    exists st'. split; [exact Hst |]. split; [rewrite Hsuffix; vm_compute; reflexivity |].
    exact Hstart.
  - destruct (C8_opening_tag Toy.run Toy.python2_7 Toy.python3 Toy.root_dir
                (lit "doc.md") (lit "a ``` b ``` c")) as (_ & _ & Hpass).
    apply (Hpass 2 [8] 2); [vm_compute; reflexivity |].
    vm_compute. intros H.
    by repeat (apply elem_of_cons in H as [H | H]; [discriminate H |]);
      apply elem_of_nil in H.
Defined.

(** C2, as the specification states it, fails: at the last fence of
    [stale_md] the body appended starts on line 0 of the document and on
    line 2 of the pending source. *)
Lemma C2_stale_body_misaligned :
  let st := {| text_start := 19; source_start := Some 9; block_suffix := lit "python";
               pending_source := lit "
x = 1
"; pending_output := [] |} in
  let source := Py.slice_from (source_start st) 24 stale_md in
  let unit := pending_source (accumulate stale_md source st) in
  (blocks Toy.run Toy.python2_7 Toy.python3 Toy.root_dir (lit "doc.md") stale_md 0
     [0; 16; 20] scan0 {| host := initial_world ∅; yielded := [] |}).2 = Ok st ∧
  (blocks Toy.run Toy.python2_7 Toy.python3 Toy.root_dir (lit "doc.md") stale_md 0
     [0; 16; 20; 24] scan0 {| host := initial_world ∅; yielded := [] |}).2
  = Ok (set_text_start 27 (set_pending_source unit st)) ∧
  Py.count Py.nl (Py.slice_to (source_start st) stale_md) = 0 ∧
  Py.count Py.nl (take (length unit - length source) unit) = 2.
Proof. repeat split; vm_compute; reflexivity. Qed.

(** ** The line numbers over a whole pass *)

Lemma spaced_weaken text b b' starts : b' ≤ b → spaced text b starts → spaced text b' starts.
Proof. destruct starts as [|s rest]; [done |]. simpl. intros Hb (Hs & Hf & Hr). repeat split; [lia | done..]. Qed.

Lemma drop_S_cons {A} (l : list A) n c t : drop n l = c :: t → drop (S n) l = t.
Proof.
  intros H. replace (S n) with (n + 1) by lia. rewrite <- drop_drop, H. reflexivity.
Qed.

Lemma finditer_from_spaced text t : ∀ pos skip,
  t = drop pos text → spaced text (pos + skip) (Py.finditer_from fence pos skip t).
Proof.
  induction t as [|c t IH]; intros pos skip Ht; cbn [Py.finditer_from]; [done |].
  symmetry in Ht. pose proof (drop_S_cons _ _ _ _ Ht) as Ht'. symmetry in Ht'.
  destruct skip as [|k].
  - destruct (Py.startswith fence (c :: t)) eqn:E.
    + cbn [spaced]. split; [lia |]. split; [by rewrite Ht |].
      replace (pos + 3) with (S pos + 2) by lia. apply IH. exact Ht'.
    + apply (spaced_weaken _ (S pos + 0)); [lia |]. apply IH. exact Ht'.
  - replace (pos + S k) with (S pos + k) by lia. apply IH. exact Ht'.
Qed.

Lemma finditer_spaced text : spaced text 0 (Py.finditer fence text).
Proof. apply (finditer_from_spaced text text 0 0). reflexivity. Qed.

Lemma count_take_mono c (t : str) a b :
  a ≤ b → Py.count c (take a t) ≤ Py.count c (take b t).
Proof.
  intros Hab. replace b with (a + (b - a)) by lia.
  rewrite <- take_take_drop, count_app. lia.
Qed.

Lemma python_tag_no_backtick suffix :
  is_python suffix || is_python_exception suffix = true → "`"%char ∉ suffix.
Proof.
  intros H. apply orb_true_iff in H as [H | H]; apply bool_decide_eq_true in H;
    subst suffix; vm_compute; intros H;
    by repeat (apply elem_of_cons in H as [H | H]; [discriminate H |]);
      apply elem_of_nil in H.
Qed.

Lemma startswith_fence_head t : Py.startswith fence t = true → head t = Some "`"%char.
Proof.
  destruct t as [|c t]; [done |].
  change fence with ("`"%char :: lit "``"). cbn [Py.startswith head].
  intros H. apply andb_true_iff in H as [H _].
  apply Ascii.eqb_eq in H. by subst.
Qed.

(** The body of a [python] block starts before its closing fence. *)
Lemma python_body_before_fence text e ss s suffix :
  suffix = Py.lower (Py.slice e ss text) →
  is_python suffix || is_python_exception suffix = true →
  e ≤ s → Py.startswith fence (drop s text) = true →
  ss ≤ s.
Proof.
  intros Hsuffix Htag Hes Hfence.
  destruct (decide (ss ≤ s)) as [| Hlt]; [done | exfalso].
  apply (python_tag_no_backtick suffix Htag).
  apply startswith_fence_head in Hfence.
  assert (Hs : text !! s = Some "`"%char).
  { rewrite <- Hfence. destruct (drop s text) as [|c t] eqn:E.
    - simpl in Hfence. discriminate.
    - simpl. rewrite <- (Nat.add_0_r s), <- lookup_drop, E. reflexivity. }
  rewrite Hsuffix. unfold Py.lower, Py.slice.
  apply list_elem_of_lookup. exists (s - e).
  rewrite list_lookup_fmap, lookup_take. rewrite lookup_drop.
  replace (e + (s - e)) with s by lia. rewrite Hs.
  case_decide; [reflexivity | lia].
Qed.

Lemma opening_inside text s b st m :
  outside text b st → b ≤ s → (0 < Py.find Py.nl (s + 3) text)%Z →
  ∃ st', opening text s st m
         = ({| host := host m; yielded := yielded m ++ [Py.slice (text_start st) s text] |},
            Ok st') ∧ inside text (s + 3) st'.
Proof.
  intros [Hts Hcount] Hbs Hfind.
  destruct (find_cases Py.nl (s + 3) text) as [[Hf _] | (i & Hf & _ & _)]; [lia |].
  rewrite opening_run. cbn zeta. rewrite Hf.
  assert (Hpos : (0 <? Z.of_nat (s + 3 + i))%Z = true) by (apply Z.ltb_lt; lia).
  rewrite Hpos, Nat2Z.id. eexists. split; [reflexivity |].
  exists (s + 3), (s + 3 + length (Py.lower (Py.slice (s + 3) (s + 3 + i) text))).
  cbn [source_start block_suffix pending_source set_suffix].
  split; [lia |]. split; [lia |]. split; [reflexivity |].
  assert (Hlen : length (Py.lower (Py.slice (s + 3) (s + 3 + i) text)) ≤ i).
  { unfold Py.lower, Py.slice. rewrite length_map, length_take. lia. }
  split.
  - (* the slice up to the line break and up to the stored start agree *)
    f_equal. unfold Py.slice.
    replace (s + 3 + i - (s + 3)) with i by lia.
    set (len := length (Py.lower (take (s + 3 + i - (s + 3)) (drop (s + 3) text)))).
    replace (s + 3 + len - (s + 3)) with len by lia.
    subst len. unfold Py.lower. rewrite length_map, length_take.
    replace (s + 3 + i - (s + 3)) with i by lia.
    destruct (Nat.le_gt_cases i (length (drop (s + 3) text))) as [Hi | Hi].
    + rewrite Nat.min_l by lia. f_equal. lia.
    + rewrite Nat.min_r by lia. by rewrite !take_ge by lia.
  - etrans; [exact Hcount |]. apply count_take_mono. lia.
Qed.

Lemma find_pos_mono c a b t :
  0 < a → a ≤ b → (0 < Py.find c b t)%Z → (0 < Py.find c a t)%Z.
Proof.
  intros Ha Hab Hb.
  destruct (find_cases c a t) as [[_ Hn] | (i & -> & _ & _)]; [| lia].
  destruct (find_cases c b t) as [[Hf _] | (j & _ & Hj & _)]; [lia |].
  exfalso. apply (not_elem_of_drop_le c t a b Hab Hn).
  rewrite <- (lookup_drop t b j) in Hj. by apply list_elem_of_lookup_2 in Hj.
Qed.

Lemma spaced_sorted text l1 : ∀ b o l2 s,
  spaced text b (l1 ++ o :: l2) → s ∈ l1 → s ≤ o.
Proof.
  induction l1 as [|x l1 IH]; intros b o l2 s Hsp Hs; [by apply elem_of_nil in Hs |].
  cbn [app spaced] in Hsp. destruct Hsp as (_ & _ & Hsp).
  apply elem_of_cons in Hs as [-> | Hs]; [| by apply (IH _ _ _ _ Hsp)].
  clear IH. destruct l1 as [|y l1].
  - cbn [app spaced] in Hsp. lia.
  - assert (y ≤ o).
    { clear -Hsp. revert y Hsp. generalize (x + 3).
      induction l1 as [|z l1 IH]; intros b y Hsp.
      - cbn [app spaced] in Hsp. lia.
      - cbn [app spaced] in Hsp. destruct Hsp as (_ & _ & Hsp).
        specialize (IH _ _ Hsp). cbn [app spaced] in Hsp. lia. }
    cbn [app spaced] in Hsp. lia.
Qed.

Lemma opened_before text o l : ∀ k,
  (∀ s, s ∈ l → s ≤ o) → (0 < Py.find Py.nl (o + 3) text)%Z → opened text k l = true.
Proof.
  induction l as [|s l IH]; intros k Hle Hfind; [reflexivity |].
  cbn [opened]. apply andb_true_iff. split.
  - apply orb_true_iff. right. apply Z.ltb_lt.
    apply (find_pos_mono _ (s + 3) (o + 3)); [lia | | exact Hfind].
    specialize (Hle s ltac:(by left)). lia.
  - apply IH; [| exact Hfind]. intros s' Hs'. apply Hle. by right.
Qed.

Lemma opened_app text a : ∀ k b,
  opened text k (a ++ b) = opened text k a && opened text (k + length a) b.
Proof.
  induction a as [|s a IH]; intros k b; cbn [app opened length].
  - by rewrite Nat.add_0_r.
  - rewrite IH, andb_assoc. by replace (S k + length a) with (k + S (length a)) by lia.
Qed.

Lemma spaced_take text n : ∀ b starts, spaced text b starts → spaced text b (take n starts).
Proof.
  induction n as [|n IH]; intros b [|s rest]; cbn [take spaced]; try done.
  intros (Hb & Hf & Hr). repeat split; [done.. | by apply IH].
Qed.

(** The fences up to the closing fence number [n] when a line break
    follows the opening fence before it. *)
Lemma opened_block text n open_ start :
  n mod 2 = 1 →
  Py.finditer fence text !! (n - 1) = Some open_ →
  Py.finditer fence text !! n = Some start →
  (0 < Py.find Py.nl (open_ + 3) text)%Z →
  spaced text 0 (take n (Py.finditer fence text) ++ [start]) ∧
  opened text 0 (take n (Py.finditer fence text) ++ [start]) = true.
Proof.
  intros Hodd Hopen Hstart Hfind.
  assert (Hn : n = S (n - 1)).
  { destruct n; [discriminate Hodd | lia]. }
  split.
  - rewrite <- (take_S_r _ _ _ Hstart). apply spaced_take, finditer_spaced.
  - rewrite opened_app. apply andb_true_iff. split.
    + apply (opened_before text open_); [| exact Hfind].
      intros s Hs. rewrite Hn, (take_S_r _ _ _ Hopen) in Hs.
      apply elem_of_app in Hs as [Hs | Hs].
      * pose proof (finditer_spaced text) as Hsp.
        rewrite <- (take_drop_middle _ _ _ Hopen) in Hsp.
        by apply (spaced_sorted _ _ _ _ _ _ Hsp).
      * apply list_elem_of_singleton in Hs. lia.
    + cbn [opened]. rewrite length_take.
      apply lookup_lt_Some in Hstart. rewrite Nat.min_l by lia.
      cbn [Nat.add]. rewrite Hodd. reflexivity.
Qed.

Section Aligned.
Variable run : runtime.
Variable python2_7 : str → child.
Variable python3 : str → option str.
Variable root_dir : str.

Lemma include_block_state st m m' st' :
  include_block root_dir st m = (m', Ok st') → st' = st.
Proof.
  unfold include_block. rewrite bind_call.
  destruct (files (host m) !! _); [| discriminate].
  rewrite !bind_yield. unfold ret. by intros [= _ <-].
Qed.

(** What a closing fence that raises nothing leaves of the pending
    source: nothing, what there was, or the body appended to it at a
    [python] block. *)
Lemma closing_pending path text s st m m' st' :
  closing run python2_7 python3 root_dir path text s st m = (m', Ok st') →
  text_start st' = s + 3 ∧
  (pending_source st' = [] ∨ pending_source st' = pending_source st ∨
   (is_python (block_suffix st) = true ∧
    st' = accumulate text (Py.slice_from (source_start st) s text)
            (set_text_start (s + 3) st))).
Proof.
  destruct (is_python (block_suffix st) || is_python_exception (block_suffix st)) eqn:Epy.
  { rewrite closing_python by exact Epy.
    destruct (is_python_exception (block_suffix st)) eqn:Eex.
    - apply bool_decide_eq_true in Eex.
      rewrite python_exception_block by exact Eex.
      destruct (flushed _ _ _ _) as [w1 [out1 | e]]; [| discriminate].
      cbn zeta. destruct (exec_exception _ _ _ _) as [w2 [out | e]]; [| discriminate].
      intros [= _ <-]. split; [reflexivity | by left].
    - rewrite orb_false_r in Epy. pose proof Epy as Htag.
      apply bool_decide_eq_true in Htag.
      rewrite python_block_run by exact Htag.
      intros [= _ <-]. split; [reflexivity |]. right. right. done. }
  apply orb_false_iff in Epy as [Epy Eex].
  destruct (is_python2 (block_suffix st)) eqn:E2.
  { apply bool_decide_eq_true in E2. rewrite closing_python2 by exact E2.
    rewrite python2_block_run. cbn zeta.
    destruct (python2_7 _); [| discriminate ..].
    intros [= _ <-]. split; [reflexivity | right; by left]. }
  destruct (is_python_syntax_error (block_suffix st)) eqn:E3.
  { apply bool_decide_eq_true in E3. rewrite closing_syntax_error by exact E3.
    rewrite syntax_error_block_run.
    destruct (python3 _); [| discriminate].
    intros [= _ <-]. split; [reflexivity | right; by left]. }
  destruct (is_python_include (block_suffix st)) eqn:E4.
  { unfold closing. cbn [block_suffix set_text_start]. rewrite Epy, Eex, E2, E3, E4.
    cbn [orb]. intros H. apply include_block_state in H. subst st'.
    split; [reflexivity | right; by left]. }
  rewrite closing_output by (unfold is_output_tag; by rewrite Epy, Eex, E2, E3, E4).
  rewrite output_block_run.
  cbn [pending_source pending_output set_text_start block_suffix source_start].
  destruct (pending_source st).
  - destruct (pending_output st); intros [= _ <-]; (split; [reflexivity | by left]).
  - destruct (exec_source _ _ _ _ _) as [w [out | e]]; [| discriminate].
    intros [= _ <-]. split; [reflexivity | by left].
Qed.

Lemma closing_outside path text s b st m m' st' :
  inside text b st → b ≤ s → Py.startswith fence (drop s text) = true →
  closing run python2_7 python3 root_dir path text s st m = (m', Ok st') →
  outside text (s + 3) st'.
Proof.
  intros (e & ss & Heb & Hess & Hss & Htag & Hcount) Hbs Hfence Hrun.
  apply closing_pending in Hrun as [Hts [Hp | [Hp | [Hpy ->]]]].
  - split; [lia |]. rewrite Hp. simpl. lia.
  - split; [lia |]. rewrite Hp, Hts. etrans; [exact Hcount |].
    apply count_take_mono. lia.
  - split; [cbn; lia |].
    assert (Hle : ss ≤ s).
    { apply (python_body_before_fence text e ss s (block_suffix st)); try done.
      - by rewrite Hpy.
      - lia. }
    unfold accumulate.
    cbn [pending_source set_pending_source set_text_start source_start text_start].
    rewrite Hss. cbn [Py.slice_to Py.slice_from]. unfold Py.slice.
    rewrite !count_app, count_repeat.
    assert (Hmono : Py.count Py.nl (take e text) ≤ Py.count Py.nl (take ss text))
      by (by apply count_take_mono).
    assert (Hs : Py.count Py.nl (take s text)
                 = Py.count Py.nl (take ss text)
                   + Py.count Py.nl (take (s - ss) (drop ss text))).
    { rewrite <- count_app, take_take_drop. f_equal. f_equal. lia. }
    assert (Hs3 : Py.count Py.nl (take s text) ≤ Py.count Py.nl (take (s + 3) text))
      by (apply count_take_mono; lia).
    lia.
Qed.

Lemma parity_S k : (S k mod 2 =? 0) = negb (k mod 2 =? 0).
Proof.
  replace (S k) with (1 + k) by lia.
  rewrite <- Nat.Div0.add_mod_idemp_r.
  pose proof (Nat.mod_upper_bound k 2).
  destruct (k mod 2) as [|[|r]]; [reflexivity | reflexivity | lia].
Qed.

Lemma blocks_invariant_rest path text before : ∀ rest k b st m m' st',
  spaced text b (before ++ rest) → opened text k (before ++ rest) = true →
  invariant text k b st →
  blocks run python2_7 python3 root_dir path text k before st m = (m', Ok st') →
  ∃ b', invariant text (k + length before) b' st' ∧ spaced text b' rest.
Proof.
  induction before as [|s before IH]; intros rest k b st m m' st' Hsp Hop Hinv Hrun.
  - cbn [blocks] in Hrun. unfold ret in Hrun. injection Hrun as _ <-.
    exists b. by rewrite Nat.add_0_r.
  - cbn [spaced app] in Hsp. destruct Hsp as (Hbs & Hfence & Hsp).
    cbn [opened app] in Hop. apply andb_true_iff in Hop as [Hfresh Hop].
    rewrite blocks_cons in Hrun. unfold invariant in Hinv.
    replace (k + length (s :: before)) with (S k + length before) by (simpl; lia).
    destruct (k mod 2 =? 0) eqn:Ek.
    + cbn [negb orb] in Hfresh. apply Z.ltb_lt in Hfresh.
      destruct (opening_inside text s b st m Hinv Hbs Hfresh) as (st1 & Hopen & Hin).
      rewrite Hopen in Hrun.
      eapply (IH rest (S k) (s + 3) st1); [exact Hsp | exact Hop | | exact Hrun].
      unfold invariant. by rewrite parity_S, Ek.
    + destruct (closing run python2_7 python3 root_dir path text s st m)
        as [m1 [st1 | e]] eqn:Hclose; [| discriminate].
      apply (IH rest (S k) (s + 3) st1 m1 m' st' Hsp Hop); [| exact Hrun].
      unfold invariant. rewrite parity_S, Ek. cbn [negb].
      by apply (closing_outside path text s b st m m1 st1).
Qed.

Lemma startswith_length p t : Py.startswith p t = true → length p ≤ length t.
Proof.
  revert t. induction p as [|a p IH]; intros [|b t]; simpl; try done; [lia |].
  intros H. apply andb_true_iff in H as [_ H]. apply IH in H. lia.
Qed.

(** The state in which the pass reaches the closing fence [start], the
    fence number [n], of a block with one of the two [python] tags whose
    opening fence [open_] is followed by a line break. *)
Lemma python_block_reached path text n open_ start m m' st :
  n mod 2 = 1 →
  Py.finditer fence text !! (n - 1) = Some open_ →
  Py.finditer fence text !! n = Some start →
  (0 < Py.find Py.nl (open_ + 3) text)%Z →
  blocks run python2_7 python3 root_dir path text 0 (take n (Py.finditer fence text))
    scan0 m = (m', Ok st) →
  is_python (block_suffix st) || is_python_exception (block_suffix st) = true →
  ∃ ss, source_start st = Some ss ∧ ss ≤ start ∧ start ≤ length text ∧
        Py.count Py.nl (pending_source st) ≤ Py.count Py.nl (take ss text).
Proof.
  intros Hodd Hopen Hn Hfind Hrun Htag.
  destruct (opened_block text n open_ start Hodd Hopen Hn Hfind) as [Hsp Hop].
  assert (Hlen : length (take n (Py.finditer fence text)) = n).
  { rewrite length_take. apply lookup_lt_Some in Hn. lia. }
  destruct (blocks_invariant_rest path text (take n (Py.finditer fence text))
              [start] 0 0 scan0 m m' st Hsp Hop)
    as (b' & Hinv & Hsp').
  - unfold invariant, outside. cbn. lia.
  - exact Hrun.
  - rewrite Hlen in Hinv. unfold invariant in Hinv. cbn [Nat.add] in Hinv.
    rewrite Hodd in Hinv. cbn [Nat.eqb] in Hinv.
    destruct Hinv as (e & ss & Heb & Hess & Hss & Hsuffix & Hcount).
    cbn [spaced] in Hsp'. destruct Hsp' as (Hbs & Hfence & _).
    exists ss. split; [exact Hss |].
    split; [apply (python_body_before_fence text e ss start (block_suffix st)); try done; lia |].
    split.
    + apply startswith_length in Hfence. rewrite length_drop in Hfence.
      change (length fence) with 3 in Hfence. lia.
    + etrans; [exact Hcount |]. by apply count_take_mono.
Qed.
End Aligned.

(** C2 (amended): before a body is appended, [delta] is the number of
    line breaks before the body in the document minus the number of
    line breaks in the pending source, and [delta] line breaks are put
    before the body when [delta] is positive, none otherwise.  Whenever
    [delta] is not negative, every character of the body is on the same
    line in the pending source as in the document.  That is the case
    for every [python] and [python-exception] block whose opening fence
    is followed by a line break, whether the body is appended to the
    pending source or, after the pending source was run, to the empty
    one. *)
Theorem C2_line_alignment (run : runtime) (python2_7 : str → child)
    (python3 : str → option str) (root_dir path text : str) :
  (∀ start st ss,
     source_start st = Some ss → ss ≤ start → start ≤ length text →
     let source := Py.slice_from (source_start st) start text in
     let line_offset := Z.of_nat (Py.count Py.nl (Py.slice_to (source_start st) text)) in
     let delta := (line_offset - Z.of_nat (Py.count Py.nl (pending_source st)))%Z in
     let unit := pending_source (accumulate text source st) in
     unit = pending_source st ++ repeat Py.nl (Z.to_nat delta) ++ source ∧
     ((0 ≤ delta)%Z → ∀ i, i ≤ length source →
        Py.count Py.nl (take (length unit - length source + i) unit)
        = Py.count Py.nl (take (ss + i) text))) ∧
  (∀ n open_ start m m' st st1,
     n mod 2 = 1 →
     Py.finditer fence text !! (n - 1) = Some open_ →
     Py.finditer fence text !! n = Some start →
     (0 < Py.find Py.nl (open_ + 3) text)%Z →
     blocks run python2_7 python3 root_dir path text 0 (take n (Py.finditer fence text))
       scan0 m = (m', Ok st) →
     is_python (block_suffix st) || is_python_exception (block_suffix st) = true →
     source_start st1 = source_start st →
     pending_source st1 = pending_source st ∨ pending_source st1 = [] →
     let source := Py.slice_from (source_start st) start text in
     let unit := pending_source (accumulate text source st1) in
     ∃ ss, source_start st = Some ss ∧
           ∀ i, i ≤ length source →
             Py.count Py.nl (take (length unit - length source + i) unit)
             = Py.count Py.nl (take (ss + i) text)).
Proof.
  split.
  - intros start st ss. apply accumulate_aligned.
  - intros n open_ start m m' st st1 Hodd Hopen Hn Hfind Hrun Htag Hss1 Hps1 source unit.
    destruct (python_block_reached run python2_7 python3 root_dir path text n open_ start
                m m' st Hodd Hopen Hn Hfind Hrun Htag) as (ss & Hss & Hle & Hlen & Hcount).
    exists ss. split; [exact Hss |].
    assert (Hss1' : source_start st1 = Some ss) by congruence.
    destruct (accumulate_aligned text start st1 ss Hss1' Hle Hlen) as [_ Hline].
    subst unit source. rewrite <- Hss1. apply Hline.
    rewrite Hss1'. cbn [Py.slice_to].
    destruct Hps1 as [-> | ->]; [lia | simpl; lia].
Qed.

(** The amended C2 on the second block of [two_md]: [print(x)] is on
    line 7 of the document and of the pending source. *)
Lemma C2_line_alignment_witness :
  let st := {| text_start := 26; source_start := Some 41; block_suffix := lit "python";
               pending_source := lit "


x = 1
"; pending_output := [] |} in
  let source := Py.slice_from (source_start st) 51 two_md in
  let unit := pending_source (accumulate two_md source st) in
  unit = lit "


x = 1



print(x)
" ∧
  Py.count Py.nl (take (length unit - length source + 1) unit) = 7 ∧
  Py.count Py.nl (take (41 + 1) two_md) = 7.
Proof.
  intros st source unit.
  destruct (C2_line_alignment Toy.run Toy.python2_7 Toy.python3 Toy.root_dir
              (lit "doc.md") two_md) as [Hlocal Hpass].
  destruct (Hlocal 51 st 41) as [Hunit _];
    [reflexivity | lia | vm_compute; lia |].
  destruct (Hpass 3 32 51 {| host := initial_world ∅; yielded := [] |}
              (blocks Toy.run Toy.python2_7 Toy.python3 Toy.root_dir (lit "doc.md") two_md 0
                 (take 3 (Py.finditer fence two_md)) scan0
                 {| host := initial_world ∅; yielded := [] |}).1 st st)
    as (ss & Hss & Hline);
    [reflexivity | vm_compute; reflexivity | vm_compute; reflexivity
    | vm_compute; reflexivity | vm_compute; reflexivity | vm_compute; reflexivity
    | reflexivity | by left |].
  injection Hss as <-.
  subst unit source.
  split; [rewrite Hunit; vm_compute; reflexivity |].
  split; [| vm_compute; reflexivity].
  rewrite (Hline 1); [vm_compute; reflexivity | vm_compute; lia].
Defined.

(** ** What the executor writes to the error stream *)

Lemma cutoff_loop_found path pre : ∀ cutoff i line post,
  Forall (λ l, Py.contains path l = false) pre →
  Py.contains path line = true →
  cutoff_loop path cutoff i (pre ++ line :: post) = i + length pre.
Proof.
  induction pre as [|l pre IH]; intros cutoff i line post Hpre Hline; cbn [app cutoff_loop].
  - rewrite Hline. simpl. lia.
  - inversion Hpre as [|? ? Hl Hpre']; subst. rewrite Hl.
    rewrite IH by assumption. simpl. lia.
Qed.

Lemma cutoff_loop_none path lines : ∀ cutoff i,
  Forall (λ l, Py.contains path l = false) lines →
  cutoff_loop path cutoff i lines
  = match lines with [] => cutoff | _ :: _ => i + length lines - 1 end.
Proof.
  induction lines as [|l lines IH]; intros cutoff i Hall; cbn [cutoff_loop]; [done |].
  inversion Hall as [|? ? Hl Hall']; subst. rewrite Hl, IH by assumption.
  destruct lines; simpl; lia.
Qed.

Section Traceback.
Variable run : runtime.

Lemma exec_source_fatal_stderr path source w kind msg format_list :
  ended (run path source (handed w)) = Raised kind msg format_list →
  stderr (exec_source run path source false w).1
  = stderr w ++ captured (run path source (handed w))
    ++ lit "Traceback (most recent call last):" ++ [Py.nl]
    ++ concat (drop (cutoff_loop path 0 0 format_list) format_list).
Proof.
  intros He. unfold exec_source, handed in *. cbn [context set_context record_call].
  rewrite He.
  destruct (captured _) as [|c out];
    cbn [stderr set_context to_stderr fst app]; rewrite <- ?app_assoc; reflexivity.
Qed.

(** X1: when the code run in fatal mode raises, the error stream receives
    the output captured so far, the line [Traceback (most recent call
    last):], and the formatted traceback from its first line that names
    the path of the document: the lines before it, the frames of the
    tool itself, are dropped. *)
Theorem exec_source_traceback path source w kind msg pre line post :
  ended (run path source (handed w)) = Raised kind msg (pre ++ line :: post) →
  Forall (λ l, Py.contains path l = false) pre →
  Py.contains path line = true →
  stderr (exec_source run path source false w).1
  = stderr w ++ captured (run path source (handed w))
    ++ lit "Traceback (most recent call last):" ++ [Py.nl]
    ++ concat (line :: post).
Proof.
  intros He Hpre Hline. rewrite (exec_source_fatal_stderr _ _ _ _ _ _ He).
  rewrite cutoff_loop_found by assumption. cbn [Nat.add].
  by rewrite drop_app_length.
Qed.

(** X2: when no line of the formatted traceback names the path of the
    document, the loop ends on the last line: only that line, the
    exception itself, follows the header on the error stream. *)
Theorem exec_source_traceback_last path source w kind msg lines line :
  ended (run path source (handed w)) = Raised kind msg (lines ++ [line]) →
  Forall (λ l, Py.contains path l = false) (lines ++ [line]) →
  stderr (exec_source run path source false w).1
  = stderr w ++ captured (run path source (handed w))
    ++ lit "Traceback (most recent call last):" ++ [Py.nl] ++ line.
Proof.
  intros He Hall. rewrite (exec_source_fatal_stderr _ _ _ _ _ _ He).
  rewrite cutoff_loop_none by exact Hall.
  destruct (lines ++ [line]) eqn:E; [by destruct lines |].
  rewrite <- E, length_app. cbn [length Nat.add].
  replace (length lines + 1 - 1) with (length lines) by lia.
  rewrite drop_app_length. cbn [concat]. by rewrite app_nil_r.
Qed.

End Traceback.

(** The traceback of a [KeyError] raised after a line of output. *)
Lemma exec_source_traceback_witness :
  stderr (exec_source Toy.run (lit "doc.md") (lit "print('a')
raise KeyError('k')") false (initial_world ∅)).1
  = lit "a
Traceback (most recent call last):
  File doc.md, in <module>
KeyError: k
".
Proof.
  rewrite (exec_source_traceback Toy.run (lit "doc.md") _ (initial_world ∅)
             (lit "KeyError") (lit "k")
             [lit "Traceback (most recent call last):" ++ [Py.nl]]
             (lit "  File doc.md, in <module>" ++ [Py.nl])
             [lit "KeyError: k" ++ [Py.nl]]).
  - vm_compute. reflexivity.
  - vm_compute. reflexivity.
  - repeat constructor.
  - vm_compute. reflexivity.
Defined.

(** The traceback of an error none of whose frames is in the document. *)
Lemma exec_source_traceback_last_witness :
  stderr (exec_source frozen_run (lit "doc.md") (lit "x =") false (initial_world ∅)).1
  = lit "a
Traceback (most recent call last):
SyntaxError: invalid syntax
".
Proof.
  rewrite (exec_source_traceback_last frozen_run (lit "doc.md") _ (initial_world ∅)
             (lit "SyntaxError") (lit "invalid syntax")
             [lit "Traceback (most recent call last):
"; lit "  File <frozen>, line 1
"] (lit "SyntaxError: invalid syntax
")).
  - vm_compute. reflexivity.
  - reflexivity.
  - repeat constructor.
Defined.

(** ** [str.strip] and the last line of the diagnostics *)

Lemma lstrip_pad f a x : forallb f a = true → Py.lstrip f (a ++ x) = Py.lstrip f x.
Proof.
  induction a as [|c a IH]; [reflexivity |]. cbn [forallb app Py.lstrip].
  intros H. apply andb_true_iff in H as [-> H]. by apply IH.
Qed.

Lemma forallb_rev_eq {A} (f : A → bool) l : forallb f (rev l) = forallb f l.
Proof.
  induction l as [|c l IH]; [reflexivity |]. cbn [rev forallb].
  rewrite forallb_app, IH. cbn [forallb]. rewrite andb_true_r. apply andb_comm.
Qed.

Lemma rstrip_pad f x b : forallb f b = true → Py.rstrip f (x ++ b) = Py.rstrip f x.
Proof.
  intros H. unfold Py.rstrip. rewrite rev_app_distr, lstrip_pad; [reflexivity |].
  by rewrite forallb_rev_eq.
Qed.

Lemma lstrip_split f x : ∃ l, x = l ++ Py.lstrip f x ∧ forallb f l = true.
Proof.
  induction x as [|c x (l & Hx & Hl)]; [by exists [] |]. cbn [Py.lstrip].
  destruct (f c) eqn:E; [| by exists []].
  exists (c :: l). cbn [app forallb]. rewrite E, Hl. split; [by rewrite <- Hx | reflexivity].
Qed.

Lemma rstrip_split f x : ∃ r, x = Py.rstrip f x ++ r ∧ forallb f r = true.
Proof.
  destruct (lstrip_split f (rev x)) as (l & Hx & Hl).
  exists (rev l). rewrite forallb_rev_eq. split; [| exact Hl].
  unfold Py.rstrip. rewrite <- rev_app_distr, <- Hx. by rewrite rev_involutive.
Qed.

Lemma strip_by_split f x :
  ∃ l r, x = l ++ Py.strip_by f x ++ r ∧ forallb f l = true ∧ forallb f r = true.
Proof.
  destruct (lstrip_split f x) as (l & Hx & Hl).
  destruct (rstrip_split f (Py.lstrip f x)) as (r & Hr & Hfr).
  exists l, r. unfold Py.strip_by. by rewrite <- Hr.
Qed.

Lemma strip_by_pad f a x b :
  forallb f a = true → forallb f b = true →
  Py.strip_by f (a ++ x ++ b) = Py.strip_by f x.
Proof.
  intros Ha Hb. unfold Py.strip_by. rewrite lstrip_pad by exact Ha.
  induction x as [|c x IH]; cbn [app Py.lstrip].
  - rewrite <- (app_nil_r b), lstrip_pad by exact Hb. reflexivity.
  - destruct (f c); [exact IH |].
    change (c :: x ++ b) with ((c :: x) ++ b). by apply rstrip_pad.
Qed.

Lemma strip_by_idem f x : Py.strip_by f (Py.strip_by f x) = Py.strip_by f x.
Proof.
  destruct (strip_by_split f x) as (l & r & Hx & Hl & Hr).
  rewrite Hx at 2. by rewrite strip_by_pad.
Qed.

Lemma strip_nl_emitted x :
  Py.strip_nl (Py.nl :: Py.strip_nl x ++ [Py.nl]) = Py.strip_nl x.
Proof.
  unfold Py.strip_nl.
  change (Py.nl :: ?s ++ [Py.nl]) with ([Py.nl] ++ s ++ [Py.nl]).
  rewrite strip_by_pad by reflexivity. apply strip_by_idem.
Qed.

Lemma lstrip_head f t c r : Py.lstrip f t = c :: r → f c = false.
Proof.
  induction t as [|x t IH]; [discriminate |]. cbn [Py.lstrip].
  destruct (f x) eqn:E; [exact IH |]. by intros [= <- _].
Qed.

Lemma rstrip_last f t s c : Py.rstrip f t = s ++ [c] → f c = false.
Proof.
  unfold Py.rstrip. intros H. apply (f_equal (@rev ascii)) in H.
  rewrite rev_involutive, rev_app_distr in H. cbn [rev app] in H.
  by apply lstrip_head in H.
Qed.

Lemma last_line_spec t : ∀ acc,
  Py.nl ∉ acc →
  (Py.nl ∉ Py.last_line acc t) ∧
  ∃ pre, acc ++ t = pre ++ Py.last_line acc t ∧
         (pre = [] ∨ ∃ pre', pre = pre' ++ [Py.nl]).
Proof.
  induction t as [|c t IH]; intros acc Hacc; cbn [Py.last_line].
  - split; [exact Hacc |]. exists []. rewrite app_nil_r. split; [reflexivity | by left].
  - destruct (Ascii.eqb_spec c Py.nl) as [-> | Hc].
    + destruct (IH [] (not_elem_of_nil _)) as [Hn (pre & Heq & Hpre)].
      split; [exact Hn |]. cbn [app] in Heq.
      exists (acc ++ Py.nl :: pre). split.
      * rewrite <- app_assoc. cbn [app]. by rewrite <- Heq.
      * right. destruct Hpre as [-> | [pre' ->]].
        -- exists acc. reflexivity.
        -- exists (acc ++ Py.nl :: pre'). rewrite <- app_assoc. reflexivity.
    + destruct (IH (acc ++ [c])) as [Hn (pre & Heq & Hpre)].
      { intros H. apply elem_of_app in H as [H | H]; [by apply Hacc |].
        apply list_elem_of_singleton in H. by subst. }
      split; [exact Hn |]. exists pre. split; [| exact Hpre].
      rewrite <- Heq, <- app_assoc. reflexivity.
Qed.

(** X3: what [exec_syntax_error] returns is one line, the last one of the
    diagnostics of the child once the line breaks around them are
    removed: it holds no line break, what precedes it in the stripped
    diagnostics is empty or ends with a line break, and it is empty
    only when the child wrote line breaks only. *)
Theorem exec_syntax_error_last_line python3 source w output :
  python3 source = Some output →
  ∃ line pre,
    (exec_syntax_error python3 source w).2 = Ok line ∧
    (Py.nl ∉ line) ∧
    Py.strip_nl output = pre ++ line ∧
    (pre = [] ∨ ∃ pre', pre = pre' ++ [Py.nl]) ∧
    (line = [] → ∀ c, c ∈ output → c = Py.nl).
Proof.
  intros Hout. unfold exec_syntax_error. rewrite Hout.
  destruct (last_line_spec (Py.strip_nl output) [] (not_elem_of_nil _))
    as [Hn (pre & Heq & Hpre)].
  exists (Py.last_line [] (Py.strip_nl output)), pre.
  split; [reflexivity |]. split; [exact Hn |]. split; [exact Heq |]. split; [exact Hpre |].
  intros Hline c Hc. rewrite Hline, app_nil_r in Heq. cbn [app] in Heq.
  assert (Hs : Py.strip_nl output = []).
  { destruct Hpre as [-> | [pre' ->]]; [exact Heq |].
    unfold Py.strip_nl, Py.strip_by in Heq. apply rstrip_last in Heq.
    discriminate Heq. }
  destruct (strip_by_split (λ x, Ascii.eqb x Py.nl) output) as (l & r & Hx & Hl & Hr).
  fold (Py.strip_nl output) in Hx. rewrite Hs in Hx. cbn [app] in Hx.
  rewrite Hx in Hc. apply elem_of_app in Hc as [Hc | Hc];
    apply list_elem_of_In in Hc;
    [ eapply forallb_forall in Hl | eapply forallb_forall in Hr ]; try eassumption;
    by apply Ascii.eqb_eq.
Qed.

(** The last line of the diagnostics of an unfinished expression. *)
Lemma exec_syntax_error_last_line_witness :
  let w := initial_world ∅ in
  ∃ line, (exec_syntax_error Toy.python3 (lit "x = (") w).2 = Ok line ∧ (Py.nl ∉ line).
Proof.
  intros w.
  destruct (exec_syntax_error_last_line Toy.python3 (lit "x = (") w
              (lit "  File <stdin>, line 1
    x = (
SyntaxError: invalid syntax
")) as (line & pre & Hrun & Hnl & _); [vm_compute; reflexivity |].
  exists line. split; [exact Hrun | exact Hnl].
Defined.

(** ** The [python2] and the include blocks *)

Section Tagged.
Variable run : runtime.
Variable python2_7 : str → child.
Variable python3 : str → option str.
Variable root_dir : str.

(** X4: a [python2] block is emitted with the comment line [# Python 2] at
    the head of its body: the line is added when the body does not start
    with it, so that emitting the emitted body adds nothing.  The child
    is given the body as it is written in the document and what it
    prints is added to the pending output.  The fragments are yielded
    before the child runs: they are there also when the child exits
    with another status than 0, which raises [CalledProcessError], and
    when there is no [python2.7] to start, which raises
    [FileNotFoundError]. *)
Theorem python2_marker path text start st m :
  block_suffix st = lit "python2" →
  let source := Py.slice_from (source_start st) start text in
  let marker := Py.nl :: lit "# Python 2" in
  let shown := (if Py.startswith marker source then [] else marker) ++ source in
  let c := closing run python2_7 python3 root_dir path text start st m in
  (∃ ys, yielded c.1 = yielded m ++ ys ∧
         concat ys = fence ++ lit "python2" ++ shown ++ fence) ∧
  Py.startswith marker shown = true ∧
  (if Py.startswith marker shown then [] else marker) ++ shown = shown ∧
  c.2 = match python2_7 source with
        | Exited0 out =>
            Ok (set_pending_output (pending_output st ++ out)
                  (set_text_start (start + 3) st))
        | ExitedNonzero => Raise CalledProcessError
        | Missing => Raise (FileNotFoundError (lit "python2.7"))
        end.
Proof.
  intros Htag source marker shown c.
  assert (Hs : Py.startswith marker shown = true).
  { subst shown. destruct (Py.startswith marker source) eqn:E; [exact E |].
    apply (startswith_mono marker marker source). reflexivity. }
  subst c. rewrite (closing_python2 run python2_7 python3 root_dir) by exact Htag.
  rewrite python2_block_run. cbn zeta. cbn [fst snd host yielded pending_output set_text_start].
  fold source. fold marker.
  split; [| split; [exact Hs | split; [by rewrite Hs | reflexivity]]].
  eexists. split; [reflexivity |].
  subst shown. destruct (Py.startswith marker source); cbn [negb app concat];
    rewrite ?app_nil_r, <- ?app_assoc; reflexivity.
Qed.

(** X5: a block whose tag starts with [python-include:] is replaced by the
    file the tag names, under [root_dir]: the tag, a comment line with
    the base name of the file, the contents of the file without the
    white space around them, and the closing fence on a line of its own.
    What the block held is dropped, nothing is executed, and the pending
    source and output are as they were.  When the file is missing,
    [FileNotFoundError] is raised before anything is yielded. *)
Theorem closing_include path text start st m :
  is_python_include (block_suffix st) = true →
  let include_path := drop 15 (block_suffix st) in
  let full_path := Py.path_join root_dir include_path in
  closing run python2_7 python3 root_dir path text start st m =
  match files (host m) !! full_path with
  | Some data =>
      ({| host := host m;
          yielded := yielded m ++ [fence ++ block_suffix st ++ [Py.nl];
                                   lit "# " ++ Py.basename [] include_path ++ [Py.nl];
                                   Py.strip data; Py.nl :: fence] |},
       Ok (set_text_start (start + 3) st))
  | None => (m, Raise (FileNotFoundError full_path))
  end.
Proof.
  intros Hinc include_path full_path. unfold closing.
  cbn [block_suffix set_text_start].
  assert (Hno : ∀ t, Py.startswith (lit "python-include:") t = false →
                     bool_decide (block_suffix st = t) = false).
  { intros t Ht. apply bool_decide_eq_false. intros E. unfold is_python_include in Hinc.
    rewrite E in Hinc. congruence. }
  unfold is_python, is_python_exception, is_python2, is_python_syntax_error.
  rewrite !Hno by reflexivity. cbn [orb]. rewrite Hinc.
  unfold include_block. rewrite bind_call.
  change (length (lit "python-include:")) with 15. change (length fence) with 3.
  cbn [block_suffix set_text_start]. fold include_path. fold full_path.
  destruct (files (host m) !! full_path) as [data|]; cbv beta iota;
    [| by rewrite machine_eta].
  rewrite !bind_yield. unfold ret. cbn [host yielded].
  rewrite <- ?app_assoc. reflexivity.
Qed.

End Tagged.

(** A [python2] block without the comment line. *)
Lemma python2_marker_witness :
  let text := lit "```python2
print('a')
```" in
  let st := {| text_start := 0; source_start := Some 10; block_suffix := lit "python2";
               pending_source := []; pending_output := [] |} in
  let m := {| host := initial_world ∅; yielded := [] |} in
  let c := closing Toy.run Toy.python2_7 Toy.python3 Toy.root_dir (lit "doc.md")
             text 22 st m in
  (∃ ys, yielded c.1 = ys ∧ concat ys = lit "```python2
# Python 2
print('a')
```") ∧
  c.2 = Ok (set_pending_output (lit "a
") (set_text_start 25 st)).
Proof.
  intros text st m c.
  destruct (python2_marker Toy.run Toy.python2_7 Toy.python3 Toy.root_dir (lit "doc.md")
              text 22 st m eq_refl) as (Hys & _ & _ & Hr).
  split; [exact Hys | exact Hr].
Defined.

(** An include block whose body is stale. *)
Lemma closing_include_witness :
  let text := lit "```python-include:ch1/a.py
# old.py
y = 2
```" in
  let st := {| text_start := 0; source_start := Some 26;
               block_suffix := lit "python-include:ch1/a.py";
               pending_source := lit "z = 3"; pending_output := [] |} in
  let m := {| host := initial_world book; yielded := [] |} in
  closing Toy.run Toy.python2_7 Toy.python3 Toy.root_dir (lit "doc.md") text 42 st m
  = ({| host := initial_world book;
        yielded := [lit "```python-include:ch1/a.py
"; lit "# a.py
"; lit "x = 1"; lit "
```"] |}, Ok (set_text_start 45 st)).
Proof.
  intros text st m.
  rewrite (closing_include Toy.run Toy.python2_7 Toy.python3 Toy.root_dir (lit "doc.md")
             text 42 st m eq_refl).
  vm_compute. reflexivity.
Defined.

(** ** Whole documents: code blocks, a listing, an unclosed fence *)

Lemma lower_char_nl c : Py.lower_char c = Py.nl → c = Py.nl.
Proof.
  destruct c as [[] [] [] [] [] [] [] []]; vm_compute; intros H;
    first [exact H | discriminate H].
Qed.

Lemma lower_no_nl t : Py.nl ∉ Py.lower t → forallb (λ c, negb (Ascii.eqb c Py.nl)) t = true.
Proof.
  induction t as [|c t IH]; [reflexivity |]. cbn [Py.lower map forallb]. intros H.
  apply not_elem_of_cons in H as [Hc Ht]. rewrite (IH Ht), andb_true_r.
  apply negb_true_iff, Ascii.eqb_neq. intros ->. by apply Hc.
Qed.

Lemma count_no_nl t :
  forallb (λ c, negb (Ascii.eqb c Py.nl)) t = true → Py.count Py.nl t = 0.
Proof.
  induction t as [|c t IH]; [reflexivity |]. cbn [forallb Py.count]. intros H.
  apply andb_true_iff in H as [Hc Ht]. apply negb_true_iff in Hc.
  by rewrite Hc, IH.
Qed.

Lemma last_gap_cons gap b bs : last_gap gap (b :: bs) = last_gap (after b) bs.
Proof.
  unfold last_gap. destruct bs as [|b' bs]; [reflexivity |].
  change (last (b :: b' :: bs)) with (last (b' :: bs)).
  revert b'. induction bs as [|b'' bs IH]; intros b'; [reflexivity |].
  change (last (b' :: b'' :: bs)) with (last (b'' :: bs)). apply IH.
Qed.

Lemma python_source_cons gap b bs : python_source gap (b :: bs) ≠ [].
Proof. cbn [python_source]. unfold blank. destruct (repeat _ _); discriminate. Qed.

Section Scanner.
Variable run : runtime.
Variable python2_7 : str → child.
Variable python3 : str → option str.
Variable root_dir : str.

(** One block of the document: the scanner yields the prose before it,
    reads the tag, and hands the text between the tag and the closing
    fence to [closing]. *)
Lemma blocks_block path text pre gap t body rest st m k :
  text = pre ++ gap ++ fence ++ (t ++ Py.nl :: body) ++ fence ++ rest →
  k mod 2 = 0 →
  fence_free gap = true → fence_free (t ++ Py.nl :: body) = true →
  forallb (λ c, negb (Ascii.eqb c Py.nl)) t = true →
  text_start st = length pre →
  let open_ := length pre + length gap in
  let close := open_ + 3 + length (t ++ Py.nl :: body) in
  let st1 := set_suffix (Py.lower t) (Some (open_ + 3 + length t)) st in
  let m1 := {| host := host m; yielded := yielded m ++ [gap] |} in
  Py.slice_from (source_start st1) close text = Py.nl :: body ∧
  Py.slice_to (source_start st1) text = pre ++ gap ++ fence ++ t ∧
  blocks run python2_7 python3 root_dir path text k
    (Py.finditer_from fence (length pre) 0
       (gap ++ fence ++ (t ++ Py.nl :: body) ++ fence ++ rest)) st m
  = match closing run python2_7 python3 root_dir path text close st1 m1 with
    | (m', Ok st') =>
        blocks run python2_7 python3 root_dir path text (S (S k))
          (Py.finditer_from fence (close + 3) 0 rest) st' m'
    | (m', Raise e) => (m', Raise e)
    end.
Proof.
  intros Htext Hk Hgap Hinner Hnl Hts open_ close st1 m1.
  destruct (parity k Hk) as (Hk0 & Hk1 & Hk2).
  assert (Hsplit : text = (pre ++ gap ++ fence ++ t) ++ (Py.nl :: body) ++ (fence ++ rest)).
  { rewrite Htext. rewrite <- ?app_assoc; simpl; rewrite <- ?app_assoc. reflexivity. }
  assert (Hlen : open_ + 3 + length t = length (pre ++ gap ++ fence ++ t))
    by (rewrite !length_app; simpl; unfold open_; lia).
  assert (Hclose : close = length (pre ++ gap ++ fence ++ t) + length (Py.nl :: body))
    by (unfold close; rewrite !length_app; simpl; unfold open_; lia).
  split; [| split].
  - cbn [st1 set_suffix source_start Py.slice_from].
    rewrite Hsplit at 1. rewrite Hlen, Hclose. apply slice_mid.
  - cbn [st1 set_suffix source_start Py.slice_to].
    rewrite Hsplit at 1. rewrite Hlen. apply take_app_length.
  - rewrite finditer_from_fence by exact Hgap.
    rewrite finditer_from_fence by exact Hinner.
    fold open_. fold close.
    rewrite blocks_cons, Hk0, opening_run.
    assert (Hfind : Py.find Py.nl (open_ + 3) text = Z.of_nat (open_ + 3 + length t)).
    { rewrite Htext.
      replace (pre ++ gap ++ fence ++ (t ++ Py.nl :: body) ++ fence ++ rest)
        with ((pre ++ gap ++ fence) ++ t ++ Py.nl :: (body ++ fence ++ rest))
        by (rewrite <- ?app_assoc; simpl; rewrite <- ?app_assoc; reflexivity).
      replace (open_ + 3) with (length (pre ++ gap ++ fence))
        by (rewrite !length_app; simpl; unfold open_; lia).
      apply find_nl. exact Hnl. }
    cbn zeta. rewrite Hfind.
    assert (Hpos : (0 <? Z.of_nat (open_ + 3 + length t))%Z = true)
      by (apply Z.ltb_lt; lia).
    rewrite Hpos, Nat2Z.id.
    assert (Htag_slice : Py.slice (open_ + 3) (open_ + 3 + length t) text = t).
    { rewrite Htext.
      replace (pre ++ gap ++ fence ++ (t ++ Py.nl :: body) ++ fence ++ rest)
        with ((pre ++ gap ++ fence) ++ t ++ Py.nl :: (body ++ fence ++ rest))
        by (rewrite <- ?app_assoc; simpl; rewrite <- ?app_assoc; reflexivity).
      replace (open_ + 3) with (length (pre ++ gap ++ fence))
        by (rewrite !length_app; simpl; unfold open_; lia).
      apply slice_mid. }
    rewrite Htag_slice.
    assert (Hll : length (Py.lower t) = length t) by (unfold Py.lower; apply length_map).
    rewrite Hll. cbn [text_start set_suffix].
    assert (Hgap_slice : Py.slice (text_start st) open_ text = gap).
    { rewrite Hts, Htext. unfold open_. apply slice_mid. }
    rewrite Hgap_slice.
    rewrite blocks_cons, Hk1. reflexivity.
Qed.

(** A run of [python] blocks, whatever follows them: they are yielded
    as they are read and their bodies accumulate, nothing is executed. *)
Lemma blocks_python path text bs : ∀ pre gap rest st m k,
  text = pre ++ gap ++ flat_map written bs ++ rest →
  k mod 2 = 0 →
  fence_free gap = true → forallb python_code bs = true →
  text_start st = length pre →
  Py.count Py.nl (pending_source st) = Py.count Py.nl pre →
  ∃ pre' ys st' k',
    let gap' := last_gap gap bs in
    text = pre' ++ gap' ++ rest ∧ k' mod 2 = 0 ∧ fence_free gap' = true ∧
    text_start st' = length pre' ∧
    Py.count Py.nl (pending_source st') = Py.count Py.nl pre' ∧
    pending_source st' = pending_source st ++ python_source gap bs ∧
    pending_output st' = pending_output st ∧
    concat ys ++ gap' = gap ++ flat_map echoed bs ∧
    blocks run python2_7 python3 root_dir path text k
      (Py.finditer_from fence (length pre) 0 (gap ++ flat_map written bs ++ rest)) st m
    = blocks run python2_7 python3 root_dir path text k'
        (Py.finditer_from fence (length pre') 0 (gap' ++ rest)) st'
        {| host := host m; yielded := yielded m ++ ys |}.
Proof.
  induction bs as [|b bs IH]; intros pre gap rest st m k Htext Hk Hgap Hbs Hts Hps.
  - exists pre, [], st, k. cbn [flat_map python_source app concat] in *.
    change (last_gap gap []) with gap. cbn zeta.
    rewrite !app_nil_r, machine_eta. done.
  - cbn [forallb] in Hbs. apply andb_true_iff in Hbs as [Hb Hbs].
    unfold python_code in Hb.
    apply andb_true_iff in Hb as [Hb Hafter]. apply andb_true_iff in Hb as [Htag Hinner].
    apply bool_decide_eq_true in Htag.
    assert (Hnl : forallb (λ c, negb (Ascii.eqb c Py.nl)) (tag b) = true).
    { apply lower_no_nl. rewrite Htag. intros H.
      apply list_elem_of_In in H. vm_compute in H. intuition discriminate. }
    set (tail := after b ++ flat_map written bs ++ rest).
    assert (Hdoc : gap ++ flat_map written (b :: bs) ++ rest
                   = gap ++ fence ++ (tag b ++ Py.nl :: body b) ++ fence ++ tail).
    { cbn [flat_map]. unfold written, tail.
      rewrite <- ?app_assoc. simpl. rewrite <- ?app_assoc. reflexivity. }
    rewrite Hdoc in *.
    destruct (blocks_block path text pre gap (tag b) (body b) tail st m k
                Htext Hk Hgap Hinner Hnl Hts) as (Hsrc & Hto & Hrun).
    rewrite Hrun. clear Hrun.
    rewrite (closing_python run python2_7 python3 root_dir)
      by (cbn [block_suffix set_suffix]; rewrite Htag; reflexivity).
    rewrite python_block_run by (cbn; exact Htag).
    rewrite Hsrc. cbn [host yielded].
    set (open_ := length pre + length gap) in *.
    set (close := open_ + 3 + length (tag b ++ Py.nl :: body b)) in *.
    set (st1 := set_text_start (close + 3) _).
    assert (Hacc : pending_source (accumulate text (Py.nl :: body b) st1)
                   = pending_source st ++ blank gap ++ Py.nl :: body b).
    { unfold accumulate, st1.
      cbn [pending_source set_pending_source set_text_start source_start] in *.
      rewrite Hto. cbn [set_suffix pending_source].
      rewrite !count_app, (count_no_nl _ Hnl), Hps.
      change (Py.count Py.nl fence) with 0.
      replace (Z.to_nat _) with (Py.count Py.nl gap) by lia.
      unfold blank. rewrite <- ?app_assoc. reflexivity. }
    set (st2 := accumulate text (Py.nl :: body b) st1) in *.
    set (m2 := {| host := host m; yielded := _ |}).
    destruct (IH (pre ++ gap ++ fence ++ (tag b ++ Py.nl :: body b) ++ fence) (after b)
                rest st2 m2 (S (S k)))
      as (pre' & ys & st' & k' & Htext' & Hk' & Hgap' & Hts' & Hcnt' & Hps' & Hpo'
          & Hout & Hrun).
    + rewrite Htext. unfold tail. rewrite <- ?app_assoc. reflexivity.
    + by destruct (parity k Hk) as (_ & _ & ?).
    + exact Hafter.
    + exact Hbs.
    + subst st2. unfold accumulate, st1.
      cbn [text_start set_pending_source set_text_start].
      rewrite !length_app. simpl. unfold close, open_. rewrite !length_app. simpl. lia.
    + rewrite Hacc. unfold blank.
      rewrite !count_app, count_repeat, Hps. cbn [Py.count].
      rewrite ?count_app, (count_no_nl _ Hnl).
      change (Py.count Py.nl fence) with 0. cbn [Py.count].
      rewrite Ascii.eqb_refl. lia.
    + replace (length (pre ++ gap ++ fence ++ (tag b ++ Py.nl :: body b) ++ fence))
        with (close + 3) in Hrun
        by (rewrite !length_app; simpl; unfold close, open_; rewrite !length_app; simpl; lia).
      fold tail in Hrun. rewrite Hrun. subst m2. cbn [host yielded].
      exists pre', (gap :: (fence ++ lit "python") :: (Py.nl :: body b) :: fence :: ys),
        st', k'.
      cbn zeta. rewrite last_gap_cons.
      split; [exact Htext' |]. split; [exact Hk' |]. split; [exact Hgap' |].
      split; [exact Hts' |]. split; [exact Hcnt' |].
      split; [rewrite Hps', Hacc; cbn [python_source]; rewrite <- ?app_assoc; reflexivity |].
      split; [rewrite Hpo'; reflexivity |].
      split; [| rewrite <- ?app_assoc; reflexivity].
      cbn [concat]. rewrite <- ?app_assoc. rewrite Hout.
      cbn [flat_map]. unfold echoed.
      simpl. rewrite <- ?app_assoc. simpl. rewrite <- ?app_assoc. reflexivity.
Qed.

(** X6: a document whose blocks are all [python] blocks is yielded as it
    is, but for the case of the tags, before anything is executed.  Then
    the bodies are executed, once and together, as one source in which
    each body is on the lines it has in the document, what is outside
    the bodies being reduced to its line breaks.  The pass ends as that
    execution ends. *)
Theorem iterate_python_document path prose bs w :
  fence_free prose = true → forallb python_code bs = true →
  ∃ ys,
    concat ys = prose ++ flat_map echoed bs ∧
    consume (iterate_blocks run python2_7 python3 root_dir path (document prose bs)) w =
    match bs with
    | [] => ({| host := w; yielded := ys |}, Ok tt)
    | _ :: _ =>
        let '(w', r) := exec_source run path (python_source prose bs) false w in
        ({| host := w'; yielded := ys |},
         match r with Ok _ => Ok tt | Raise e => Raise e end)
    end.
Proof.
  intros Hprose Hbs.
  destruct (blocks_python path (document prose bs) bs [] prose [] scan0
              {| host := w; yielded := [] |} 0)
    as (pre' & ys & st' & k' & Htext & Hk' & Hgap' & Hts & _ & Hps & _ & Hout & Hrun);
    try done.
  { unfold document. by rewrite app_nil_r. }
  cbn zeta in *. set (gap' := last_gap prose bs) in *.
  cbn [length app host yielded pending_source scan0] in Hrun, Hps.
  rewrite !app_nil_r in Hrun. rewrite app_nil_r in Htext.
  rewrite (finditer_from_free gap') in Hrun by exact Hgap'. cbn [blocks] in Hrun.
  exists (ys ++ [gap']).
  split; [rewrite concat_app; cbn [concat]; rewrite app_nil_r; exact Hout |].
  unfold consume, iterate_blocks, Py.finditer.
  unfold bind at 1. change (prose ++ flat_map written bs) with (document prose bs) in Hrun.
  rewrite Hrun. unfold ret at 1.
  assert (Hdrop : drop (length pre') (document prose bs) = gap')
    by (rewrite Htext; apply drop_app_length).
  unfold finish. rewrite bind_yield, Hps, Hts, Hdrop. cbn [host yielded].
  destruct bs as [|b bs]; [reflexivity |].
  destruct (python_source prose (b :: bs)) as [|c src] eqn:E;
    [by destruct (python_source_cons prose b bs) |].
  rewrite bind_call. cbn [host yielded].
  destruct (exec_source _ _ _ _ _) as [w' [out | e]]; reflexivity.
Qed.

(** X7: a listing: [python] blocks and then an output block.  The code is
    executed once, when the closing fence of the output block is
    reached, as one source in which each body is on the lines it has in
    the document.  When the execution returns, the output block is
    emitted with what it printed, without the line breaks around it, and
    the pass ends well; when it raises, the pass raises with it and what
    has been yielded is the document up to the opening fence of the
    output block.  Without a block of code the output block keeps its
    text. *)
Theorem iterate_listing path prose cs o w :
  fence_free prose = true → forallb python_code cs = true → plain_block o = true →
  let shown out :=
    fence ++ Py.lower (tag o) ++ Py.nl :: Py.strip_nl out ++ Py.nl :: fence ++ after o in
  let '(w', r) :=
    match cs with
    | [] => (w, Ok (Py.nl :: body o))
    | _ :: _ => exec_source run path (python_source prose cs) false w
    end in
  ∃ ys,
    consume (iterate_blocks run python2_7 python3 root_dir path
               (document prose (cs ++ [o]))) w
    = ({| host := w'; yielded := ys |},
       match r with Ok _ => Ok tt | Raise e => Raise e end) ∧
    concat ys = prose ++ flat_map echoed cs
                ++ match r with Ok out => shown out | Raise _ => [] end.
Proof.
  intros Hprose Hcs Ho shown.
  set (text := document prose (cs ++ [o])).
  unfold plain_block in Ho.
  apply andb_true_iff in Ho as [Ho Htag]. apply andb_true_iff in Ho as [Ho Hafter].
  apply andb_true_iff in Ho as [Hnl Hinner].
  destruct (blocks_python path text cs [] prose (written o) scan0
              {| host := w; yielded := [] |} 0)
    as (pre' & ys & st' & k' & Htext & Hk' & Hgap' & Hts & _ & Hps & Hpo & Hout & Hrun);
    try done.
  { unfold text, document. rewrite flat_map_app. cbn [flat_map]. by rewrite app_nil_r. }
  cbn zeta in *. set (gap' := last_gap prose cs) in *.
  cbn [length app host yielded pending_source pending_output scan0] in Hrun, Hps, Hpo.
  assert (Htext' : text = pre' ++ gap' ++ fence ++ (tag o ++ Py.nl :: body o) ++ fence ++ after o).
  { rewrite Htext. unfold written. rewrite <- ?app_assoc. reflexivity. }
  destruct (blocks_block path text pre' gap' (tag o) (body o) (after o) st'
              {| host := w; yielded := ys |} k' Htext' Hk' Hgap' Hinner Hnl Hts)
    as (Hsrc & _ & Hstep).
  assert (Hw : written o = fence ++ (tag o ++ Py.nl :: body o) ++ fence ++ after o)
    by (unfold written; rewrite <- ?app_assoc; reflexivity).
  rewrite Hw in Hrun. rewrite Hstep in Hrun. clear Hstep.
  rewrite (closing_output run python2_7 python3 root_dir) in Hrun
    by (cbn [block_suffix set_suffix]; exact Htag).
  rewrite Hsrc in Hrun. rewrite output_block_run in Hrun.
  cbn [pending_source pending_output set_text_start set_suffix block_suffix host yielded]
    in Hrun.
  rewrite Hps, Hpo in Hrun.
  rewrite (finditer_from_free (after o)) in Hrun by exact Hafter.
  set (close := length pre' + length gap' + 3 + length (tag o ++ Py.nl :: body o)) in *.
  assert (Hdrop : drop (close + 3) text = after o).
  { rewrite Htext'.
    replace (pre' ++ gap' ++ fence ++ (tag o ++ Py.nl :: body o) ++ fence ++ after o)
      with ((pre' ++ gap' ++ fence ++ (tag o ++ Py.nl :: body o) ++ fence) ++ after o)
      by (rewrite <- ?app_assoc; reflexivity).
    replace (close + 3)
      with (length (pre' ++ gap' ++ fence ++ (tag o ++ Py.nl :: body o) ++ fence))
      by (unfold close; rewrite !length_app; simpl; lia).
    apply drop_app_length. }
  assert (Hfin : ∀ content,
    finish run path text
      (set_pending_output []
         (set_pending_source []
            (set_text_start (close + 3)
               (set_suffix (Py.lower (tag o))
                  (Some (length pre' + length gap' + 3 + length (tag o))) st'))))
      {| host := w;
         yielded := (ys ++ [gap'])
                    ++ [fence ++ Py.lower (tag o) ++ [Py.nl]; Py.strip_nl content;
                        Py.nl :: fence] |}
    = ({| host := w;
          yielded := ys ++ [gap'; fence ++ Py.lower (tag o) ++ [Py.nl];
                            Py.strip_nl content; Py.nl :: fence; after o] |}, Ok tt)).
  { intros content. unfold finish. rewrite bind_yield.
    cbn [pending_source set_pending_output set_pending_source text_start set_text_start
         host yielded].
    rewrite Hdrop. unfold ret. rewrite <- ?app_assoc. reflexivity. }
  assert (Hcat : ∀ content,
    concat (ys ++ [gap'; fence ++ Py.lower (tag o) ++ [Py.nl];
                   Py.strip_nl content; Py.nl :: fence; after o])
    = prose ++ flat_map echoed cs ++ shown content).
  { intros content. rewrite concat_app. cbn [concat].
    rewrite app_assoc, Hout. unfold shown.
    rewrite <- ?app_assoc. simpl. rewrite <- ?app_assoc. rewrite app_nil_r. reflexivity. }
  unfold consume, iterate_blocks, Py.finditer.
  change (document prose (cs ++ [o])) with text.
  assert (Hall : text = prose ++ flat_map written cs ++ written o).
  { unfold text, document. rewrite flat_map_app. cbn [flat_map]. by rewrite app_nil_r. }
  rewrite <- Hw, <- Hall in Hrun.
  destruct cs as [|c cs].
  - cbn [python_source] in Hrun. cbn [blocks] in Hrun. unfold ret in Hrun.
    eexists. unfold bind at 1. rewrite Hrun. split; [apply Hfin | apply Hcat].
  - destruct (python_source prose (c :: cs)) as [|ch src] eqn:E;
      [by destruct (python_source_cons prose c cs) |].
    cbn [app] in Hrun.
    destruct (exec_source run path (ch :: src) false w) as [w' [out | e]] eqn:Hexec.
    + cbn [blocks] in Hrun. unfold ret in Hrun.
      eexists. unfold bind at 1. rewrite Hrun.
      pose proof (Hfin out) as Hf. unfold finish in Hf |- *.
      rewrite bind_yield in Hf |- *.
      cbn [pending_source set_pending_output set_pending_source text_start set_text_start
         host yielded] in Hf |- *.
      rewrite Hdrop. unfold ret. split; [reflexivity |].
      rewrite <- (Hcat out). rewrite <- ?app_assoc. reflexivity.
    + eexists. unfold bind at 1. rewrite Hrun. split; [reflexivity |].
      rewrite app_nil_r. rewrite concat_app. cbn [concat]. rewrite app_nil_r. exact Hout.
Qed.

(** X8: a fence that is not closed: the prose before it is yielded when the
    fence is read and again with what is left of the document, since
    only a closing fence moves the start of the text to yield.  The
    output holds that prose twice; what follows the fence is not
    executed, the code of the blocks before it is. *)
Theorem unclosed_fence path prose cs tail w :
  fence_free prose = true → forallb python_code cs = true → fence_free tail = true →
  let text := document prose cs ++ fence ++ tail in
  let gap := last_gap prose cs in
  ∃ ys,
    concat ys = prose ++ flat_map echoed cs ++ gap ++ fence ++ tail ∧
    consume (iterate_blocks run python2_7 python3 root_dir path text) w =
    match cs with
    | [] => ({| host := w; yielded := ys |}, Ok tt)
    | _ :: _ =>
        let '(w', r) := exec_source run path (python_source prose cs) false w in
        ({| host := w'; yielded := ys |},
         match r with Ok _ => Ok tt | Raise e => Raise e end)
    end.
Proof.
  intros Hprose Hcs Htail text gap.
  assert (Hall : text = prose ++ flat_map written cs ++ fence ++ tail)
    by (unfold text, document; rewrite <- app_assoc; reflexivity).
  destruct (blocks_python path text cs [] prose (fence ++ tail) scan0
              {| host := w; yielded := [] |} 0)
    as (pre' & ys & st' & k' & Htext & Hk' & Hgap' & Hts & _ & Hps & _ & Hout & Hrun);
    try done.
  cbn zeta in *. fold gap in Htext, Hgap', Hout, Hrun.
  cbn [length app host yielded pending_source scan0] in Hrun, Hps.
  rewrite <- Hall in Hrun.
  rewrite finditer_from_fence in Hrun by exact Hgap'.
  rewrite (finditer_from_free tail) in Hrun by exact Htail.
  rewrite blocks_cons in Hrun. destruct (parity k' Hk') as (Hk0 & _ & _).
  rewrite Hk0, opening_run in Hrun. cbn zeta in Hrun. cbn [blocks] in Hrun.
  unfold ret in Hrun.
  set (st2 := if (0 <? _)%Z then _ else _) in Hrun.
  assert (Hst : text_start st2 = length pre' ∧ pending_source st2 = python_source prose cs).
  { subst st2. destruct (0 <? _)%Z; cbn [text_start pending_source set_suffix]; done. }
  destruct Hst as [Hts2 Hps2].
  assert (Hslice : Py.slice (text_start st2) (length pre' + length gap) text = gap)
    by (rewrite Hts2, Htext; apply slice_mid).
  assert (Hdrop : drop (text_start st2) text = gap ++ fence ++ tail)
    by (rewrite Hts2, Htext; apply drop_app_length).
  rewrite Hslice in Hrun.
  exists ((ys ++ [gap]) ++ [gap ++ fence ++ tail]).
  split.
  { rewrite !concat_app. cbn [concat]. rewrite !app_nil_r.
    rewrite Hout, <- ?app_assoc. reflexivity. }
  unfold consume, iterate_blocks, Py.finditer.
  unfold bind at 1. rewrite Hrun.
  unfold finish. rewrite bind_yield, Hps2, Hdrop. cbn [host yielded].
  destruct cs as [|c cs]; [reflexivity |].
  destruct (python_source prose (c :: cs)) as [|ch src] eqn:E;
    [by destruct (python_source_cons prose c cs) |].
  rewrite bind_call. cbn [host yielded].
  destruct (exec_source _ _ _ _ _) as [w' [out | e]]; reflexivity.
Qed.

End Scanner.

(** A document of two blocks of code, the tag of the first in upper
    case: the code is run as one source of eight lines. *)
Lemma iterate_python_document_witness :
  ∃ ys,
    concat ys = lit "One
```python
x = 1
```
two
```python
print(x)
```
" ∧
    consume (iterate_blocks Toy.run Toy.python2_7 Toy.python3 Toy.root_dir (lit "doc.md")
               (lit "One
```Python
x = 1
```
two
```python
print(x)
```
")) (initial_world ∅)
    = ({| host := (exec_source Toy.run (lit "doc.md") (lit "

x = 1



print(x)
") false (initial_world ∅)).1; yielded := ys |}, Ok tt).
Proof.
  destruct (iterate_python_document Toy.run Toy.python2_7 Toy.python3 Toy.root_dir
              (lit "doc.md") (lit "One
")
              [ {| tag := lit "Python"; body := lit "x = 1
"; after := lit "
two
" |};
                {| tag := lit "python"; body := lit "print(x)
"; after := lit "
" |} ] (initial_world ∅)) as (ys & Hys & Hrun);
    [vm_compute; reflexivity | vm_compute; reflexivity |].
  exists ys. split; [exact Hys |]. exact Hrun.
Defined.

(** A listing whose output block is stale. *)
Lemma iterate_listing_witness :
  ∃ ys,
    (consume (iterate_blocks Toy.run Toy.python2_7 Toy.python3 Toy.root_dir (lit "doc.md")
                (lit "Sum:
```python
x = 4
print(x)
```
gives
```
old
```
.")) (initial_world ∅)).2 = Ok tt ∧
    yielded (consume (iterate_blocks Toy.run Toy.python2_7 Toy.python3 Toy.root_dir
                        (lit "doc.md") (lit "Sum:
```python
x = 4
print(x)
```
gives
```
old
```
.")) (initial_world ∅)).1 = ys ∧
    concat ys = lit "Sum:
```python
x = 4
print(x)
```
gives
```
4
```
.".
Proof.
  pose proof (iterate_listing Toy.run Toy.python2_7 Toy.python3 Toy.root_dir (lit "doc.md")
                (lit "Sum:
")
                [ {| tag := lit "python"; body := lit "x = 4
print(x)
"; after := lit "
gives
" |} ]
                {| tag := []; body := lit "old
"; after := lit "
." |} (initial_world ∅)) as H.
  cbn zeta in H.
  destruct (exec_source Toy.run _ _ _ _) as [w' r] eqn:E in H.
  vm_compute in E. injection E as _ <-.
  destruct H as (ys & Hrun & Hcat); [vm_compute; reflexivity ..|].
  exists ys. split; [| split].
  - exact (f_equal snd Hrun).
  - exact (f_equal (λ c, yielded c.1) Hrun).
  - exact Hcat.
Defined.

(** A document that ends in a block that is not closed. *)
Lemma unclosed_fence_witness :
  ∃ ys,
    concat ys = lit "Draft
Draft
```python
x = 1" ∧
    consume (iterate_blocks Toy.run Toy.python2_7 Toy.python3 Toy.root_dir (lit "doc.md")
               (lit "Draft
```python
x = 1")) (initial_world ∅)
    = ({| host := initial_world ∅; yielded := ys |}, Ok tt).
Proof.
  destruct (unclosed_fence Toy.run Toy.python2_7 Toy.python3 Toy.root_dir (lit "doc.md")
              (lit "Draft
") [] (lit "python
x = 1") (initial_world ∅)) as (ys & Hys & Hrun);
    [vm_compute; reflexivity ..|].
  exists ys. split; [exact Hys | exact Hrun].
Defined.

(** ** A block that raises and the output block after it *)

Lemma exception_text_cons output kind msg : exception_text output kind msg ≠ [].
Proof.
  unfold exception_text. destruct output as [|c output]; [| discriminate].
  destruct kind; discriminate.
Qed.

Section ExceptionListing.
Variable run : runtime.
Variable python2_7 : str → child.
Variable python3 : str → option str.
Variable root_dir : str.

(** A [python-exception] block and the output block after it: the pass
    over the two. *)
Lemma iterate_exception_listing path prose b o w :
  fence_free prose = true → exception_code b = true → plain_block o = true →
  let unit := blank prose ++ Py.nl :: body b in
  let '(w', r) := exec_exception run path unit w in
  ∃ ys,
    consume (iterate_blocks run python2_7 python3 root_dir path (document prose [b; o])) w
    = ({| host := w'; yielded := ys |},
       match r with Ok _ => Ok tt | Raise e => Raise e end) ∧
    concat ys = prose ++ fence ++ lit "python-exception" ++ Py.nl :: body b ++ fence
                ++ match r with
                   | Ok out =>
                       after b ++ fence ++ Py.lower (tag o) ++ Py.nl :: Py.strip_nl out
                       ++ Py.nl :: fence ++ after o
                   | Raise _ => []
                   end.
Proof.
  intros Hprose Hb Ho unit.
  set (text := document prose [b; o]).
  unfold exception_code in Hb.
  apply andb_true_iff in Hb as [Hb Hafter]. apply andb_true_iff in Hb as [Htag Hinner].
  apply bool_decide_eq_true in Htag.
  assert (Hnl : forallb (λ c, negb (Ascii.eqb c Py.nl)) (tag b) = true).
  { apply lower_no_nl. rewrite Htag. intros H.
    apply list_elem_of_In in H. vm_compute in H. intuition discriminate. }
  unfold plain_block in Ho.
  apply andb_true_iff in Ho as [Ho Hotag]. apply andb_true_iff in Ho as [Ho Hoafter].
  apply andb_true_iff in Ho as [Honl Hoinner].
  assert (Hw : written o = fence ++ (tag o ++ Py.nl :: body o) ++ fence ++ after o)
    by (unfold written; rewrite <- ?app_assoc; reflexivity).
  assert (Htext : text = [] ++ prose ++ fence ++ (tag b ++ Py.nl :: body b) ++ fence
                         ++ after b ++ written o).
  { unfold text, document, written. cbn [flat_map app].
    rewrite <- ?app_assoc, ?app_nil_r. simpl. rewrite <- ?app_assoc. reflexivity. }
  destruct (blocks_block run python2_7 python3 root_dir path text [] prose (tag b) (body b)
              (after b ++ written o) scan0 {| host := w; yielded := [] |} 0
              Htext eq_refl Hprose Hinner Hnl eq_refl) as (Hsrc & Hto & Hstep).
  cbn [length app Nat.add host yielded] in Hsrc, Hto, Hstep.
  set (close := length prose + 3 + length (tag b ++ Py.nl :: body b)) in *.
  set (st1 := set_suffix (Py.lower (tag b)) (Some (length prose + 3 + length (tag b))) scan0)
    in *.
  rewrite (closing_python run python2_7 python3 root_dir) in Hstep
    by (cbn [st1 block_suffix set_suffix]; rewrite Htag; reflexivity).
  rewrite python_exception_block in Hstep by (cbn; exact Htag).
  unfold flushed in Hstep.
  cbn [st1 pending_source set_text_start set_suffix scan0 host yielded] in Hstep.
  assert (Hunit : padded text (set_text_start (close + 3) st1)
                    (Py.slice_from (source_start st1) close text) = unit).
  { unfold padded. cbn [source_start set_text_start]. rewrite Hsrc, Hto.
    rewrite !count_app, (count_no_nl _ Hnl).
    change (Py.count Py.nl fence) with 0. rewrite !Nat.add_0_r. reflexivity. }
  fold st1 in Hstep. rewrite Hunit, Hsrc in Hstep.
  unfold consume, iterate_blocks, Py.finditer.
  change (document prose [b; o]) with text.
  assert (Hall : text = prose ++ fence ++ (tag b ++ Py.nl :: body b) ++ fence
                        ++ after b ++ written o) by exact Htext.
  rewrite <- Hall in Hstep.
  destruct (exec_exception run path unit w) as [w' [out | e]] eqn:Hexec.
  2:{ eexists. unfold bind at 1. rewrite Hstep. split; [reflexivity |].
      cbn [concat app]. rewrite ?app_nil_r.
      repeat (rewrite <- ?app_assoc; cbn [app]). reflexivity. }
  cbn [pending_output set_text_start set_suffix scan0 app] in Hstep.
  set (st2 := set_pending_source [] _) in Hstep.
  set (m2 := {| host := w'; yielded := _ |}) in Hstep.
  set (pre2 := prose ++ fence ++ (tag b ++ Py.nl :: body b) ++ fence).
  assert (Hlen2 : close + 3 = length pre2)
    by (unfold pre2, close; rewrite !length_app; simpl; lia).
  assert (Htext2 : text = pre2 ++ after b ++ fence ++ (tag o ++ Py.nl :: body o)
                          ++ fence ++ after o).
  { rewrite Hall, Hw. unfold pre2. rewrite <- ?app_assoc. reflexivity. }
  destruct (blocks_block run python2_7 python3 root_dir path text pre2 (after b) (tag o)
              (body o) (after o) st2 m2 2 Htext2 eq_refl Hafter Hoinner Honl)
    as (Hsrc2 & _ & Hstep2).
  { cbn [st2 text_start set_pending_source set_pending_output set_text_start]. exact Hlen2. }
  rewrite Hw, Hlen2 in Hstep. rewrite Hstep2 in Hstep. clear Hstep2.
  rewrite (closing_output run python2_7 python3 root_dir) in Hstep
    by (cbn [block_suffix set_suffix]; exact Hotag).
  rewrite Hsrc2, output_block_run in Hstep.
  subst st2 m2.
  cbn [pending_source pending_output set_pending_source set_pending_output
       set_text_start set_suffix block_suffix host yielded] in Hstep.
  change (pending_output st1) with (@nil ascii) in Hstep. cbn [app] in Hstep.
  destruct out as [|ch out].
  { exfalso. rewrite exec_exception_result in Hexec. injection Hexec as _ Hr.
    destruct (exec_source run path unit true w).2 as [? | []]; try discriminate.
    injection Hr as Hr. by apply exception_text_cons in Hr. }
  rewrite (finditer_from_free (after o)) in Hstep by exact Hoafter.
  cbn [blocks] in Hstep. unfold ret in Hstep. cbv beta iota zeta in Hstep.
  eexists. unfold bind at 1. rewrite Hstep.
  unfold finish. rewrite bind_yield.
  cbn [pending_source set_pending_output set_pending_source text_start set_text_start
       host yielded].
  unfold ret. split; [reflexivity |].
  set (close2 := length pre2 + length (after b) + 3 + length (tag o ++ Py.nl :: body o)).
  assert (Hdrop : drop (close2 + 3) text = after o).
  { rewrite Htext2.
    replace (pre2 ++ after b ++ fence ++ (tag o ++ Py.nl :: body o) ++ fence ++ after o)
      with ((pre2 ++ after b ++ fence ++ (tag o ++ Py.nl :: body o) ++ fence) ++ after o)
      by (rewrite <- ?app_assoc; reflexivity).
    replace (close2 + 3)
      with (length (pre2 ++ after b ++ fence ++ (tag o ++ Py.nl :: body o) ++ fence))
      by (unfold close2; rewrite !length_app; simpl; lia).
    apply drop_app_length. }
  rewrite Hdrop. cbn [concat app]. rewrite ?app_nil_r.
  repeat (rewrite <- ?app_assoc; cbn [app]). reflexivity.
Qed.

End ExceptionListing.

(** C4 (amended): when the code run in structured-failure mode raises an
    exception of class [kind] whose text is [msg], [exec_exception]
    returns the line [kind: msg] with the paths of the message
    replaced; output captured before the exception comes first, then
    the line [Traceback ...], then that line.  The paths replaced are
    the texts made of no dot, one or two, a slash, one or more of the
    characters [-a-zA-Z0-9_/] and [.py] or [.md], found reading the
    message from the left: each becomes [my_code.py] and every other
    character of the message is kept, a path with another ending among
    them.  In a document made of a [python-exception] block whose code
    raises and an output block, the pass ends without an exception: the
    exception block is yielded as it is, the output block with that
    text, without the line breaks around it, as its content, and [main]
    returns 0 for such a document. *)
Theorem C4_error_normalizer (run : runtime) (path source : str) (w : world)
    (kind msg : str) (format_list : list str) :
  let e := run path source (handed w) in
  ended e = Raised kind msg format_list →
  let exception_line := kind ++ lit ": " ++ redact msg in
  let shown := match captured e with
               | [] => exception_line
               | _ :: _ => captured e ++ lit "Traceback ..." ++ [Py.nl] ++ exception_line
               end in
  (exec_exception run path source w).2 = Ok shown ∧
  (∀ out, redacted msg out ↔ out = redact msg) ∧
  (∀ python2_7 python3 root_dir prose b o,
     fence_free prose = true → exception_code b = true → plain_block o = true →
     source = blank prose ++ Py.nl :: body b →
     let text := document prose [b; o] in
     (∃ ys,
        consume (iterate_blocks run python2_7 python3 root_dir path text) w
        = ({| host := (exec_exception run path source w).1; yielded := ys |}, Ok tt) ∧
        concat ys = prose ++ fence ++ lit "python-exception" ++ Py.nl :: body b ++ fence
                    ++ after b ++ fence ++ Py.lower (tag o) ++ Py.nl :: Py.strip_nl shown
                    ++ Py.nl :: fence ++ after o) ∧
     (files w !! path = Some text →
      ∀ overwrite, (main run python2_7 python3 root_dir [path] overwrite w).2 = Ok 0%Z)).
Proof.
  intros e He line shown.
  assert (Hres : (exec_exception run path source w).2 = Ok shown).
  { unfold exec_exception.
    pose proof (exec_source_result run path source true w) as Hr.
    cbn zeta in Hr. fold e in Hr. rewrite He in Hr.
    destruct (exec_source run path source true w) as [w' r]. simpl in Hr. subst r.
    subst shown. by destruct (captured e). }
  split; [exact Hres |]. split.
  { intros out. split; [apply redacted_redact | intros ->; apply redact_redacted]. }
  intros python2_7 python3 root_dir prose b o Hprose Hb Ho -> text.
  pose proof (iterate_exception_listing run python2_7 python3 root_dir path prose b o w
                Hprose Hb Ho) as Hpass.
  cbn zeta in Hpass. fold text in Hpass.
  destruct (exec_exception run path (blank prose ++ Py.nl :: body b) w) as [w' r].
  cbn [fst snd] in Hres |- *. subst r.
  destruct Hpass as (ys & Hrun & Hcat).
  split; [by exists ys |].
  intros Hfile overwrite. cbn [main]. rewrite Hfile.
  fold (iterate_blocks run python2_7 python3 root_dir path text).
  unfold print_iter. rewrite Hrun. by destruct overwrite.
Qed.

(** C4 on [raise ValueError('boom')] in a [python-exception] block, and
    on a message with a path after some output. *)
Lemma C4_error_normalizer_witness :
  (∃ ys,
     consume (iterate_blocks Toy.run Toy.python2_7 Toy.python3 Toy.root_dir (lit "doc.md")
                (lit "```python-exception
raise ValueError('boom')
```
```
```
")) (initial_world ∅)
     = ({| host := (exec_exception Toy.run (lit "doc.md") (lit "
raise ValueError('boom')
") (initial_world ∅)).1; yielded := ys |}, Ok tt) ∧
     concat ys = lit "```python-exception
raise ValueError('boom')
```
```
ValueError: boom
```
") ∧
  (exec_exception Toy.run (lit "doc.md")
     (lit "print('hi')
raise OSError('no ../book/ch-1.md here')") (initial_world ∅)).2
  = Ok (lit "hi
Traceback ...
OSError: no my_code.py here") ∧
  redacted (lit "no ../book/ch-1.md here") (lit "no my_code.py here").
Proof.
  split; [| split].
  - destruct (C4_error_normalizer Toy.run (lit "doc.md") (lit "
raise ValueError('boom')
") (initial_world ∅) (lit "ValueError") (lit "boom")
                (Toy.trace (lit "doc.md") (lit "ValueError") (lit "boom")))
      as (_ & _ & Hpass); [vm_compute; reflexivity |].
    destruct (Hpass Toy.python2_7 Toy.python3 Toy.root_dir []
                {| tag := lit "python-exception"; body := lit "raise ValueError('boom')
"; after := [Py.nl] |}
                {| tag := []; body := []; after := [Py.nl] |})
      as [(ys & Hrun & Hcat) _]; [vm_compute; reflexivity ..|].
    exists ys. split; [exact Hrun | exact Hcat].
  - destruct (C4_error_normalizer Toy.run (lit "doc.md")
                (lit "print('hi')
raise OSError('no ../book/ch-1.md here')") (initial_world ∅)
                (lit "OSError") (lit "no ../book/ch-1.md here")
                (Toy.trace (lit "doc.md") (lit "OSError") (lit "no ../book/ch-1.md here")))
      as (Hres & _ & _); [vm_compute; reflexivity |].
    exact Hres.
  - destruct (C4_error_normalizer Toy.run (lit "doc.md")
                (lit "print('hi')
raise OSError('no ../book/ch-1.md here')") (initial_world ∅)
                (lit "OSError") (lit "no ../book/ch-1.md here")
                (Toy.trace (lit "doc.md") (lit "OSError") (lit "no ../book/ch-1.md here")))
      as (_ & Hred & _); [vm_compute; reflexivity |].
    apply Hred. vm_compute. reflexivity.
Defined.

(** C4, as the specification states it, fails: a path that does not end
    in [.py] or [.md] stays in the text, and of a path with a dot in the
    name of a directory only what follows that name is replaced. *)
Lemma C4_paths_left_in_the_message :
  (exec_exception Toy.run (lit "doc.md")
     (lit "raise OSError('cannot read /home/me/notes.txt')") (initial_world ∅)).2
  = Ok (lit "OSError: cannot read /home/me/notes.txt") ∧
  (exec_exception Toy.run (lit "doc.md")
     (lit "raise OSError('see /home/me/proj.v2/run.py')") (initial_world ∅)).2
  = Ok (lit "OSError: see /home/me/proj.v2my_code.py").
Proof. split; vm_compute; reflexivity. Qed.

(** ** Rewriting what has been rewritten *)

Lemma lower_char_idem c : Py.lower_char (Py.lower_char c) = Py.lower_char c.
Proof. destruct c as [[] [] [] [] [] [] [] []]; vm_compute; reflexivity. Qed.

Lemma lower_idem t : Py.lower (Py.lower t) = Py.lower t.
Proof.
  unfold Py.lower. rewrite map_map. apply map_ext. intros c. apply lower_char_idem.
Qed.

Lemma lower_char_tick c :
  Ascii.eqb "`"%char (Py.lower_char c) = Ascii.eqb "`"%char c.
Proof. destruct c as [[] [] [] [] [] [] [] []]; vm_compute; reflexivity. Qed.

Lemma lower_char_keeps_nl c :
  Ascii.eqb (Py.lower_char c) Py.nl = Ascii.eqb c Py.nl.
Proof. destruct c as [[] [] [] [] [] [] [] []]; vm_compute; reflexivity. Qed.

Lemma startswith_fence_sep a c b :
  c ≠ "`"%char → Py.startswith fence (a ++ c :: b) = Py.startswith fence a.
Proof.
  intros Hc. assert (E : Ascii.eqb "`"%char c = false) by (apply Ascii.eqb_neq; congruence).
  change fence with ["`"%char; "`"%char; "`"%char].
  destruct a as [|x [|y [|z a]]]; cbn [app Py.startswith];
    rewrite ?E, ?andb_false_r; reflexivity.
Qed.

Lemma contains_fence_sep a c b :
  c ≠ "`"%char →
  Py.contains fence (a ++ c :: b) = Py.contains fence a || Py.contains fence b.
Proof.
  intros Hc. induction a as [|x a IH].
  - cbn [app Py.contains]. pose proof (startswith_fence_sep [] c b Hc) as E.
    cbn [app] in E. rewrite E. reflexivity.
  - cbn [app Py.contains]. rewrite IH.
    change (x :: a ++ c :: b) with ((x :: a) ++ c :: b).
    rewrite startswith_fence_sep by exact Hc. apply orb_assoc.
Qed.

Lemma startswith_fence_lower t : Py.startswith fence (Py.lower t) = Py.startswith fence t.
Proof.
  change fence with ["`"%char; "`"%char; "`"%char].
  destruct t as [|x [|y [|z t]]]; cbn [Py.lower map Py.startswith];
    rewrite ?lower_char_tick; reflexivity.
Qed.

Lemma contains_fence_lower t : Py.contains fence (Py.lower t) = Py.contains fence t.
Proof.
  induction t as [|x t IH]; [reflexivity |].
  change (Py.lower (x :: t)) with (Py.lower_char x :: Py.lower t).
  cbn [Py.contains]. rewrite IH. f_equal.
  apply (startswith_fence_lower (x :: t)).
Qed.

Lemma contains_app_l p a b : Py.contains p a = true → Py.contains p (a ++ b) = true.
Proof.
  induction a as [|x a IH].
  - cbn [Py.contains]. rewrite orb_false_r. intros H.
    destruct p; [by destruct b | discriminate].
  - cbn [app Py.contains]. intros H. apply orb_true_iff in H as [H | H].
    + change (x :: a ++ b) with ((x :: a) ++ b). by rewrite startswith_mono.
    + rewrite IH by exact H. apply orb_true_r.
Qed.

Lemma contains_app_r p a b : Py.contains p b = true → Py.contains p (a ++ b) = true.
Proof.
  intros H. induction a as [|x a IH]; [exact H |].
  cbn [app Py.contains]. rewrite IH. apply orb_true_r.
Qed.

Lemma fence_free_normal t body :
  fence_free (t ++ Py.nl :: body) = true →
  fence_free (Py.lower t ++ Py.nl :: Py.strip_nl (Py.nl :: body) ++ [Py.nl]) = true.
Proof.
  unfold fence_free. intros H. apply negb_true_iff in H. apply negb_true_iff.
  rewrite <- app_assoc in H |- *. cbn [app] in H |- *.
  rewrite contains_fence_sep in H by discriminate.
  apply orb_false_iff in H as [Ht Hb].
  rewrite contains_fence_sep by discriminate.
  rewrite contains_fence_lower, Ht. cbn [orb].
  rewrite <- app_assoc. cbn [app]. rewrite contains_fence_sep by discriminate.
  change (Py.contains fence (lit "``")) with false. rewrite orb_false_r.
  destruct (Py.contains fence (Py.strip_nl _)) eqn:E; [| reflexivity].
  destruct (strip_by_split (λ x, Ascii.eqb x Py.nl) (Py.nl :: body)) as (l & r & Hx & _).
  fold (Py.strip_nl (Py.nl :: body)) in Hx.
  assert (Hc : Py.contains fence (Py.nl :: body) = true).
  { rewrite Hx. apply contains_app_r, contains_app_l, E. }
  cbn [Py.contains] in Hc. change (Py.startswith fence (Py.nl :: body)) with false in Hc.
  cbn [orb] in Hc. rewrite contains_app_l in Hb by exact Hc. discriminate.
Qed.

Lemma written_normal b : written (normal b) = rewritten b.
Proof.
  unfold written, rewritten, normal. cbn [tag body after].
  rewrite <- ?app_assoc. reflexivity.
Qed.

Lemma emitted_normal b : emitted_form (normal b).
Proof.
  split; cbn [normal tag body]; [apply lower_idem |].
  by rewrite strip_nl_emitted.
Qed.

Lemma plain_normal b : plain_block b = true → plain_block (normal b) = true.
Proof.
  unfold plain_block. intros H.
  apply andb_true_iff in H as [H Htag]. apply andb_true_iff in H as [H Hafter].
  apply andb_true_iff in H as [Hnl Hinner].
  cbn [normal tag body after]. rewrite lower_idem, Htag, Hafter, !andb_true_r.
  rewrite (fence_free_normal _ _ Hinner), andb_true_r.
  clear -Hnl. induction (tag b) as [|c t IH]; [reflexivity |].
  cbn [forallb] in Hnl. apply andb_true_iff in Hnl as [Hc Ht].
  change (Py.lower (c :: t)) with (Py.lower_char c :: Py.lower t).
  cbn [forallb]. rewrite lower_char_keeps_nl, Hc. by apply IH.
Qed.

Lemma plain_normal_all bs :
  forallb plain_block bs = true → forallb plain_block (map normal bs) = true.
Proof.
  induction bs as [|b bs IH]; [reflexivity |]. cbn [forallb map].
  intros H. apply andb_true_iff in H as [Hb Hbs].
  by rewrite plain_normal, IH.
Qed.

Lemma emitted_normal_all bs : Forall emitted_form (map normal bs).
Proof. induction bs; constructor; [apply emitted_normal | assumption]. Qed.

Lemma rewritten_normal bs : flat_map rewritten bs = flat_map written (map normal bs).
Proof.
  induction bs as [|b bs IH]; [reflexivity |].
  cbn [flat_map map]. by rewrite IH, written_normal.
Qed.

(** X9: rewriting is idempotent on the documents whose blocks are output
    blocks that nothing precedes: what a pass yields for such a
    document is a document that a second pass, in whatever state and
    under whatever path, yields as it is, without executing anything. *)
Theorem rewrite_idempotent run python2_7 python3 root_dir path path' prose bs w w' :
  fence_free prose = true → forallb plain_block bs = true →
  let once := concat (yielded (consume (iterate_blocks run python2_7 python3 root_dir path
                                          (document prose bs)) w).1) in
  let again := consume (iterate_blocks run python2_7 python3 root_dir path' once) w' in
  again.2 = Ok tt ∧ host again.1 = w' ∧ concat (yielded again.1) = once.
Proof.
  intros Hprose Hbs once again.
  destruct (iterate_document run python2_7 python3 root_dir path prose bs w Hprose Hbs)
    as (_ & _ & Honce).
  fold once in Honce.
  assert (Hdoc : once = document prose (map normal bs)).
  { rewrite Honce. unfold document. by rewrite rewritten_normal. }
  subst again. rewrite Hdoc.
  destruct (iterate_document run python2_7 python3 root_dir path' prose (map normal bs) w'
              Hprose (plain_normal_all bs Hbs)) as (Hr & Hw & Hout).
  split; [exact Hr |]. split; [exact Hw |].
  rewrite Hout. unfold document. f_equal.
  apply rewritten_emitted_form, emitted_normal_all.
Qed.

(** A draft whose output block has blank lines around its text and a tag
    in upper case: the second pass changes nothing. *)
Lemma rewrite_idempotent_witness :
  let draft := lit "Draft:
```TEXT


to be written

```
Done.
" in
  let once := concat (yielded (consume (iterate_blocks Toy.run Toy.python2_7 Toy.python3
                                          Toy.root_dir (lit "doc.md") draft)
                                 (initial_world ∅)).1) in
  once = lit "Draft:
```text
to be written
```
Done.
" ∧
  concat (yielded (consume (iterate_blocks Toy.run Toy.python2_7 Toy.python3
                              Toy.root_dir (lit "doc.md") once) (initial_world ∅)).1)
  = once.
Proof.
  intros draft once.
  split; [vm_compute; reflexivity |].
  apply (rewrite_idempotent Toy.run Toy.python2_7 Toy.python3 Toy.root_dir
           (lit "doc.md") (lit "doc.md") (lit "Draft:
")
           [ {| tag := lit "TEXT"; body := lit "

to be written

"; after := lit "
Done.
" |} ] (initial_world ∅) (initial_world ∅)); vm_compute; reflexivity.
Defined.

(** ** The exceptions that leave a batch *)

Section Raises.
Variable run : runtime.
Variable python2_7 : str → child.
Variable python3 : str → option str.
Variable root_dir : str.

Lemma raises_ret P {A} (a : A) : raises P (ret a).
Proof. intros m e. discriminate. Qed.

Lemma raises_yield P t : raises P (yield t).
Proof. intros m e. discriminate. Qed.

Lemma raises_bind P {A B} (c : gen A) (k : A → gen B) :
  raises P c → (∀ a, raises P (k a)) → raises P (bind c k).
Proof.
  intros Hc Hk m e. unfold bind. specialize (Hc m).
  destruct (c m) as [m' [a | e']]; cbn [snd] in *.
  - apply Hk.
  - intros [= <-]. by apply Hc.
Qed.

Lemma raises_call P {A} (f : world → world * result A) :
  (∀ w e, (f w).2 = Raise e → P e) → raises P (call f).
Proof.
  intros Hf m e. unfold call. specialize (Hf (host m)).
  destruct (f (host m)) as [w r]. apply Hf.
Qed.

Lemma exec_source_raises path source w e :
  (exec_source run path source false w).2 = Raise e → leaves_pass e.
Proof.
  rewrite exec_source_result. cbn zeta.
  destruct (ended _); [discriminate | |]; by intros [= <-].
Qed.

Lemma exec_exception_raises path source w e :
  (exec_exception run path source w).2 = Raise e → leaves_pass e.
Proof.
  rewrite exec_exception_result, exec_source_result. cbn [snd]. cbn zeta.
  destruct (ended _); [| discriminate |]; by intros [= <-].
Qed.

Lemma raises_flush path st : raises leaves_pass (flush run path st).
Proof.
  unfold flush. apply raises_bind; [| intros; apply raises_ret].
  apply raises_call. intros w e. apply exec_source_raises.
Qed.

Ltac raises :=
  repeat first
    [ apply raises_ret | apply raises_yield | apply raises_flush
    | apply raises_bind; [| intros ?] ].

Lemma raises_closing path text start st :
  raises leaves_pass (closing run python2_7 python3 root_dir path text start st).
Proof.
  unfold closing.
  destruct (_ || _).
  { unfold python_block.
    apply raises_bind.
    - destruct (is_python_exception _); [destruct (pending_source _) |]; raises.
    - intros st'. raises. destruct (is_python_exception _); raises.
      apply raises_call. intros w e. apply exec_exception_raises. }
  destruct (is_python2 _).
  { unfold python2_block. raises.
    - destruct (negb _); raises.
    - apply raises_call. intros w e. unfold exec_python2.
      destruct (python2_7 _); [discriminate | by intros [= <-] ..]. }
  destruct (is_python_syntax_error _).
  { unfold syntax_error_block. raises.
    apply raises_call. intros w e. unfold exec_syntax_error.
    destruct (python3 _); [discriminate | by intros [= <-]]. }
  destruct (is_python_include _).
  { unfold include_block. raises.
    apply raises_call. intros w e.
    destruct (files w !! _); [discriminate | by intros [= <-]]. }
  unfold output_block. apply raises_bind; [| intros st'; raises].
  destruct (pending_source _); [destruct (pending_output _) |]; raises.
Qed.

Lemma raises_blocks path text starts : ∀ k st,
  raises leaves_pass (blocks run python2_7 python3 root_dir path text k starts st).
Proof.
  induction starts as [|start rest IH]; intros k st; cbn [blocks]; [apply raises_ret |].
  apply raises_bind; [| intros st'; apply IH].
  destruct (_ =? _); [unfold opening; raises | apply raises_closing].
Qed.

Lemma raises_iterate_blocks path text :
  raises leaves_pass (iterate_blocks run python2_7 python3 root_dir path text).
Proof.
  unfold iterate_blocks. apply raises_bind; [apply raises_blocks |].
  intros st. unfold finish. raises. destruct (pending_source st); raises.
  apply raises_call. intros w' e. apply exec_source_raises.
Qed.

(** X15: [main] returns 0 or 1 and nothing else; a [MarkdownExecError] never
    leaves it, nor does a [WrappedException]. *)
Theorem main_exit paths overwrite : ∀ w,
  match (main run python2_7 python3 root_dir paths overwrite w).2 with
  | Ok n => n = 0%Z ∨ n = 1%Z
  | Raise e => leaves_main e
  end.
Proof.
  induction paths as [|path rest IH]; intros w; cbn [main]; [by left |].
  destruct (files w !! path) as [text|]; [| exact I].
  fold (iterate_blocks run python2_7 python3 root_dir path text).
  pose proof (raises_iterate_blocks path text {| host := w; yielded := [] |}) as Hp.
  unfold print_iter, consume.
  destruct (iterate_blocks run python2_7 python3 root_dir path text _) as [m r].
  cbn [snd] in Hp.
  destruct overwrite; destruct r as [[] | e]; try apply IH;
    specialize (Hp e eq_refl); destruct e; cbn in Hp |- *; auto.
Qed.

End Raises.

(** ** What the error normaliser leaves alone *)

(** X16: the error normaliser replaces texts of the shape of a path only: a
    message no part of which is up to two dots, a slash, one or more
    path characters and [.py] or [.md] is returned as it is. *)
Theorem redact_only_paths msg :
  (∀ pre dots body ext post,
     msg = pre ++ dots ++ "/"%char :: body ++ ext ++ post →
     is_dots dots → body ≠ [] → Forall (λ c, is_path_char c = true) body →
     ¬ is_ext ext) →
  redact msg = msg.
Proof.
  intros Hno. unfold redact, Re.sub.
  assert (H : ∀ pre s, msg = pre ++ s → Re.sub_from filename_re (lit "my_code.py") 0 s = s);
    [| exact (H [] msg eq_refl)].
  intros pre s. revert pre. induction s as [|c s IH]; intros pre Hmsg; [reflexivity |].
  cbn [Re.sub_from].
  assert (Hm : Re.match_len filename_re (c :: s) = None).
  { unfold Re.match_len.
    destruct (Re.run filename_re (c :: s) Some) as [rest|] eqn:E; [| reflexivity].
    apply filename_re_sound in E as (dots & body & ext & post & Hs & Hd & Hne & Hb & He & _).
    destruct (Hno pre dots body ext post); [by rewrite Hmsg, Hs | done ..]. }
  rewrite Hm. f_equal. apply (IH (pre ++ [c])).
  rewrite Hmsg, <- app_assoc. reflexivity.
Qed.

(** A message that names a text file and a directory. *)
Lemma redact_only_paths_witness :
  redact (lit "no ./notes.txt in /tmp/") = lit "no ./notes.txt in /tmp/".
Proof.
  apply redact_only_paths.
  intros pre dots body ext post Hmsg _ Hne Hbody [-> | ->].
  - assert (H : Py.contains (lit ".py") (lit "no ./notes.txt in /tmp/") = true);
      [| vm_compute in H; discriminate].
    rewrite Hmsg. apply contains_app_r, contains_app_r.
    change ("/"%char :: body ++ lit ".py" ++ post)
      with (("/"%char :: body) ++ lit ".py" ++ post).
    apply contains_app_r, contains_app_l. reflexivity.
  - assert (H : Py.contains (lit ".md") (lit "no ./notes.txt in /tmp/") = true);
      [| vm_compute in H; discriminate].
    rewrite Hmsg. apply contains_app_r, contains_app_r.
    change ("/"%char :: body ++ lit ".md" ++ post)
      with (("/"%char :: body) ++ lit ".md" ++ post).
    apply contains_app_r, contains_app_l. reflexivity.
Defined.
